(** * vimix -- direct manipulation of a source in the Geometry view

    Shallow embedding of [GeometryView::pick], [GeometryView::grab] and
    the head of [GeometryView::draw], with the part of glm they use.
    Scalars ([float] in the source) are idealised as real numbers:
    rounding error and the IEEE special values are outside the model, so
    an equation proved here is what the source states "within epsilon".

    Further down: the rest of the Geometry view (arrow keys, zoom,
    context menu, release of a drag), the list of capture devices of
    [Device], and the camera, the pile of attributes and the windows of
    [Rendering]. *)

From Stdlib Require Import Reals Lra Lia List Bool Arith ZArith String.
Import ListNotations.
Open Scope R_scope.

(** ** glm: vectors and matrices *)

Module glm.

Record vec2 := mkvec2 { x2 : R; y2 : R }.
Record vec3 := mkvec3 { x3 : R; y3 : R; z3 : R }.
Record vec4 := mkvec4 { x4 : R; y4 : R; z4 : R; w4 : R }.

(** [glm::mat4] is column major: [m[i]] is the i-th column. *)
Record mat4 := mkmat4 { c0 : vec4; c1 : vec4; c2 : vec4; c3 : vec4 }.

(** Component-wise arithmetic of [glm::vec3]. *)
Definition add3 (a b : vec3) : vec3 :=
  mkvec3 (x3 a + x3 b) (y3 a + y3 b) (z3 a + z3 b).
Definition sub3 (a b : vec3) : vec3 :=
  mkvec3 (x3 a - x3 b) (y3 a - y3 b) (z3 a - z3 b).
Definition mul3 (a b : vec3) : vec3 :=
  mkvec3 (x3 a * x3 b) (y3 a * y3 b) (z3 a * z3 b).
Definition div3 (a b : vec3) : vec3 :=
  mkvec3 (x3 a / x3 b) (y3 a / y3 b) (z3 a / z3 b).

Definition neg2 (a : vec2) : vec2 := mkvec2 (- x2 a) (- y2 a).

(** Component-wise arithmetic of [glm::vec4]. *)
Definition add4 (a b : vec4) : vec4 :=
  mkvec4 (x4 a + x4 b) (y4 a + y4 b) (z4 a + z4 b) (w4 a + w4 b).
Definition sub4 (a b : vec4) : vec4 :=
  mkvec4 (x4 a - x4 b) (y4 a - y4 b) (z4 a - z4 b) (w4 a - w4 b).
Definition mul4 (a b : vec4) : vec4 :=
  mkvec4 (x4 a * x4 b) (y4 a * y4 b) (z4 a * z4 b) (w4 a * w4 b).
Definition smul4 (a : vec4) (k : R) : vec4 :=
  mkvec4 (x4 a * k) (y4 a * k) (z4 a * k) (w4 a * k).

(** Conversions: [glm::vec4(v, w)], [glm::vec3(v4)], [glm::vec2(v4)]. *)
Definition vec4_of (v : vec3) (w : R) : vec4 := mkvec4 (x3 v) (y3 v) (z3 v) w.
Definition vec3_of (v : vec4) : vec3 := mkvec3 (x4 v) (y4 v) (z4 v).
Definition vec2_of (v : vec4) : vec2 := mkvec2 (x4 v) (y4 v).
Definition vec2_of3 (v : vec3) : vec2 := mkvec2 (x3 v) (y3 v).

Definition identity : mat4 :=
  mkmat4 (mkvec4 1 0 0 0) (mkvec4 0 1 0 0) (mkvec4 0 0 1 0) (mkvec4 0 0 0 1).

(** [m * v]: linear combination of the columns. *)
Definition mulv (m : mat4) (v : vec4) : vec4 :=
  add4 (add4 (add4 (smul4 (c0 m) (x4 v)) (smul4 (c1 m) (y4 v)))
             (smul4 (c2 m) (z4 v)))
       (smul4 (c3 m) (w4 v)).

(** [a * b]: the columns of [b] mapped by [a]. *)
Definition mulm (a b : mat4) : mat4 :=
  mkmat4 (mulv a (c0 b)) (mulv a (c1 b)) (mulv a (c2 b)) (mulv a (c3 b)).

(** [glm::translate(m, v)]. *)
Definition translate (m : mat4) (v : vec3) : mat4 :=
  mkmat4 (c0 m) (c1 m) (c2 m)
    (add4 (add4 (add4 (smul4 (c0 m) (x3 v)) (smul4 (c1 m) (y3 v)))
                (smul4 (c2 m) (z3 v)))
          (c3 m)).

(** [glm::scale(m, v)]. *)
Definition scale (m : mat4) (v : vec3) : mat4 :=
  mkmat4 (smul4 (c0 m) (x3 v)) (smul4 (c1 m) (y3 v)) (smul4 (c2 m) (z3 v))
         (c3 m).

(** [glm::length] and [glm::normalize]. *)
Definition length2 (v : vec2) : R := sqrt (x2 v * x2 v + y2 v * y2 v).
Definition length3 (v : vec3) : R :=
  sqrt (x3 v * x3 v + y3 v * y3 v + z3 v * z3 v).
Definition normalize2 (v : vec2) : vec2 :=
  mkvec2 (x2 v * (1 / length2 v)) (y2 v * (1 / length2 v)).
Definition normalize3 (v : vec3) : vec3 :=
  mkvec3 (x3 v * (1 / length3 v)) (y3 v * (1 / length3 v))
         (z3 v * (1 / length3 v)).

(** [glm::rotate(m, angle, axis)]. *)
Definition rotate (m : mat4) (angle : R) (v : vec3) : mat4 :=
  let c := cos angle in
  let s := sin angle in
  let axis := normalize3 v in
  let temp := mkvec3 ((1 - c) * x3 axis) ((1 - c) * y3 axis)
                     ((1 - c) * z3 axis) in
  let r00 := c + x3 temp * x3 axis in
  let r01 := x3 temp * y3 axis + s * z3 axis in
  let r02 := x3 temp * z3 axis - s * y3 axis in
  let r10 := y3 temp * x3 axis - s * z3 axis in
  let r11 := c + y3 temp * y3 axis in
  let r12 := y3 temp * z3 axis + s * x3 axis in
  let r20 := z3 temp * x3 axis + s * y3 axis in
  let r21 := z3 temp * y3 axis - s * x3 axis in
  let r22 := c + z3 temp * z3 axis in
  mkmat4
    (add4 (add4 (smul4 (c0 m) r00) (smul4 (c1 m) r01)) (smul4 (c2 m) r02))
    (add4 (add4 (smul4 (c0 m) r10) (smul4 (c1 m) r11)) (smul4 (c2 m) r12))
    (add4 (add4 (smul4 (c0 m) r20) (smul4 (c1 m) r21)) (smul4 (c2 m) r22))
    (c3 m).

(** [glm::inverse] of a [mat4]: cofactors over the determinant. *)
Definition inverse (m : mat4) : mat4 :=
  let m00 := x4 (c0 m) in let m01 := y4 (c0 m) in
  let m02 := z4 (c0 m) in let m03 := w4 (c0 m) in
  let m10 := x4 (c1 m) in let m11 := y4 (c1 m) in
  let m12 := z4 (c1 m) in let m13 := w4 (c1 m) in
  let m20 := x4 (c2 m) in let m21 := y4 (c2 m) in
  let m22 := z4 (c2 m) in let m23 := w4 (c2 m) in
  let m30 := x4 (c3 m) in let m31 := y4 (c3 m) in
  let m32 := z4 (c3 m) in let m33 := w4 (c3 m) in
  let Coef00 := m22 * m33 - m32 * m23 in
  let Coef02 := m12 * m33 - m32 * m13 in
  let Coef03 := m12 * m23 - m22 * m13 in
  let Coef04 := m21 * m33 - m31 * m23 in
  let Coef06 := m11 * m33 - m31 * m13 in
  let Coef07 := m11 * m23 - m21 * m13 in
  let Coef08 := m21 * m32 - m31 * m22 in
  let Coef10 := m11 * m32 - m31 * m12 in
  let Coef11 := m11 * m22 - m21 * m12 in
  let Coef12 := m20 * m33 - m30 * m23 in
  let Coef14 := m10 * m33 - m30 * m13 in
  let Coef15 := m10 * m23 - m20 * m13 in
  let Coef16 := m20 * m32 - m30 * m22 in
  let Coef18 := m10 * m32 - m30 * m12 in
  let Coef19 := m10 * m22 - m20 * m12 in
  let Coef20 := m20 * m31 - m30 * m21 in
  let Coef22 := m10 * m31 - m30 * m11 in
  let Coef23 := m10 * m21 - m20 * m11 in
  let Fac0 := mkvec4 Coef00 Coef00 Coef02 Coef03 in
  let Fac1 := mkvec4 Coef04 Coef04 Coef06 Coef07 in
  let Fac2 := mkvec4 Coef08 Coef08 Coef10 Coef11 in
  let Fac3 := mkvec4 Coef12 Coef12 Coef14 Coef15 in
  let Fac4 := mkvec4 Coef16 Coef16 Coef18 Coef19 in
  let Fac5 := mkvec4 Coef20 Coef20 Coef22 Coef23 in
  let Vec0 := mkvec4 m10 m00 m00 m00 in
  let Vec1 := mkvec4 m11 m01 m01 m01 in
  let Vec2 := mkvec4 m12 m02 m02 m02 in
  let Vec3 := mkvec4 m13 m03 m03 m03 in
  let Inv0 := add4 (sub4 (mul4 Vec1 Fac0) (mul4 Vec2 Fac1)) (mul4 Vec3 Fac2) in
  let Inv1 := add4 (sub4 (mul4 Vec0 Fac0) (mul4 Vec2 Fac3)) (mul4 Vec3 Fac4) in
  let Inv2 := add4 (sub4 (mul4 Vec0 Fac1) (mul4 Vec1 Fac3)) (mul4 Vec3 Fac5) in
  let Inv3 := add4 (sub4 (mul4 Vec0 Fac2) (mul4 Vec1 Fac4)) (mul4 Vec2 Fac5) in
  let SignA := mkvec4 1 (-1) 1 (-1) in
  let SignB := mkvec4 (-1) 1 (-1) 1 in
  let I0 := mul4 Inv0 SignA in
  let I1 := mul4 Inv1 SignB in
  let I2 := mul4 Inv2 SignA in
  let I3 := mul4 Inv3 SignB in
  let Row0 := mkvec4 (x4 I0) (x4 I1) (x4 I2) (x4 I3) in
  let Dot0 := mul4 (c0 m) Row0 in
  let Dot1 := (x4 Dot0 + y4 Dot0) + (z4 Dot0 + w4 Dot0) in
  let OneOverDeterminant := 1 / Dot1 in
  mkmat4 (smul4 I0 OneOverDeterminant) (smul4 I1 OneOverDeterminant)
         (smul4 I2 OneOverDeterminant) (smul4 I3 OneOverDeterminant).

(** The determinant [glm::inverse] divides by. *)
Definition det (m : mat4) : R :=
  let m00 := x4 (c0 m) in let m01 := y4 (c0 m) in
  let m02 := z4 (c0 m) in let m03 := w4 (c0 m) in
  let m10 := x4 (c1 m) in let m11 := y4 (c1 m) in
  let m12 := z4 (c1 m) in let m13 := w4 (c1 m) in
  let m20 := x4 (c2 m) in let m21 := y4 (c2 m) in
  let m22 := z4 (c2 m) in let m23 := w4 (c2 m) in
  let m30 := x4 (c3 m) in let m31 := y4 (c3 m) in
  let m32 := z4 (c3 m) in let m33 := w4 (c3 m) in
  m00 * (m11 * (m22 * m33 - m32 * m23) - m12 * (m21 * m33 - m31 * m23)
         + m13 * (m21 * m32 - m31 * m22))
  - m01 * (m10 * (m22 * m33 - m32 * m23) - m12 * (m20 * m33 - m30 * m23)
           + m13 * (m20 * m32 - m30 * m22))
  + m02 * (m10 * (m21 * m33 - m31 * m23) - m11 * (m20 * m33 - m30 * m23)
           + m13 * (m20 * m31 - m30 * m21))
  - m03 * (m10 * (m21 * m32 - m31 * m22) - m11 * (m20 * m32 - m30 * m22)
           + m12 * (m20 * m31 - m30 * m21)).

(** [glm::clamp], [glm::sign], [glm::round] on scalars. *)
Definition clamp (x minVal maxVal : R) : R := Rmin (Rmax x minVal) maxVal.

Definition sign (x : R) : R :=
  if Rlt_dec 0 x then 1 else if Rlt_dec x 0 then -1 else 0.

(** [glm::round] is [std::round]: nearest integer, halves away from 0. *)
Definition round (x : R) : R :=
  if Rle_dec 0 x then IZR (Int_part (x + / 2))
  else - IZR (Int_part (- x + / 2)).

Definition round2 (v : vec2) : vec2 := mkvec2 (round (x2 v)) (round (y2 v)).
Definition sign3 (v : vec3) : vec3 :=
  mkvec3 (sign (x3 v)) (sign (y3 v)) (sign (z3 v)).

(** [glm::degrees] and [glm::radians]. *)
Definition degrees (r : R) : R := r * (180 / PI).
Definition radians (d : R) : R := d * (PI / 180).

Definition dot2 (a b : vec2) : R := x2 a * x2 b + y2 a * y2 b.

(** [glm::orientedAngle] of two unit [vec2]: the angle between them,
    signed by the side [y] lies on. *)
Definition orientedAngle (x y : vec2) : R :=
  let Angle := acos (clamp (dot2 x y) (-1) 1) in
  let partialCross := x2 x * y2 y - x2 y * y2 x in
  if Rlt_dec 0 partialCross then Angle else - Angle.

End glm.

Import glm.

(** ** Macros of defines.h *)

(** Modelled from the spec: the macro [ABS] of defines.h (absent from the
    sources at hand), the "magnitude" of a scalar. *)
Definition ABS (a : R) : R := if Rlt_dec a 0 then - a else a.

(** Modelled from the spec: the macro [SIGN] of defines.h, the sign that
    "sign preserved" refers to; zero counts as positive. *)
Definition SIGN (a : R) : R := if Rlt_dec a 0 then -1 else 1.

(** Modelled from the spec: the macro [CLAMP] of defines.h,
    "clamp crop in [0.1, 1.0]". *)
Definition CLAMP (x low high : R) : R := Rmin (Rmax x low) high.

(** Modelled from the spec: the macro [ROUND] of defines.h; with factor
    10 it "rounds to nearest 0.1". *)
Definition ROUND (val factor : R) : R :=
  IZR (Int_part (val * factor + / 2)) / factor.

(** Conversion [int(x)] of a scalar: truncation toward zero. *)
Definition int_of (x : R) : Z :=
  if Rle_dec 0 x then Int_part x else (- Int_part (- x))%Z.

Definition Rgtb (a b : R) : bool := if Rlt_dec b a then true else false.
Definition Rltb' (a b : R) : bool := if Rlt_dec a b then true else false.

(** ** Scene nodes, handles and sources *)

(** A node is known by its identity in the scene. *)
Abbreviation NodeId := nat (only parsing).

(** The transform fields of a scene [Node] ([Group] for a source). *)
Record Node := mkNode {
  translation_ : vec3;
  rotation_ : vec3;
  scale_ : vec3;
  crop_ : vec3;
  transform_ : mat4
}.

Definition set_translation (n : Node) (v : vec3) : Node :=
  mkNode v (rotation_ n) (scale_ n) (crop_ n) (transform_ n).
Definition set_rotation (n : Node) (v : vec3) : Node :=
  mkNode (translation_ n) v (scale_ n) (crop_ n) (transform_ n).
Definition set_scale (n : Node) (v : vec3) : Node :=
  mkNode (translation_ n) (rotation_ n) v (crop_ n) (transform_ n).
Definition set_crop (n : Node) (v : vec3) : Node :=
  mkNode (translation_ n) (rotation_ n) (scale_ n) v (transform_ n).

Definition set_x (v : vec3) (x : R) : vec3 := mkvec3 x (y3 v) (z3 v).
Definition set_y (v : vec3) (y : R) : vec3 := mkvec3 (x3 v) y (z3 v).
Definition set_z (v : vec3) (z : R) : vec3 := mkvec3 (x3 v) (y3 v) z.

(** Modelled from the spec: [GlmToolkit::transform], the "matrix
    materialization" of a transform state made of a translation, a
    single axis angle (about z) and a non-uniform scale. *)
Definition GlmToolkit_transform (translation rotation scale : vec3) : mat4 :=
  let View := glm.translate identity translation in
  let View := glm.rotate View (z3 rotation) (mkvec3 0 0 1) in
  let Model := glm.scale identity scale in
  mulm View Model.

(** Modelled from the spec: [Node::update], which refreshes the cached
    matrix [transform_] from the three transform fields. *)
Definition Node_update (n : Node) : Node :=
  mkNode (translation_ n) (rotation_ n) (scale_ n) (crop_ n)
         (GlmToolkit_transform (translation_ n) (rotation_ n) (scale_ n)).

(** Modelled from the spec: [Node::copyTransform], the value copy of a
    transform state that a snapshot is. *)
Definition copyTransform (other : Node) : Node :=
  mkNode (translation_ other) (rotation_ other) (scale_ other) (crop_ other)
         (transform_ other).

(** [Handles::Type]. *)
Inductive Handles_Type :=
  RESIZE | RESIZE_H | RESIZE_V | ROTATE | SCALE | CROP | MENU.

Definition Handles_Type_eqb (a b : Handles_Type) : bool :=
  match a, b with
  | RESIZE, RESIZE | RESIZE_H, RESIZE_H | RESIZE_V, RESIZE_V
  | ROTATE, ROTATE | SCALE, SCALE | CROP, CROP | MENU, MENU => true
  | _, _ => false
  end.

(** A [Handles] node: its identity in the scene, [visible_], and the
    corner set by [overlayActiveCorner]. *)
Record Handles := mkHandles {
  handle_node : NodeId;
  visible_ : bool;
  corner_ : vec2
}.

Inductive Source_Mode := VISIBLE | SELECTED | CURRENT.

Inductive View_Mode := RENDERING | MIXING | GEOMETRY.

Record Source := mkSource {
  id_ : nat;
  name_ : string;
  workspace_ : nat;
  locked_ : bool;
  active_ : bool;
  mode_ : Source_Mode;
  need_update_ : bool;
  (* groups_[View::GEOMETRY] and the snapshot taken when a drag begins *)
  group_ : Node;
  stored_status_ : Node;
  handles_ : Handles_Type -> Handles;
  (* lock icons of the source and the node that stands for it in a pick *)
  lock_ : NodeId;
  unlock_ : NodeId;
  locker_ : NodeId;
  (* the nodes attached under each of the three groups *)
  group_nodes_ : View_Mode -> list NodeId;
  (* frame(): aspect ratio and projection area of the render buffer *)
  aspectRatio : R;
  projectionArea_ : vec2
}.

Definition set_group (s : Source) (n : Node) : Source :=
  mkSource (id_ s) (name_ s) (workspace_ s) (locked_ s) (active_ s) (mode_ s)
    (need_update_ s) n (stored_status_ s) (handles_ s) (lock_ s) (unlock_ s)
    (locker_ s) (group_nodes_ s) (aspectRatio s) (projectionArea_ s).
Definition set_stored_status (s : Source) (n : Node) : Source :=
  mkSource (id_ s) (name_ s) (workspace_ s) (locked_ s) (active_ s) (mode_ s)
    (need_update_ s) (group_ s) n (handles_ s) (lock_ s) (unlock_ s)
    (locker_ s) (group_nodes_ s) (aspectRatio s) (projectionArea_ s).
Definition set_handles (s : Source) (h : Handles_Type -> Handles) : Source :=
  mkSource (id_ s) (name_ s) (workspace_ s) (locked_ s) (active_ s) (mode_ s)
    (need_update_ s) (group_ s) (stored_status_ s) h (lock_ s) (unlock_ s)
    (locker_ s) (group_nodes_ s) (aspectRatio s) (projectionArea_ s).
Definition setLocked (s : Source) (l : bool) : Source :=
  mkSource (id_ s) (name_ s) (workspace_ s) l (active_ s) (mode_ s)
    (need_update_ s) (group_ s) (stored_status_ s) (handles_ s) (lock_ s)
    (unlock_ s) (locker_ s) (group_nodes_ s) (aspectRatio s)
    (projectionArea_ s).
Definition setMode (s : Source) (m : Source_Mode) : Source :=
  mkSource (id_ s) (name_ s) (workspace_ s) (locked_ s) (active_ s) m
    (need_update_ s) (group_ s) (stored_status_ s) (handles_ s) (lock_ s)
    (unlock_ s) (locker_ s) (group_nodes_ s) (aspectRatio s)
    (projectionArea_ s).
(** [touch()]: request an update of the source. *)
Definition touch (s : Source) : Source :=
  mkSource (id_ s) (name_ s) (workspace_ s) (locked_ s) (active_ s) (mode_ s)
    true (group_ s) (stored_status_ s) (handles_ s) (lock_ s) (unlock_ s)
    (locker_ s) (group_nodes_ s) (aspectRatio s) (projectionArea_ s).
Definition setProjectionArea (s : Source) (a : vec2) : Source :=
  mkSource (id_ s) (name_ s) (workspace_ s) (locked_ s) (active_ s) (mode_ s)
    (need_update_ s) (group_ s) (stored_status_ s) (handles_ s) (lock_ s)
    (unlock_ s) (locker_ s) (group_nodes_ s) (aspectRatio s) a.

(** [s->handles_[mode_][h]->visible_ = false]. *)
Definition hide (h : Handles_Type) (s : Source) : Source :=
  set_handles s (fun k =>
    if Handles_Type_eqb k h
    then mkHandles (handle_node (handles_ s k)) false (corner_ (handles_ s k))
    else handles_ s k).

(** [s->handles_[mode_][h]->overlayActiveCorner(c)]. *)
Definition overlayActiveCorner (h : Handles_Type) (c : vec2) (s : Source)
  : Source :=
  set_handles s (fun k =>
    if Handles_Type_eqb k h
    then mkHandles (handle_node (handles_ s k)) (visible_ (handles_ s k)) c
    else handles_ s k).

(** [Source::hasNode]: the node is searched under the mixing group, then
    the geometry group, then the rendering group. *)
Definition hasNode (n : NodeId) (elem : option Source) : bool :=
  match elem with
  | Some e =>
      if existsb (Nat.eqb n) (group_nodes_ e MIXING) then true
      else if existsb (Nat.eqb n) (group_nodes_ e GEOMETRY) then true
      else existsb (Nat.eqb n) (group_nodes_ e RENDERING)
  | None => false
  end.

(** ** Cursor and status text *)

Inductive CursorType :=
  Cursor_Arrow | Cursor_Hand | Cursor_ResizeAll | Cursor_ResizeEW
| Cursor_ResizeNS | Cursor_ResizeNESW | Cursor_ResizeNWSE.

(** What is streamed into [info]; the formatting of the numbers is left
    to the consumer. *)
Inductive InfoItem :=
| Info_Size (x y : R)
| Info_Crop (x y : R)
| Info_Angle_degrees (d : Z)
| Info_Angle (a : R)
| Info_Position (x y : R).

Definition Info := list InfoItem.

Record Cursor := mkCursor { type : CursorType; info : Info }.

(** Modelled from the spec: the default [View::Cursor()], the "neutral
    cursor": plain arrow, no text. *)
Definition Cursor_default : Cursor := mkCursor Cursor_Arrow [].

(** ** The view, the mixer and the input state *)

Inductive ContextMenu := MENU_NONE | MENU_SOURCE.

Record GeometryView := mkGeometryView {
  scene_root_transform_ : mat4;
  show_context_menu_ : ContextMenu;
  current_action_ : string * Info;
  current_id_ : nat
}.

Definition openContextMenu (v : GeometryView) (m : ContextMenu)
  : GeometryView :=
  mkGeometryView (scene_root_transform_ v) m (current_action_ v)
                 (current_id_ v).

Definition set_action (v : GeometryView) (a : string * Info) (i : nat)
  : GeometryView :=
  mkGeometryView (scene_root_transform_ v) (show_context_menu_ v) a i.

(** [UserInterface::manager()]: the three modifier keys. *)
Record UserInterface := mkUserInterface {
  shiftModifier : bool;
  altModifier : bool;
  ctrlModifier : bool
}.

(** [Mixer::manager()] with [Mixer::selection()] and
    [Settings::application.current_workspace]. Sources are referred to
    by their id. *)
Record Mixer := mkMixer {
  session_ : list Source;
  current_ : option nat;
  selection_ : list nat;
  current_workspace : nat
}.

Definition currentSource (m : Mixer) : option Source :=
  match current_ m with
  | Some i => find (fun s => Nat.eqb (id_ s) i) (session_ m)
  | None => None
  end.

(** Write a source back into the session, at its id. *)
Definition store (m : Mixer) (s : Source) : Mixer :=
  mkMixer (map (fun e => if Nat.eqb (id_ e) (id_ s) then s else e)
               (session_ m))
          (current_ m) (selection_ m) (current_workspace m).

(** Modelled from the spec: [Mixer::findSource], the source a picked
    node belongs to. *)
Definition findSource (m : Mixer) (n : NodeId) : option Source :=
  find (fun s => hasNode n (Some s)) (session_ m).

Definition PickResult : Type := option NodeId * vec2.

Definition pick_empty : PickResult := (None, mkvec2 0 0).

(** ** GeometryView *)

Section GeometryView.

(** [Rendering::manager().unProject(P, modelview)], the camera service:
    a screen point expressed in the frame of [modelview]. *)
Variable unProject : vec2 -> mat4 -> vec3.

(** [View::canSelect] on a non-null source. *)
Variable View_canSelect : Source -> bool.

(** Modelled from the spec: [View::initiate], the beginning of a drag,
    "snapshot object.transform". *)
Definition initiate (s : Source) : Source :=
  set_stored_status s (copyTransform (group_ s)).

(** *** GeometryView::draw -- up to the drawing of the control overlays *)

Inductive DrawCall :=
| Draw_surfaces (sources : list nat)
| Draw_rendering
| Draw_frames_and_lockers (sources : list nat)
| Draw_controls (source : nat)
| Draw_foreground.

Definition canSelect (m : Mixer) (s : option Source) : bool :=
  match s with
  | Some s =>
      View_canSelect s && active_ s
      && Nat.eqb (workspace_ s) (current_workspace m)
  | None => false
  end.

Definition draw (m : Mixer) : Mixer * list DrawCall :=
  let s := currentSource m in
  (* hack to prevent source manipulation (scale and rotate) when multiple
     sources are selected: simply do not draw overlay in scene *)
  let '(m, s) :=
    match s with
    | Some s0 =>
        if Nat.ltb 1 (List.length (selection_ m))
        then (store m (setMode s0 SELECTED), None)
        else (m, Some s0)
    | None => (m, None)
    end in
  let in_workspace :=
    map id_ (filter (fun e => Nat.eqb (workspace_ e) (current_workspace m))
                    (session_ m)) in
  let '(m, controls) :=
    match s with
    | Some s0 =>
        if canSelect m s
        then (store m (setMode s0 CURRENT), [Draw_controls (id_ s0)])
        else (m, [])
    | None => (m, [])
    end in
  (m, [Draw_surfaces in_workspace; Draw_rendering;
       Draw_frames_and_lockers in_workspace]
      ++ controls ++ [Draw_foreground]).

(** *** GeometryView::pick

    [pv] is what the picking visitor found under the pointer, in the
    order it stored the hits; the source walks it from [rbegin]. *)

Fixpoint pick_other (ui : UserInterface) (m : Mixer)
    (hits : list (NodeId * vec2)) : PickResult * Mixer :=
  match hits with
  | [] => (pick_empty, m)
  | itp :: rest =>
      match findSource m (fst itp) with
      | Some s =>
          if Nat.eqb (workspace_ s) (current_workspace m) then
            if Nat.eqb (fst itp) (lock_ s) then
              ((Some (locker_ s), snd itp), store m (setLocked s false))
            else if negb (locked_ s) || (locked_ s && ctrlModifier ui) then
              ((Some (locker_ s), snd itp), m)
            else pick_other ui m rest
          else pick_other ui m rest
      | None => pick_other ui m rest
      end
  end.

Definition pick (ui : UserInterface) (v : GeometryView) (m : Mixer)
    (pv : list (NodeId * vec2)) : PickResult * GeometryView * Mixer :=
  match pv with
  | [] => (pick_empty, v, m)
  | _ :: _ =>
      (* keep current source active if it is clicked *)
      let '(pick, current, v, m) :=
        match currentSource m with
        | None => (pick_empty, None, v, m)
        | Some cur =>
            let current :=
              if negb (Nat.eqb (workspace_ cur) (current_workspace m))
              then None else Some cur in
            match find (fun itp => hasNode (fst itp) current) (rev pv),
                  current with
            | Some itp, Some c =>
                let pick := (Some (fst itp), snd itp) in
                if Nat.eqb (fst itp) (handle_node (handles_ c MENU)) then
                  (pick, current, openContextMenu v MENU_SOURCE, m)
                else if Nat.eqb (fst itp) (lock_ c) then
                  (pick, current, v, store m (setLocked c false))
                else if Nat.eqb (fst itp) (unlock_ c) then
                  (pick_empty, current, v, store m (setLocked c true))
                else if locked_ c && negb (ctrlModifier ui) then
                  (pick_empty, current, v, m)
                else (pick, current, v, m)
            | _, _ => (pick_empty, None, v, m)
            end
        end in
      (* the clicked source changed (not the current source) *)
      match current with
      | None => let '(pick, m) := pick_other ui m (rev pv) in (pick, v, m)
      | Some _ => (pick, v, m)
      end
  end.

(** *** GeometryView::grab, handle by handle

    Every rule receives the source with its [stored_status_] updated,
    and what [grab] computed before looking at the pick. *)

(** "hide all other grips": each rule hides the six handles that are
    not its own. *)
Definition hide_all_but (keep : Handles_Type) (s : Source) : Source :=
  fold_left (fun s h => if Handles_Type_eqb h keep then s else hide h s)
            [RESIZE; RESIZE_H; RESIZE_V; SCALE; ROTATE; CROP; MENU] s.

(** The end of the three resize rules: the source center goes through
    the scaling in the corner frame and back to the scene. *)
Definition recenter (s : Source) (corner_to_scene_transform : mat4)
    (corner_scaling : vec3) (center : vec4) : Source :=
  let center := mulv (glm.scale identity corner_scaling) center in
  let center := mulv corner_to_scene_transform center in
  set_group s (set_translation (group_ s) (vec3_of center)).

Definition info_size (s : Source) : InfoItem :=
  Info_Size (x3 (scale_ (group_ s))) (y3 (scale_ (group_ s))).

Definition grab_RESIZE (ui : UserInterface) (s : Source) (corner : vec2)
    (corner_to_scene_transform : mat4) (corner_from corner_to : vec4)
    (corner_scaling : vec3) (center : vec4) : Source * CursorType * Info :=
  let stored := stored_status_ s in
  let s := hide_all_but RESIZE s in
  let s := overlayActiveCorner RESIZE (neg2 corner) s in
  let '(scale, corner_scaling) :=
    if shiftModifier ui then
      let factor :=
        length2 (vec2_of corner_to) / length2 (vec2_of corner_from) in
      let scale := mul3 (scale_ stored) (mkvec3 factor factor 1) in
      let scale :=
        if altModifier ui then
          let scale := set_x scale (ROUND (x3 scale) 10) in
          let factor := x3 scale / x3 (scale_ stored) in
          set_y scale (y3 (scale_ stored) * factor)
        else scale in
      (scale, div3 scale (scale_ stored))
    else
      let scale := mul3 (scale_ stored) corner_scaling in
      if altModifier ui then
        let scale := set_x scale (ROUND (x3 scale) 10) in
        let scale := set_y scale (ROUND (y3 scale) 10) in
        (scale, div3 scale (scale_ stored))
      else (scale, corner_scaling) in
  let s := set_group s (set_scale (group_ s) scale) in
  let s := recenter s corner_to_scene_transform corner_scaling center in
  let T := glm.rotate identity (z3 (rotation_ stored)) (mkvec3 0 0 1) in
  let T := glm.scale T (scale_ stored) in
  let corner := vec2_of (mulv T (mkvec4 (x2 corner) (y2 corner) 0 0)) in
  (s,
   if Rgtb (x2 corner * y2 corner) 0
   then Cursor_ResizeNESW else Cursor_ResizeNWSE,
   [info_size s]).

Definition grab_RESIZE_H (ui : UserInterface) (s : Source) (corner : vec2)
    (corner_to_scene_transform : mat4) (corner_scaling : vec3)
    (center : vec4) : Source * CursorType * Info :=
  let stored := stored_status_ s in
  let s := hide_all_but RESIZE_H s in
  let s := overlayActiveCorner RESIZE_H (neg2 corner) s in
  let '(scale, corner_scaling) :=
    if shiftModifier ui then
      (* restore the aspect ratio, from the node itself *)
      let scale :=
        set_x (scale_ (group_ s))
              (ABS (y3 (scale_ (group_ s))) * SIGN (x3 (scale_ (group_ s)))) in
      (scale, div3 scale (scale_ stored))
    else
      let corner_scaling := mkvec3 (x3 corner_scaling) 1 1 in
      let scale := mul3 (scale_ stored) corner_scaling in
      if altModifier ui then
        let scale := set_x scale (ROUND (x3 scale) 10) in
        (scale, div3 scale (scale_ stored))
      else (scale, corner_scaling) in
  let s := set_group s (set_scale (group_ s) scale) in
  let s := recenter s corner_to_scene_transform corner_scaling center in
  let c := tan (z3 (rotation_ (group_ s))) in
  (s, if Rgtb (ABS c) 1 then Cursor_ResizeNS else Cursor_ResizeEW,
   [info_size s]).

Definition grab_RESIZE_V (ui : UserInterface) (s : Source) (corner : vec2)
    (corner_to_scene_transform : mat4) (corner_scaling : vec3)
    (center : vec4) : Source * CursorType * Info :=
  let stored := stored_status_ s in
  let s := hide_all_but RESIZE_V s in
  let s := overlayActiveCorner RESIZE_V (neg2 corner) s in
  let '(scale, corner_scaling) :=
    if shiftModifier ui then
      let scale :=
        set_y (scale_ (group_ s))
              (ABS (x3 (scale_ (group_ s))) * SIGN (y3 (scale_ (group_ s)))) in
      (scale, div3 scale (scale_ stored))
    else
      let corner_scaling := mkvec3 1 (y3 corner_scaling) 1 in
      let scale := mul3 (scale_ stored) corner_scaling in
      if altModifier ui then
        let scale := set_y scale (ROUND (y3 scale) 10) in
        (scale, div3 scale (scale_ stored))
      else (scale, corner_scaling) in
  let s := set_group s (set_scale (group_ s) scale) in
  let s := recenter s corner_to_scene_transform corner_scaling center in
  let c := tan (z3 (rotation_ (group_ s))) in
  (s, if Rgtb (ABS c) 1 then Cursor_ResizeEW else Cursor_ResizeNS,
   [info_size s]).

(** The uniform factor of the proportional rules. *)
Definition proportional (source_from source_to : vec4) : vec3 :=
  let factor :=
    length2 (vec2_of source_to) / length2 (vec2_of source_from) in
  mkvec3 factor factor 1.

Definition grab_SCALE (ui : UserInterface) (s : Source)
    (source_from source_to : vec4) (source_scaling : vec3)
  : Source * CursorType * Info :=
  let stored := stored_status_ s in
  let s := hide_all_but SCALE s in
  let source_scaling :=
    if shiftModifier ui then proportional source_from source_to
    else source_scaling in
  let scale := mul3 (scale_ stored) source_scaling in
  let scale :=
    if altModifier ui then
      set_y (set_x scale (ROUND (x3 scale) 10)) (ROUND (y3 scale) 10)
    else scale in
  let s := set_group s (set_scale (group_ s) scale) in
  let corner := vec2_of3 (sign3 (scale_ (group_ s))) in
  (s,
   if Rgtb (x2 corner * y2 corner) 0
   then Cursor_ResizeNWSE else Cursor_ResizeNESW,
   [info_size s]).

(** The crop computed by the CROP rule before it is clamped. *)
Definition crop_unclamped (ui : UserInterface) (stored : Node)
    (source_from source_to : vec4) (source_scaling : vec3) : vec3 :=
  let source_scaling :=
    if shiftModifier ui then proportional source_from source_to
    else source_scaling in
  let crop := mul3 (crop_ stored) source_scaling in
  if altModifier ui then
    set_y (set_x crop (ROUND (x3 crop) 10)) (ROUND (y3 crop) 10)
  else crop.

Definition grab_CROP (ui : UserInterface) (s : Source)
    (source_from source_to : vec4) (source_scaling : vec3)
  : Source * CursorType * Info :=
  let stored := stored_status_ s in
  let s := hide_all_but CROP s in
  let crop := crop_unclamped ui stored source_from source_to source_scaling in
  (* CLAMP crop values *)
  let crop := set_x crop (CLAMP (x3 crop) (/ 10) 1) in
  let crop := set_y crop (CLAMP (y3 crop) (/ 10) 1) in
  let s := set_group s (set_crop (group_ s) crop) in
  (* apply center scaling *)
  let s := setProjectionArea s (vec2_of3 (crop_ (group_ s))) in
  let s :=
    set_group s
      (set_scale (group_ s)
         (mul3 (scale_ stored) (div3 (crop_ (group_ s)) (crop_ stored)))) in
  let corner := vec2_of3 (sign3 (scale_ (group_ s))) in
  (s,
   if Rltb' (x2 corner * y2 corner) 0
   then Cursor_ResizeNWSE else Cursor_ResizeNESW,
   [Info_Crop (x3 (crop_ (group_ s))) (y3 (crop_ (group_ s)))]).

Definition grab_ROTATE (ui : UserInterface) (s : Source)
    (scene_from scene_to : vec3) : Source * CursorType * Info :=
  let stored := stored_status_ s in
  let s := hide_all_but ROTATE s in
  (* rotation center to center of source (disregarding scale) *)
  let T := glm.translate identity (translation_ stored) in
  let source_from := mulv (inverse T) (vec4_of scene_from 1) in
  let source_to := mulv (inverse T) (vec4_of scene_to 1) in
  let angle :=
    orientedAngle (normalize2 (vec2_of source_from))
                  (normalize2 (vec2_of source_to)) in
  let rotation := add3 (rotation_ stored) (mkvec3 0 0 angle) in
  let degrees := int_of (glm.degrees (z3 rotation)) in
  let '(rotation, inf) :=
    if altModifier ui then
      let degrees := (Z.quot degrees 10 * 10)%Z in
      (set_z rotation (glm.radians (IZR degrees)),
       [Info_Angle_degrees degrees])
    else (rotation, [Info_Angle (glm.degrees (z3 rotation))]) in
  let s := set_group s (set_rotation (group_ s) rotation) in
  (* + SHIFT = no scaling / NORMAL = with scaling *)
  if negb (shiftModifier ui) then
    let source_scaling := proportional source_from source_to in
    let s :=
      set_group s
        (set_scale (group_ s) (mul3 (scale_ stored) source_scaling)) in
    (s, Cursor_Hand, inf ++ [info_size s])
  else (s, Cursor_Hand, inf).

(** Picking anywhere but on a handle: the source is moved. *)
Definition grab_move (ui : UserInterface) (s : Source)
    (scene_translation : vec3) : Source * CursorType * Info :=
  let stored := stored_status_ s in
  let translation := add3 (translation_ stored) scene_translation in
  let translation :=
    if altModifier ui then
      set_y (set_x translation (ROUND (x3 translation) 10))
            (ROUND (y3 translation) 10)
    else translation in
  let '(translation, ty) :=
    if shiftModifier ui then
      let dif := sub3 (translation_ stored) translation in
      if Rgtb (ABS (x3 dif)) (ABS (y3 dif))
      then (set_y translation (y3 (translation_ stored)), Cursor_ResizeEW)
      else (set_x translation (x3 (translation_ stored)), Cursor_ResizeNS)
    else (translation, Cursor_ResizeAll) in
  let s := set_group s (set_translation (group_ s) translation) in
  (s, ty,
   [Info_Position (x3 (translation_ (group_ s)))
                  (y3 (translation_ (group_ s)))]).

(** The transform from the scene to the frame of the picked corner. *)
Definition scene_to_corner (stored : Node) (aspect : R) (corner : vec2)
  : mat4 :=
  let T :=
    GlmToolkit_transform (mkvec3 (x2 corner) (y2 corner) 0) (mkvec3 0 0 0)
                         (mkvec3 (1 / aspect) 1 1) in
  mulm T (inverse (transform_ stored)).

Definition is_handle (s : Source) (n : NodeId) (h : Handles_Type) : bool :=
  Nat.eqb n (handle_node (handles_ s h)).

(** The block of [grab] that runs when the pick holds a node [n], with
    what [grab] computed before it. *)
Definition grab_pick (ui : UserInterface) (s : Source) (n : NodeId)
    (coordinates : vec2) (scene_from scene_to scene_translation : vec3)
    (source_from source_to : vec4) (source_scaling : vec3)
  : Source * CursorType * Info :=
  let stored := stored_status_ s in
  (* which corner was picked ? *)
  let corner := round2 coordinates in
  (* transformation from scene to corner, and back *)
  let scene_to_corner_transform :=
    scene_to_corner stored (aspectRatio s) corner in
  let corner_to_scene_transform := inverse scene_to_corner_transform in
  (* compute cursor movement in corner reference frame *)
  let corner_from := mulv scene_to_corner_transform (vec4_of scene_from 1) in
  let corner_to := mulv scene_to_corner_transform (vec4_of scene_to 1) in
  (* operation of scaling in corner reference frame *)
  let corner_scaling := div3 (vec3_of corner_to) (vec3_of corner_from) in
  (* convert source position in corner reference frame *)
  let center :=
    mulv scene_to_corner_transform (vec4_of (translation_ stored) 1) in
  if is_handle s n RESIZE then
    grab_RESIZE ui s corner corner_to_scene_transform corner_from corner_to
                corner_scaling center
  else if is_handle s n RESIZE_H then
    grab_RESIZE_H ui s corner corner_to_scene_transform corner_scaling center
  else if is_handle s n RESIZE_V then
    grab_RESIZE_V ui s corner corner_to_scene_transform corner_scaling center
  else if is_handle s n SCALE then
    grab_SCALE ui s source_from source_to source_scaling
  else if is_handle s n CROP then
    grab_CROP ui s source_from source_to source_scaling
  else if is_handle s n ROTATE then
    grab_ROTATE ui s scene_from scene_to
  else grab_move ui s scene_translation.

Definition grab (ui : UserInterface) (v : GeometryView) (s : option Source)
    (from to : vec2) (pick : PickResult)
  : GeometryView * option Source * Cursor :=
  match s with
  | None => (v, None, Cursor_default)
  | Some s =>
      (* grab coordinates in scene-View reference frame *)
      let scene_from := unProject from (scene_root_transform_ v) in
      let scene_to := unProject to (scene_root_transform_ v) in
      let scene_translation := sub3 scene_to scene_from in
      (* make sure matrix transform of stored status is updated *)
      let s := set_stored_status s (Node_update (stored_status_ s)) in
      let stored := stored_status_ s in
      (* grab coordinates in source-root reference frame *)
      let source_from :=
        mulv (inverse (transform_ stored)) (vec4_of scene_from 1) in
      let source_to :=
        mulv (inverse (transform_ stored)) (vec4_of scene_to 1) in
      let source_scaling :=
        div3 (vec3_of source_to) (vec3_of source_from) in
      (* which manipulation to perform? *)
      let '(s, ty, inf) :=
        match fst pick with
        | Some n =>
            grab_pick ui s n (snd pick) scene_from scene_to scene_translation
                      source_from source_to source_scaling
        | None => (s, Cursor_Arrow, [])
        end in
      (* request update *)
      let s := touch s in
      (* store action in history *)
      let v := set_action v (name_ s, inf) (id_ s) in
      (v, Some s, mkCursor ty inf)
  end.

(** [GeometryView::terminate]: every handle of every source is shown
    again, with a neutral corner. *)
Definition terminate (m : Mixer) : Mixer :=
  mkMixer
    (map (fun s =>
            set_handles s (fun k =>
              mkHandles (handle_node (handles_ s k)) true
                (match k with
                 | RESIZE | RESIZE_H | RESIZE_V => mkvec2 0 0
                 | _ => corner_ (handles_ s k)
                 end)))
         (session_ m))
    (current_ m) (selection_ m) (current_workspace m).

End GeometryView.

(** ** Vocabulary of the properties *)

(** A call of [grab] during a drag: the pointer position and the
    modifier keys sampled at that call. *)
Definition Update : Type := vec2 * UserInterface.

(** One [grab] on the dragged source; the press point [from] and the
    [pick] stay what they were when the drag began. *)
Definition update_call (unProject : vec2 -> mat4 -> vec3) (from : vec2)
    (pick : PickResult) (st : GeometryView * Source) (u : Update)
  : GeometryView * Source :=
  match grab unProject (snd u) (fst st) (Some (snd st)) from (fst u) pick with
  | (v, Some s, _) => (v, s)
  | (v, None, _) => (v, snd st)
  end.

Definition updates (unProject : vec2 -> mat4 -> vec3) (from : vec2)
    (pick : PickResult) (st : GeometryView * Source) (us : list Update)
  : GeometryView * Source :=
  fold_left (update_call unProject from pick) us st.

(** The coordinates [grab] gives a screen point [P]: in the scene, in
    the frame of the snapshot, and in the frame of a corner. *)
Definition scene_point (unProject : vec2 -> mat4 -> vec3) (v : GeometryView)
    (P : vec2) : vec3 :=
  unProject P (scene_root_transform_ v).

Definition source_point (unProject : vec2 -> mat4 -> vec3) (v : GeometryView)
    (s : Source) (P : vec2) : vec4 :=
  mulv (inverse (transform_ (Node_update (stored_status_ s))))
       (vec4_of (scene_point unProject v P) 1).

Definition corner_point (unProject : vec2 -> mat4 -> vec3) (v : GeometryView)
    (s : Source) (corner P : vec2) : vec4 :=
  mulv (scene_to_corner (Node_update (stored_status_ s)) (aspectRatio s) corner)
       (vec4_of (scene_point unProject v P) 1).

(** The crop a CROP drag from [from] to [to] computes, before clamping. *)
Definition raw_crop (unProject : vec2 -> mat4 -> vec3) (ui : UserInterface)
    (v : GeometryView) (s : Source) (from to : vec2) : vec3 :=
  crop_unclamped ui (Node_update (stored_status_ s))
    (source_point unProject v s from) (source_point unProject v s to)
    (div3 (vec3_of (source_point unProject v s to))
          (vec3_of (source_point unProject v s from))).

(** The transform of a node: translation, rotation, scale, crop. *)
Definition transform_of (n : Node) : vec3 * vec3 * vec3 * vec3 :=
  (translation_ n, rotation_ n, scale_ n, crop_ n).

(** The rule [grab] selects for a picked node: the first handle of the
    cascade the node is, or none for a move. *)
Definition picked_handle (s : Source) (n : NodeId) : option Handles_Type :=
  if is_handle s n RESIZE then Some RESIZE
  else if is_handle s n RESIZE_H then Some RESIZE_H
  else if is_handle s n RESIZE_V then Some RESIZE_V
  else if is_handle s n SCALE then Some SCALE
  else if is_handle s n CROP then Some CROP
  else if is_handle s n ROTATE then Some ROTATE
  else None.

(** The rules whose proportional variant computes from the node as the
    previous call left it, or leaves a field of it as it was. *)
Definition proportional_uses_node (k : option Handles_Type) : bool :=
  match k with
  | Some RESIZE_H | Some RESIZE_V | Some ROTATE => true
  | _ => false
  end.

(** When a second call of a rule does not see what the first one left:
    the rule never looks at the node, or the second call is made without
    the proportional modifier, or both calls are made with it. *)
Definition independent_calls (k : option Handles_Type)
    (ui1 ui2 : UserInterface) : Prop :=
  proportional_uses_node k = false
  \/ shiftModifier ui2 = false \/ shiftModifier ui1 = true.

(** The children of a source group are scaled by the aspect ratio of
    its frame: in the frame of the group the corner [c] (components in
    -1, 0, 1) of the source is the point below, and [corner_position]
    is where the scene has it. *)
Definition corner_local (aspect : R) (c : vec2) : vec4 :=
  mkvec4 (x2 c * aspect) (y2 c) 0 1.

Definition corner_position (n : Node) (aspect : R) (c : vec2) : vec4 :=
  mulv (GlmToolkit_transform (translation_ n) (rotation_ n) (scale_ n))
       (corner_local aspect c).

(** A transform that [glm::inverse] can invert. *)
Definition nondegenerate (n : Node) : Prop :=
  x3 (scale_ n) <> 0 /\ y3 (scale_ n) <> 0 /\ z3 (scale_ n) <> 0.

(** During a corner drag: the node has the rotation of the snapshot and
    the corner opposite to the picked one where the snapshot has it. *)
Definition anchored (s : Source) (corner : vec2) : Prop :=
  rotation_ (group_ s) = rotation_ (stored_status_ s)
  /\ corner_position (group_ s) (aspectRatio s) (neg2 corner)
     = corner_position (stored_status_ s) (aspectRatio s) (neg2 corner).

(** ** Inputs of the examples *)

(** A camera that looks straight at the scene: screen and scene
    coordinates coincide. *)
Definition unProject_flat (p : vec2) (modelview : mat4) : vec3 :=
  mkvec3 (x2 p) (y2 p) 0.

Definition unit_node : Node :=
  mkNode (mkvec3 0 0 0) (mkvec3 0 0 0) (mkvec3 1 1 1) (mkvec3 1 1 1) identity.

Definition ex_handles (h : Handles_Type) : Handles :=
  mkHandles
    (match h with
     | RESIZE => 1 | RESIZE_H => 2 | RESIZE_V => 3 | ROTATE => 4
     | SCALE => 5 | CROP => 6 | MENU => 7
     end)%nat
    true (mkvec2 0 0).

(** A source of the first workspace, unlocked, with a square frame; node
    20 is its surface. *)
Definition ex_source : Source :=
  mkSource 1 "a" 0 false true VISIBLE false unit_node unit_node ex_handles
    10%nat 11%nat 12%nat
    (fun m => match m with
              | GEOMETRY => [1; 2; 3; 4; 5; 6; 7; 10; 11; 12; 20]%nat
              | _ => [20%nat]
              end)
    1 (mkvec2 1 1).

Definition ex_handles_b (h : Handles_Type) : Handles :=
  mkHandles
    (match h with
     | RESIZE => 31 | RESIZE_H => 32 | RESIZE_V => 33 | ROTATE => 34
     | SCALE => 35 | CROP => 36 | MENU => 37
     end)%nat
    true (mkvec2 0 0).

(** A second source of the same workspace; node 50 is its surface. *)
Definition ex_source_b : Source :=
  mkSource 2 "b" 0 false true VISIBLE false unit_node unit_node ex_handles_b
    40%nat 41%nat 42%nat
    (fun m => match m with
              | GEOMETRY => [31; 32; 33; 34; 35; 36; 37; 40; 41; 42; 50]%nat
              | _ => [50%nat]
              end)
    1 (mkvec2 1 1).

(** The first source with the scale (2, 1, 1), node and snapshot. *)
Definition wide_node : Node :=
  mkNode (mkvec3 0 0 0) (mkvec3 0 0 0) (mkvec3 2 1 1) (mkvec3 1 1 1) identity.

Definition ex_source_wide : Source :=
  set_group (set_stored_status ex_source wide_node) wide_node.

(** The first source is current and alone in the selection. *)
Definition ex_mixer : Mixer :=
  mkMixer [ex_source; ex_source_b] (Some 1%nat) [1%nat] 0.

(** Both sources are selected. *)
Definition ex_mixer_multi : Mixer :=
  mkMixer [ex_source; ex_source_b] (Some 1%nat) [1%nat; 2%nat] 0.

(** The current source is locked. *)
Definition ex_mixer_locked : Mixer :=
  mkMixer [setLocked ex_source true; ex_source_b] (Some 1%nat) [1%nat] 0.

Definition ex_view : GeometryView :=
  mkGeometryView identity MENU_NONE (""%string, []) 0.

Definition no_modifier : UserInterface := mkUserInterface false false false.
Definition shift_only : UserInterface := mkUserInterface true false false.
Definition shift_alt : UserInterface := mkUserInterface true true false.

(** ** GeometryView::arrow, GeometryView::resize and the context menu *)

(** A [vec3] times a scalar. *)
Definition smul3 (a : vec3) (k : R) : vec3 :=
  mkvec3 (x3 a * k) (y3 a * k) (z3 a * k).

(** [glm::clamp] on [vec3], component by component. *)
Definition clamp3 (x minVal maxVal : vec3) : vec3 :=
  mkvec3 (glm.clamp (x3 x) (x3 minVal) (x3 maxVal))
         (glm.clamp (y3 x) (y3 minVal) (y3 maxVal))
         (glm.clamp (z3 x) (z3 minVal) (z3 maxVal)).

Section Arrow.

Variable unProject : vec2 -> mat4 -> vec3.

(** The constant [ARROWS_MOVEMENT_FACTOR] of defines.h. *)
Variable ARROWS_MOVEMENT_FACTOR : R.

(** [GeometryView::arrow]: the current source is moved by the arrow
    keys. *)
Definition arrow (ui : UserInterface) (v : GeometryView) (m : Mixer)
    (movement : vec2) : Mixer :=
  match currentSource m with
  | Some s =>
      let gl_Position_from :=
        unProject (mkvec2 0 0) (scene_root_transform_ v) in
      let gl_Position_to := unProject movement (scene_root_transform_ v) in
      let gl_delta := sub3 gl_Position_to gl_Position_from in
      let sourceNode := group_ s in
      let translation :=
        if altModifier ui then
          let t :=
            add3 (translation_ sourceNode)
                 (smul3 (mkvec3 (x2 movement) (- y2 movement) 0) (/ 10)) in
          set_y (set_x t (ROUND (x3 t) 10)) (ROUND (y3 t) 10)
        else
          add3 (translation_ sourceNode)
               (smul3 gl_delta ARROWS_MOVEMENT_FACTOR) in
      (* request update *)
      store m (touch (set_group s (set_translation sourceNode translation)))
  | None => m
  end.

End Arrow.

Section ViewResize.

(** The constants [GEOMETRY_MIN_SCALE] and [GEOMETRY_MAX_SCALE] of
    defines.h. *)
Variable GEOMETRY_MIN_SCALE : R.
Variable GEOMETRY_MAX_SCALE : R.

(** [GeometryView::resize], on the root node of the scene: the zoom of
    the view, from a percentage. *)
Definition resize (root : Node) (scale : Z) : Node :=
  let z := CLAMP (/ 100 * IZR scale) 0 1 in
  let z := z * z in
  let z := z * (GEOMETRY_MAX_SCALE - GEOMETRY_MIN_SCALE) in
  let z := z + GEOMETRY_MIN_SCALE in
  let root := set_scale root (set_y (set_x (scale_ root) z) z) in
  (* Clamp translation to acceptable area *)
  let border :=
    mkvec3 (x3 (scale_ root) * (15 / 10)) (y3 (scale_ root) * (15 / 10)) 0 in
  set_translation root
    (clamp3 (translation_ root)
            (mkvec3 (- x3 border) (- y3 border) (- z3 border)) border).

End ViewResize.

(** What the user clicks in the context menu of a source: the result of
    each [ImGui::Selectable]. *)
Record ContextMenuClicks := mkContextMenuClicks {
  Selectable_Reset : bool;
  Selectable_Fit : bool;
  Selectable_Center : bool;
  Selectable_Original_aspect_ratio : bool
}.

(** The four entries of the context menu, on the node of the source.
    [output] is the aspect ratio of the session frame, when there is
    one. *)
Definition menu_Reset (n : Node) : Node :=
  let n := set_scale n (mkvec3 1 1 1) in
  let n := set_rotation n (set_z (rotation_ n) 0) in
  let n := set_crop n (mkvec3 1 1 1) in
  set_translation n (mkvec3 0 0 0).

Definition menu_Fit (output : option R) (frame_aspect : R) (n : Node)
  : Node :=
  let scale := mkvec3 1 1 1 in
  let scale :=
    match output with
    | Some output_aspect => set_x scale (output_aspect / frame_aspect)
    | None => scale
    end in
  let n := set_scale n scale in
  let n := set_rotation n (set_z (rotation_ n) 0) in
  set_translation n (mkvec3 0 0 0).

Definition menu_Center (n : Node) : Node :=
  set_translation n (mkvec3 0 0 0).

Definition menu_Original_aspect_ratio (n : Node) : Node :=
  let n := set_scale n (set_x (scale_ n) (y3 (scale_ n))) in
  set_scale n
    (set_x (scale_ n) (x3 (scale_ n) * (x3 (crop_ n) / y3 (crop_ n)))).

(** The end of [GeometryView::draw]: the popup is opened when it was
    asked for, and an entry clicked in it acts on the current source.
    [BeginPopup] tells whether the popup is shown in this frame; the
    first component of the result tells whether it was opened. *)
Definition draw_context_menu (output : option R) (BeginPopup : bool)
    (clicks : ContextMenuClicks) (v : GeometryView) (m : Mixer)
  : bool * GeometryView * Mixer :=
  let '(opened, v) :=
    match show_context_menu_ v with
    | MENU_SOURCE => (true, openContextMenu v MENU_NONE)
    | MENU_NONE => (false, v)
    end in
  let m :=
    if BeginPopup then
      match currentSource m with
      | Some s =>
          if Selectable_Reset clicks then
            store m (touch (set_group s (menu_Reset (group_ s))))
          else if Selectable_Fit clicks then
            store m (touch (set_group s
                              (menu_Fit output (aspectRatio s) (group_ s))))
          else if Selectable_Center clicks then
            store m (touch (set_group s (menu_Center (group_ s))))
          else if Selectable_Original_aspect_ratio clicks then
            store m (touch (set_group s
                              (menu_Original_aspect_ratio (group_ s))))
          else m
      | None => m
      end
    else m in
  (opened, v, m).

(** ** RenderingWindow and Rendering *)

(** [RenderingWindow::draw], without blit: the scale that fits the
    frame buffer inside the window. *)
Definition window_surface_scale (windowAspectRatio renderingAspectRatio : R)
  : vec3 :=
  if Rltb' windowAspectRatio renderingAspectRatio
  then mkvec3 1 (windowAspectRatio / renderingAspectRatio) 1
  else mkvec3 (renderingAspectRatio / windowAspectRatio) 1 1.

Section Attributes.

(** [RenderingAttrib]: a viewport and a clear color. *)
Variable RenderingAttrib : Type.

(** The pile of attributes of [Rendering], the attributes of its main
    window, and the attributes OpenGL was last given. *)
Record AttribState := mkAttribState {
  main_attribs : RenderingAttrib;
  draw_attributes_ : list RenderingAttrib;
  gl_attributes : RenderingAttrib
}.

Definition currentAttrib (st : AttribState) : RenderingAttrib :=
  match draw_attributes_ st with
  | ra :: _ => ra
  | [] => main_attribs st
  end.

Definition pushAttrib (ra : RenderingAttrib) (st : AttribState)
  : AttribState :=
  mkAttribState (main_attribs st) (ra :: draw_attributes_ st) ra.

Definition popAttrib (st : AttribState) : AttribState :=
  let st :=
    match draw_attributes_ st with
    | _ :: rest => mkAttribState (main_attribs st) rest (gl_attributes st)
    | [] => st
    end in
  mkAttribState (main_attribs st) (draw_attributes_ st) (currentAttrib st).

End Attributes.

(** [glm::ortho], [glm::project] and [glm::unProject] (depth from -1 to
    1). *)
Definition glm_ortho (left right bottom top zNear zFar : R) : mat4 :=
  mkmat4 (mkvec4 (2 / (right - left)) 0 0 0)
         (mkvec4 0 (2 / (top - bottom)) 0 0)
         (mkvec4 0 0 (- (2) / (zFar - zNear)) 0)
         (mkvec4 (- (right + left) / (right - left))
                 (- (top + bottom) / (top - bottom))
                 (- (zFar + zNear) / (zFar - zNear)) 1).

Definition div4 (a : vec4) (k : R) : vec4 :=
  mkvec4 (x4 a / k) (y4 a / k) (z4 a / k) (w4 a / k).

Definition glm_project (obj : vec3) (model proj : mat4) (viewport : vec4)
  : vec3 :=
  let tmp := vec4_of obj 1 in
  let tmp := mulv model tmp in
  let tmp := mulv proj tmp in
  let tmp := div4 tmp (w4 tmp) in
  let tmp :=
    mkvec4 (x4 tmp * / 2 + / 2) (y4 tmp * / 2 + / 2) (z4 tmp * / 2 + / 2)
           (w4 tmp * / 2 + / 2) in
  mkvec3 (x4 tmp * z4 viewport + x4 viewport)
         (y4 tmp * w4 viewport + y4 viewport) (z4 tmp).

Definition glm_unProject (win : vec3) (model proj : mat4) (viewport : vec4)
  : vec3 :=
  let Inverse := inverse (mulm proj model) in
  let tmp := vec4_of win 1 in
  let tmp :=
    mkvec4 ((x4 tmp - x4 viewport) / z4 viewport)
           ((y4 tmp - y4 viewport) / w4 viewport) (z4 tmp) (w4 tmp) in
  let tmp :=
    mkvec4 (x4 tmp * 2 - 1) (y4 tmp * 2 - 1) (z4 tmp * 2 - 1)
           (w4 tmp * 2 - 1) in
  let obj := mulv Inverse tmp in
  let obj := div4 obj (w4 obj) in
  vec3_of obj.

(** The main window, as far as projections go: the size of its frame
    buffer and its dpi scale. *)
Record RenderingWindow := mkRenderingWindow {
  viewport_x : Z;
  viewport_y : Z;
  dpi_scale_ : R
}.

Definition width (w : RenderingWindow) : Z := viewport_x w.
Definition height (w : RenderingWindow) : Z := viewport_y w.
Definition RenderingWindow_aspectRatio (w : RenderingWindow) : R :=
  IZR (viewport_x w) / IZR (viewport_y w).

Section Projection.

(** The constants [SCENE_UNIT] and [SCENE_DEPTH] of defines.h. *)
Variable SCENE_UNIT : R.
Variable SCENE_DEPTH : R.

Definition Projection (main_ : RenderingWindow) : mat4 :=
  let projection :=
    glm_ortho (- SCENE_UNIT) SCENE_UNIT (- SCENE_UNIT) SCENE_UNIT
              (- SCENE_DEPTH) 1 in
  let scale :=
    glm.scale identity (mkvec3 1 (RenderingWindow_aspectRatio main_) 1) in
  mulm projection scale.

(** [Rendering::unProject]. *)
Definition Rendering_unProject (main_ : RenderingWindow)
    (screen_coordinate : vec2) (modelview : mat4) : vec3 :=
  let coordinates :=
    mkvec3 (x2 screen_coordinate)
           (IZR (height main_) - y2 screen_coordinate) 0 in
  let viewport := mkvec4 0 0 (IZR (width main_)) (IZR (height main_)) in
  glm_unProject coordinates modelview (Projection main_) viewport.

(** [Rendering::project]. *)
Definition Rendering_project (main_ : RenderingWindow)
    (scene_coordinate : vec3) (modelview : mat4) (to_framebuffer : bool)
  : vec2 :=
  let viewport :=
    if to_framebuffer
    then mkvec4 0 0 (IZR (width main_)) (IZR (height main_))
    else mkvec4 0 0 (IZR (width main_) / dpi_scale_ main_)
                (IZR (height main_) / dpi_scale_ main_) in
  let P := glm_project scene_coordinate modelview (Projection main_)
                       viewport in
  mkvec2 (x3 P) (w4 viewport - y3 P).

End Projection.

(** A matrix whose last row is (0, 0, 0, 1). *)
Definition affine (m : mat4) : Prop :=
  w4 (c0 m) = 0 /\ w4 (c1 m) = 0 /\ w4 (c2 m) = 0 /\ w4 (c3 m) = 1.

(** ** Device: the list of capture devices *)

Section Device.

(** [DeviceConfigSet], and the probing of a pipeline for its
    configurations by GStreamer. *)
Variable DeviceConfigSet : Type.
Variable DeviceConfigSet_empty : DeviceConfigSet.
Variable getDeviceConfigs : string -> DeviceConfigSet.

Record Device := mkDevice {
  src_name_ : list string;
  src_description_ : list string;
  src_config_ : list DeviceConfigSet;
  list_uptodate_ : bool
}.

(** The loop of [Device::remove]: three iterators advance together and
    the first entry named [device] is erased from the three vectors.
    An iterator moved or erased past the end of its vector has no
    defined behaviour: [None]. *)
Fixpoint erase_first (device : string) (names descs : list string)
    (confs : list DeviceConfigSet)
  : option (list string * list string * list DeviceConfigSet) :=
  match names with
  | [] => Some ([], descs, confs)
  | n :: ns =>
      match descs, confs with
      | d :: ds, c :: cs =>
          if String.eqb n device then Some (ns, ds, cs)
          else
            match erase_first device ns ds cs with
            | Some (ns', ds', cs') => Some (n :: ns', d :: ds', c :: cs')
            | None => None
            end
      | _, _ => None
      end
  end.

Definition Device_remove (dv : Device) (device : string) : option Device :=
  match erase_first device (src_name_ dv) (src_description_ dv)
                    (src_config_ dv) with
  | Some (ns, ds, cs) => Some (mkDevice ns ds cs (list_uptodate_ dv))
  | None => None
  end.

(** The messages of the device monitor. *)
Inductive DeviceMessage :=
| DEVICE_ADDED (name api path : string)
| DEVICE_REMOVED (name : string)
| DEVICE_OTHER.

(** The configuration set kept for the screen: the last configuration
    of [confs] with 15 frames per second, alone. Reading the last
    element of an empty set has no defined behaviour: [None]. *)
Variable confscreen : DeviceConfigSet -> option DeviceConfigSet.

(** [Device::Device]: the list is filled with the devices the monitor
    knows, each given by its display name, its api and its path, then
    with the screen. *)
Definition Device_Device (devices : list (string * string * string))
  : option Device :=
  let dv :=
    fold_left
      (fun dv device =>
         let '(name, api, path) := device in
         let pipe := (api ++ "src name=devsrc device=" ++ path)%string in
         mkDevice (src_name_ dv ++ [name]) (src_description_ dv ++ [pipe])
                  (src_config_ dv ++ [getDeviceConfigs pipe])
                  (list_uptodate_ dv))
      devices (mkDevice [] [] [] false) in
  (* Add config for plugged screen *)
  match confscreen (getDeviceConfigs "ximagesrc name=devsrc") with
  | Some confs =>
      Some (mkDevice (src_name_ dv ++ ["Screen"%string])
                     (src_description_ dv ++ ["ximagesrc "%string])
                     (src_config_ dv ++ [confs]) true)
  | None => None
  end.

(** [Device::callback_device_monitor]. *)
Definition callback_device_monitor (dv : Device) (message : DeviceMessage)
  : option Device :=
  match message with
  | DEVICE_ADDED name api path =>
      let pipe := (api ++ "src name=devsrc device=" ++ path)%string in
      Some (mkDevice (src_name_ dv ++ [name])
                     (src_description_ dv ++ [pipe])
                     (src_config_ dv ++ [getDeviceConfigs pipe])
                     false)
  | DEVICE_REMOVED name =>
      match Device_remove dv name with
      | Some dv' =>
          Some (mkDevice (src_name_ dv') (src_description_ dv')
                         (src_config_ dv') false)
      | None => None
      end
  | DEVICE_OTHER => Some dv
  end.

Definition numDevices (dv : Device) : Z :=
  Z.of_nat (List.length (src_name_ dv)).

Definition Device_exists (dv : Device) (device : string) : bool :=
  existsb (fun n => String.eqb n device) (src_name_ dv).

Definition unplugged (dv : Device) (device : string) : bool :=
  if list_uptodate_ dv then false else negb (Device_exists dv device).

(** An index is valid when [index > -1 && index < size]. *)
Definition at_index {A : Type} (l : list A) (index : Z) (default : A) : A :=
  if Z.ltb (-1) index && Z.ltb index (Z.of_nat (List.length l))
  then nth (Z.to_nat index) l default
  else default.

Definition Device_name (dv : Device) (index : Z) : string :=
  at_index (src_name_ dv) index ""%string.

Definition Device_description (dv : Device) (index : Z) : string :=
  at_index (src_description_ dv) index ""%string.

Definition Device_config (dv : Device) (index : Z) : DeviceConfigSet :=
  at_index (src_config_ dv) index DeviceConfigSet_empty.

(** [std::find] then [std::distance]: the position of the first entry
    equal to [device], from 0; -1 when there is none. *)
Fixpoint find_distance (device : string) (names : list string) (from : Z)
  : Z :=
  match names with
  | [] => -1
  | n :: ns =>
      if String.eqb n device then from
      else find_distance device ns (from + 1)
  end.

Definition Device_index (dv : Device) (device : string) : Z :=
  find_distance device (src_name_ dv) 0.

(** [DeviceSource::failed]. *)
Definition DeviceSource_failed (stream_failed : bool) (dv : Device)
    (device_ : string) : bool :=
  stream_failed || unplugged dv device_.

(** The three vectors describe the same devices. *)
Definition aligned (dv : Device) : Prop :=
  List.length (src_description_ dv) = List.length (src_name_ dv)
  /\ List.length (src_config_ dv) = List.length (src_name_ dv).

(** The monitor handles a list of messages, one after the other. *)
Fixpoint device_messages (dv : Device) (l : list DeviceMessage)
  : option Device :=
  match l with
  | [] => Some dv
  | message :: rest =>
      match callback_device_monitor dv message with
      | Some dv' => device_messages dv' rest
      | None => None
      end
  end.

End Device.

Arguments mkDevice {DeviceConfigSet}.
Arguments src_name_ {DeviceConfigSet}.
Arguments src_description_ {DeviceConfigSet}.
Arguments src_config_ {DeviceConfigSet}.
Arguments list_uptodate_ {DeviceConfigSet}.
Arguments erase_first {DeviceConfigSet}.
Arguments Device_remove {DeviceConfigSet}.
Arguments callback_device_monitor {DeviceConfigSet}.
Arguments Device_Device {DeviceConfigSet}.
Arguments numDevices {DeviceConfigSet}.
Arguments Device_exists {DeviceConfigSet}.
Arguments unplugged {DeviceConfigSet}.
Arguments Device_name {DeviceConfigSet}.
Arguments Device_description {DeviceConfigSet}.
Arguments Device_config {DeviceConfigSet}.
Arguments Device_index {DeviceConfigSet}.
Arguments DeviceSource_failed {DeviceConfigSet}.
Arguments aligned {DeviceConfigSet}.
Arguments device_messages {DeviceConfigSet}.

Arguments mkAttribState {RenderingAttrib}.
Arguments main_attribs {RenderingAttrib}.
Arguments draw_attributes_ {RenderingAttrib}.
Arguments gl_attributes {RenderingAttrib}.
Arguments currentAttrib {RenderingAttrib}.
Arguments pushAttrib {RenderingAttrib}.
Arguments popAttrib {RenderingAttrib}.

(** The sources of a session are told apart by their id. *)
Definition unique_ids (m : Mixer) : Prop := NoDup (map id_ (session_ m)).

(** The position of the first entry equal to [device], if any. *)
Fixpoint first_position (device : string) (names : list string)
  : option nat :=
  match names with
  | [] => None
  | n :: ns =>
      if String.eqb n device then Some O
      else option_map S (first_position device ns)
  end.

(** Normalised device coordinates of a window point, and back. *)
Definition to_ndc (win : vec3) (viewport : vec4) : vec4 :=
  mkvec4 ((x3 win - x4 viewport) / z4 viewport * 2 - 1)
         ((y3 win - y4 viewport) / w4 viewport * 2 - 1)
         (z3 win * 2 - 1) (1 * 2 - 1).

Definition of_ndc (ndc : vec4) (viewport : vec4) : vec3 :=
  mkvec3 ((x4 ndc * / 2 + / 2) * z4 viewport + x4 viewport)
         ((y4 ndc * / 2 + / 2) * w4 viewport + y4 viewport)
         (z4 ndc * / 2 + / 2).

(** OpenGL has the attributes that [currentAttrib] tells. *)
Definition in_sync {RenderingAttrib : Type}
    (st : AttribState RenderingAttrib) : Prop :=
  gl_attributes st = currentAttrib st.

(** Attributes pushed one after the other, and [n] calls of
    [popAttrib]. *)
Definition push_all {RenderingAttrib : Type} (ras : list RenderingAttrib)
    (st : AttribState RenderingAttrib) : AttribState RenderingAttrib :=
  fold_left (fun st ra => pushAttrib ra st) ras st.

Definition pop_times {RenderingAttrib : Type} (n : nat)
    (st : AttribState RenderingAttrib) : AttribState RenderingAttrib :=
  Nat.iter n popAttrib st.

(** What a pick leaves as it was: everything but the locks and the
    request for the context menu. *)
Definition same_but_locks (m' m : Mixer) : Prop :=
  map (fun e => setLocked e false) (session_ m')
  = map (fun e => setLocked e false) (session_ m)
  /\ current_ m' = current_ m
  /\ selection_ m' = selection_ m
  /\ current_workspace m' = current_workspace m.

(** The three handles that show the active corner. *)
Definition shows_corner (h : Handles_Type) : bool :=
  match h with
  | RESIZE | RESIZE_H | RESIZE_V => true
  | _ => false
  end.

(** ** RenderingWindow: monitors and fullscreen *)

(** What GLFW tells of a monitor: its name, its work area and the size
    of its video mode. *)
Record Monitor := mkMonitor {
  monitor_name : string;
  workarea_x : Z;
  workarea_y : Z;
  workarea_width : Z;
  workarea_height : Z;
  mode_width : Z;
  mode_height : Z
}.

(** A window: the toggle request, its entry in
    [Settings::application.windows], and what GLFW holds for it (the
    monitor it is fullscreen on, its position, its size and the mode of
    its cursor). *)
Record WindowState := mkWindowState {
  window_ : bool;
  request_toggle_fullscreen_ : bool;
  settings_fullscreen : bool;
  settings_monitor : string;
  settings_x : Z;
  settings_y : Z;
  settings_w : Z;
  settings_h : Z;
  glfw_monitor : option Monitor;
  glfw_x : Z;
  glfw_y : Z;
  glfw_w : Z;
  glfw_h : Z;
  glfw_cursor_hidden : bool
}.

Definition isFullscreen (st : WindowState) : bool := settings_fullscreen st.

Section Monitors.

(** [glfwGetPrimaryMonitor] and [glfwGetMonitors]. *)
Variable primary : Monitor.
Variable monitors : list Monitor.

(** Where GLFW puts a window that is made fullscreen on a monitor. *)
Variable fullscreen_position : Monitor -> Z * Z.

Definition in_workarea (x y : Z) (mo : Monitor) : bool :=
  Z.leb (workarea_x mo) x && Z.leb x (workarea_x mo + workarea_width mo)
  && Z.leb (workarea_y mo) y && Z.leb y (workarea_y mo + workarea_height mo).

Definition monitorAt (x y : Z) : Monitor :=
  (* default to primary monitor *)
  if Nat.ltb 1 (List.length monitors) then
    match find (in_workarea x y) monitors with
    | Some mo => mo
    | None => primary
    end
  else primary.

Definition monitorNamed (name : string) : Monitor :=
  if Nat.ltb 1 (List.length monitors) then
    match find (fun mo => String.eqb (monitor_name mo) name) monitors with
    | Some mo => mo
    | None => primary
    end
  else primary.

Definition monitor (st : WindowState) : Monitor :=
  let '(x, y) := if window_ st then (glfw_x st, glfw_y st) else (1, 1)%Z in
  monitorAt x y.

Definition setFullscreen_ (mo : option Monitor) (st : WindowState)
  : WindowState :=
  if negb (window_ st) then st
  else
    match mo with
    | None =>
        (* disable fullscreen mode: set to window mode *)
        mkWindowState (window_ st) false false (settings_monitor st)
          (settings_x st) (settings_y st) (settings_w st) (settings_h st)
          None (settings_x st) (settings_y st) (settings_w st)
          (settings_h st) false
    | Some mo =>
        (* set fullscreen mode *)
        mkWindowState (window_ st) false true (monitor_name mo)
          (settings_x st) (settings_y st) (settings_w st) (settings_h st)
          (Some mo) (fst (fullscreen_position mo))
          (snd (fullscreen_position mo)) (mode_width mo) (mode_height mo)
          true
    end.

(** [RenderingWindow::show]. *)
Definition RenderingWindow_show (st : WindowState) : WindowState :=
  if settings_fullscreen st then
    setFullscreen_ (Some (monitorNamed (settings_monitor st))) st
  else st.

(** [request_toggle_fullscreen_ = true]. *)
Definition request_toggle (st : WindowState) : WindowState :=
  mkWindowState (window_ st) true (settings_fullscreen st)
    (settings_monitor st) (settings_x st) (settings_y st) (settings_w st)
    (settings_h st) (glfw_monitor st) (glfw_x st) (glfw_y st) (glfw_w st)
    (glfw_h st) (glfw_cursor_hidden st).

Definition exitFullscreen (st : WindowState) : WindowState :=
  if isFullscreen st then request_toggle st else st.

Definition toggleFullscreen (st : WindowState) : WindowState :=
  request_toggle st.

(** [toggleFullscreen_]; GLFW cannot be asked for the monitor of a
    window that does not exist: [None]. *)
Definition toggleFullscreen_ (st : WindowState) : option WindowState :=
  if request_toggle_fullscreen_ st then
    if window_ st then
      match glfw_monitor st with
      | Some _ => Some (setFullscreen_ None st)
      | None => Some (setFullscreen_ (Some (monitor st)) st)
      end
    else None
  else Some st.

(** GLFW resizes or moves the window and calls [WindowResizeCallback]
    or [WindowMoveCallback]. *)
Inductive WindowEvent :=
| WindowResize (width height : Z)
| WindowMove (x y : Z).

Definition window_callback (st : WindowState) (e : WindowEvent)
  : WindowState :=
  match e with
  | WindowResize width height =>
      if negb (settings_fullscreen st) then
        mkWindowState (window_ st) (request_toggle_fullscreen_ st)
          (settings_fullscreen st) (settings_monitor st) (settings_x st)
          (settings_y st) width height (glfw_monitor st) (glfw_x st)
          (glfw_y st) width height (glfw_cursor_hidden st)
      else
        mkWindowState (window_ st) (request_toggle_fullscreen_ st)
          (settings_fullscreen st) (settings_monitor st) (settings_x st)
          (settings_y st) (settings_w st) (settings_h st) (glfw_monitor st)
          (glfw_x st) (glfw_y st) width height (glfw_cursor_hidden st)
  | WindowMove x y =>
      if negb (settings_fullscreen st) then
        mkWindowState (window_ st) (request_toggle_fullscreen_ st)
          (settings_fullscreen st) (settings_monitor st) x y (settings_w st)
          (settings_h st) (glfw_monitor st) x y (glfw_w st) (glfw_h st)
          (glfw_cursor_hidden st)
      else
        mkWindowState (window_ st) (request_toggle_fullscreen_ st)
          (settings_fullscreen st) (settings_monitor st) (settings_x st)
          (settings_y st) (settings_w st) (settings_h st) (glfw_monitor st)
          x y (glfw_w st) (glfw_h st) (glfw_cursor_hidden st)
  end.

End Monitors.

(** The geometry of the window in the settings and for GLFW. *)
Definition settings_geometry (st : WindowState) : Z * Z * Z * Z :=
  (settings_x st, settings_y st, settings_w st, settings_h st).

Definition glfw_geometry (st : WindowState) : Z * Z * Z * Z :=
  (glfw_x st, glfw_y st, glfw_w st, glfw_h st).

(** The settings and GLFW agree on whether the window is fullscreen. *)
Definition fullscreen_agrees (st : WindowState) : Prop :=
  settings_fullscreen st
  = match glfw_monitor st with Some _ => true | None => false end.

(** ** More examples *)

(** Two devices; a configuration is told by the name of its format. *)
Definition ex_device : Device (list string) :=
  mkDevice ["Webcam"; "Screen"]%string
           ["v4l2src name=devsrc device=/dev/video0"; "ximagesrc "]%string
           [["YUY2"]; ["RGB"]]%string true.

(** A main window of 1280 x 720 pixels. *)
Definition ex_window : RenderingWindow := mkRenderingWindow 1280 720 1.

(** A view whose scene root has the transform of [unit_node]. *)
Definition ex_view_unit : GeometryView :=
  mkGeometryView (transform_ (Node_update unit_node)) MENU_NONE
                 (""%string, []) 0.

(** A click on each entry of the context menu. *)
Definition click_Reset : ContextMenuClicks :=
  mkContextMenuClicks true false false false.
Definition click_Fit : ContextMenuClicks :=
  mkContextMenuClicks false true false false.
Definition click_Original_aspect_ratio : ContextMenuClicks :=
  mkContextMenuClicks false false false true.

(** One monitor of 1920 x 1080 and a window of 800 x 600 at (100, 50)
    on it. *)
Definition ex_monitor : Monitor :=
  mkMonitor "HDMI-1" 0 0 1920 1080 1920 1080.

Definition ex_window_state : WindowState :=
  mkWindowState true false false ""%string 100 50 800 600 None 100 50 800 600
                false.

(** ** Matrix algebra of glm *)

Ltac glm_unfold :=
  cbv beta iota zeta delta
    [det inverse mulv mulm add4 sub4 mul4 smul4 x4 y4 z4 w4 c0 c1 c2 c3
     glm.translate glm.scale glm.rotate identity vec4_of vec3_of
     x3 y3 z3 x2 y2].

Ltac destruct_mat m :=
  let a00 := fresh "a00" in let a01 := fresh "a01" in
  let a02 := fresh "a02" in let a03 := fresh "a03" in
  let a10 := fresh "a10" in let a11 := fresh "a11" in
  let a12 := fresh "a12" in let a13 := fresh "a13" in
  let a20 := fresh "a20" in let a21 := fresh "a21" in
  let a22 := fresh "a22" in let a23 := fresh "a23" in
  let a30 := fresh "a30" in let a31 := fresh "a31" in
  let a32 := fresh "a32" in let a33 := fresh "a33" in
  destruct m as [[a00 a01 a02 a03] [a10 a11 a12 a13]
                 [a20 a21 a22 a23] [a30 a31 a32 a33]].

Lemma vec4_ext (a b : vec4) :
  x4 a = x4 b -> y4 a = y4 b -> z4 a = z4 b -> w4 a = w4 b -> a = b.
Proof. destruct a, b; cbn; intros; subst; reflexivity. Qed.

Lemma mat4_ext (a b : mat4) :
  c0 a = c0 b -> c1 a = c1 b -> c2 a = c2 b -> c3 a = c3 b -> a = b.
Proof. destruct a, b; cbn; intros; subst; reflexivity. Qed.

Lemma inverse_mulv_l (m : mat4) (v : vec4) :
  det m <> 0 -> mulv (inverse m) (mulv m v) = v.
Proof.
  destruct_mat m; destruct v as [vx vy vz vw].
  intro Hd. apply vec4_ext; revert Hd; glm_unfold; intro Hd;
  field; intro Hz; apply Hd; rewrite <- Hz; ring.
Qed.

Lemma mulm_mulv (a b : mat4) (v : vec4) :
  mulv (mulm a b) v = mulv a (mulv b v).
Proof.
  destruct_mat a; destruct_mat b; destruct v as [vx vy vz vw].
  apply vec4_ext; glm_unfold; ring.
Qed.

Lemma det_mulm (a b : mat4) : det (mulm a b) = det a * det b.
Proof. destruct_mat a; destruct_mat b. glm_unfold. ring. Qed.

Lemma det_inverse (m : mat4) : det m <> 0 -> det (inverse m) * det m = 1.
Proof.
  destruct_mat m. glm_unfold. intro Hd.
  field. intro Hz; apply Hd; rewrite <- Hz; ring.
Qed.

Lemma det_inverse_neq (m : mat4) : det m <> 0 -> det (inverse m) <> 0.
Proof.
  intros Hd Hz. pose proof (det_inverse m Hd) as H.
  rewrite Hz in H. lra.
Qed.

Lemma normalize3_z : normalize3 (mkvec3 0 0 1) = mkvec3 0 0 1.
Proof.
  unfold normalize3, length3; cbn [x3 y3 z3].
  replace (0 * 0 + 0 * 0 + 1 * 1) with 1 by ring.
  rewrite sqrt_1. f_equal; field.
Qed.

(** The matrix of a transform state, column by column. *)
Lemma GlmToolkit_transform_eq (t r s : vec3) :
  GlmToolkit_transform t r s =
  mkmat4 (mkvec4 (cos (z3 r) * x3 s) (sin (z3 r) * x3 s) 0 0)
         (mkvec4 (- sin (z3 r) * y3 s) (cos (z3 r) * y3 s) 0 0)
         (mkvec4 0 0 (z3 s) 0)
         (mkvec4 (x3 t) (y3 t) (z3 t) 1).
Proof.
  unfold GlmToolkit_transform, glm.rotate. rewrite normalize3_z.
  destruct t, r, s.
  apply mat4_ext; apply vec4_ext; glm_unfold; ring.
Qed.

Lemma transform_mulv (t r s : vec3) (q : vec4) :
  mulv (GlmToolkit_transform t r s) q =
  mkvec4 (cos (z3 r) * x3 s * x4 q - sin (z3 r) * y3 s * y4 q + x3 t * w4 q)
         (sin (z3 r) * x3 s * x4 q + cos (z3 r) * y3 s * y4 q + y3 t * w4 q)
         (z3 s * z4 q + z3 t * w4 q)
         (w4 q).
Proof.
  rewrite GlmToolkit_transform_eq. destruct q.
  apply vec4_ext; glm_unfold; ring.
Qed.

Lemma det_transform (t r s : vec3) :
  det (GlmToolkit_transform t r s) = x3 s * y3 s * z3 s.
Proof.
  rewrite GlmToolkit_transform_eq.
  pose proof (sin2_cos2 (z3 r)) as H. unfold Rsqr in H.
  destruct s as [sx sy sz], t as [tx ty tz]; cbn [x3 y3 z3].
  replace (sx * sy * sz)
    with ((sin (z3 r) * sin (z3 r) + cos (z3 r) * cos (z3 r))
          * (sx * sy * sz)) by (rewrite H; ring).
  generalize (cos (z3 r)) (sin (z3 r)); intros c s.
  glm_unfold. ring.
Qed.

Lemma det_transform_neq (t r s : vec3) :
  x3 s <> 0 -> y3 s <> 0 -> z3 s <> 0 -> det (GlmToolkit_transform t r s) <> 0.
Proof.
  intros Hx Hy Hz. rewrite det_transform.
  repeat apply Rmult_integral_contrapositive_currified; assumption.
Qed.

(** ** The corner frame *)

Lemma Node_update_transform (n : Node) :
  transform_ (Node_update n)
  = GlmToolkit_transform (translation_ n) (rotation_ n) (scale_ n).
Proof. reflexivity. Qed.

Lemma Node_update_idem (n : Node) :
  Node_update (Node_update n) = Node_update n.
Proof. reflexivity. Qed.

(** Where the corner frame has a point given in the frame of the source. *)
Lemma scene_to_corner_mulv (n : Node) (a : R) (c : vec2) (q : vec4) :
  nondegenerate n ->
  mulv (scene_to_corner (Node_update n) a c)
       (mulv (GlmToolkit_transform (translation_ n) (rotation_ n) (scale_ n)) q)
  = mkvec4 (x4 q * (1 / a) + x2 c * w4 q) (y4 q + y2 c * w4 q) (z4 q) (w4 q).
Proof.
  intros (Hx & Hy & Hz). unfold scene_to_corner.
  rewrite Node_update_transform, mulm_mulv, inverse_mulv_l
    by (apply det_transform_neq; assumption).
  rewrite transform_mulv. cbn [x3 y3 z3]. rewrite cos_0, sin_0.
  destruct q; apply vec4_ext; cbn [x4 y4 z4 w4]; ring.
Qed.

Lemma det_scene_to_corner (n : Node) (a : R) (c : vec2) :
  nondegenerate n -> a <> 0 -> det (scene_to_corner (Node_update n) a c) <> 0.
Proof.
  intros (Hx & Hy & Hz) Ha. unfold scene_to_corner.
  rewrite det_mulm, Node_update_transform.
  apply Rmult_integral_contrapositive_currified.
  - apply det_transform_neq; cbn [x3 y3 z3]; try lra.
    unfold Rdiv. rewrite Rmult_1_l. apply Rinv_neq_0_compat; exact Ha.
  - apply det_inverse_neq, det_transform_neq; assumption.
Qed.

(** The source center sits at [corner] in the corner frame. *)
Lemma center_in_corner_frame (n : Node) (a : R) (c : vec2) :
  nondegenerate n ->
  mulv (scene_to_corner (Node_update n) a c) (vec4_of (translation_ n) 1)
  = mkvec4 (x2 c) (y2 c) 0 1.
Proof.
  intro Hn.
  replace (vec4_of (translation_ n) 1)
    with (mulv (GlmToolkit_transform (translation_ n) (rotation_ n) (scale_ n))
               (mkvec4 0 0 0 1)).
  - rewrite scene_to_corner_mulv by exact Hn.
    apply vec4_ext; cbn [x4 y4 z4 w4]; ring.
  - rewrite transform_mulv. unfold vec4_of.
    apply vec4_ext; cbn [x4 y4 z4 w4]; ring.
Qed.

(** Scaling about the origin of the corner frame and moving the center
    along leaves the opposite corner of the source where it was. *)
Lemma recenter_anchor (n : Node) (a : R) (c : vec2) (cs sc' : vec3) :
  nondegenerate n -> a <> 0 ->
  x3 sc' = x3 (scale_ n) * x3 cs ->
  y3 sc' = y3 (scale_ n) * y3 cs ->
  let C := scene_to_corner (Node_update n) a c in
  let center := mulv C (vec4_of (translation_ n) 1) in
  let t' := vec3_of (mulv (inverse C) (mulv (glm.scale identity cs) center)) in
  mulv (GlmToolkit_transform t' (rotation_ n) sc') (corner_local a (neg2 c))
  = corner_position n a (neg2 c).
Proof.
  intros Hn Ha Hsx Hsy C center t'.
  set (M := GlmToolkit_transform (translation_ n) (rotation_ n) (scale_ n)).
  set (q := mkvec4 (a * x2 c * (x3 cs - 1)) (y2 c * (y3 cs - 1)) 0 1).
  assert (Ht : t' = vec3_of (mulv M q)).
  { subst t' center C. rewrite center_in_corner_frame by exact Hn.
    replace (mulv (glm.scale identity cs) (mkvec4 (x2 c) (y2 c) 0 1))
      with (mulv (scene_to_corner (Node_update n) a c) (mulv M q)).
    - rewrite inverse_mulv_l by (apply det_scene_to_corner; assumption).
      reflexivity.
    - unfold M. rewrite scene_to_corner_mulv by exact Hn.
      destruct cs as [csx csy csz], c as [cx cy]. subst q.
      apply vec4_ext; glm_unfold; try ring.
      field; exact Ha. }
  rewrite Ht. unfold corner_position, M.
  rewrite !transform_mulv.
  subst q.
  unfold corner_local, neg2, vec3_of; cbn [x4 y4 z4 w4 x3 y3 z3 x2 y2].
  rewrite Hsx, Hsy.
  apply vec4_ext; cbn [x4 y4 z4 w4]; ring.
Qed.

Section Properties.

Variable unProject : vec2 -> mat4 -> vec3.

(** ** How [grab] reaches a rule *)

(** A [grab] with a picked node is the rule of that node on the source
    with its snapshot matrix refreshed, then [touch]. *)
Lemma update_call_pick (from to : vec2) (n : NodeId) (p : vec2)
    (v : GeometryView) (s : Source) (ui : UserInterface) :
  snd (update_call unProject from (Some n, p) (v, s) (to, ui))
  = touch (fst (fst
      (grab_pick ui (set_stored_status s (Node_update (stored_status_ s)))
         n p (scene_point unProject v from) (scene_point unProject v to)
         (sub3 (scene_point unProject v to) (scene_point unProject v from))
         (source_point unProject v s from) (source_point unProject v s to)
         (div3 (vec3_of (source_point unProject v s to))
               (vec3_of (source_point unProject v s from)))))).
Proof.
  unfold update_call, grab, source_point, scene_point. cbn [fst snd].
  change (stored_status_ (set_stored_status s (Node_update (stored_status_ s))))
    with (Node_update (stored_status_ s)).
  match goal with |- context [grab_pick ?a ?b ?c ?d ?e ?f ?g ?h ?i ?j] =>
    destruct (grab_pick a b c d e f g h i j) as [[s' ty] inf] end.
  reflexivity.
Qed.

Lemma update_call_view (from : vec2) (pick : PickResult)
    (st : GeometryView * Source) (u : Update) :
  scene_root_transform_ (fst (update_call unProject from pick st u))
  = scene_root_transform_ (fst st).
Proof.
  destruct st as [v s], u as [to ui]. unfold update_call, grab.
  cbn [fst snd].
  destruct (fst pick).
  - match goal with |- context [grab_pick ?a ?b ?c ?d ?e ?f ?g ?h ?i ?j] =>
      destruct (grab_pick a b c d e f g h i j) as [[s' ty] inf] end.
    reflexivity.
  - reflexivity.
Qed.


(** The rule is chosen by [picked_handle]. *)
Ltac by_cascade :=
  unfold picked_handle, grab_pick;
  repeat match goal with
         | |- context [is_handle ?s ?n ?h] => destruct (is_handle s n h)
         end;
  intros; try discriminate; reflexivity.

Lemma grab_pick_RESIZE ui s n p sf st str sof sot sos :
  picked_handle s n = Some RESIZE ->
  grab_pick ui s n p sf st str sof sot sos
  = let C := scene_to_corner (stored_status_ s) (aspectRatio s) (round2 p) in
    grab_RESIZE ui s (round2 p) (inverse C) (mulv C (vec4_of sf 1))
      (mulv C (vec4_of st 1))
      (div3 (vec3_of (mulv C (vec4_of st 1))) (vec3_of (mulv C (vec4_of sf 1))))
      (mulv C (vec4_of (translation_ (stored_status_ s)) 1)).
Proof. by_cascade. Qed.

Lemma grab_pick_RESIZE_H ui s n p sf st str sof sot sos :
  picked_handle s n = Some RESIZE_H ->
  grab_pick ui s n p sf st str sof sot sos
  = let C := scene_to_corner (stored_status_ s) (aspectRatio s) (round2 p) in
    grab_RESIZE_H ui s (round2 p) (inverse C)
      (div3 (vec3_of (mulv C (vec4_of st 1))) (vec3_of (mulv C (vec4_of sf 1))))
      (mulv C (vec4_of (translation_ (stored_status_ s)) 1)).
Proof. by_cascade. Qed.

Lemma grab_pick_RESIZE_V ui s n p sf st str sof sot sos :
  picked_handle s n = Some RESIZE_V ->
  grab_pick ui s n p sf st str sof sot sos
  = let C := scene_to_corner (stored_status_ s) (aspectRatio s) (round2 p) in
    grab_RESIZE_V ui s (round2 p) (inverse C)
      (div3 (vec3_of (mulv C (vec4_of st 1))) (vec3_of (mulv C (vec4_of sf 1))))
      (mulv C (vec4_of (translation_ (stored_status_ s)) 1)).
Proof. by_cascade. Qed.

Lemma grab_pick_SCALE ui s n p sf st str sof sot sos :
  picked_handle s n = Some SCALE ->
  grab_pick ui s n p sf st str sof sot sos = grab_SCALE ui s sof sot sos.
Proof. by_cascade. Qed.

Lemma grab_pick_CROP ui s n p sf st str sof sot sos :
  picked_handle s n = Some CROP ->
  grab_pick ui s n p sf st str sof sot sos = grab_CROP ui s sof sot sos.
Proof. by_cascade. Qed.

Lemma grab_pick_ROTATE ui s n p sf st str sof sot sos :
  picked_handle s n = Some ROTATE ->
  grab_pick ui s n p sf st str sof sot sos = grab_ROTATE ui s sf st.
Proof. by_cascade. Qed.

Lemma grab_pick_move ui s n p sf st str sof sot sos :
  picked_handle s n = None ->
  grab_pick ui s n p sf st str sof sot sos = grab_move ui s str.
Proof. by_cascade. Qed.

Lemma picked_handle_cases s n :
  picked_handle s n = Some RESIZE \/ picked_handle s n = Some RESIZE_H
  \/ picked_handle s n = Some RESIZE_V \/ picked_handle s n = Some SCALE
  \/ picked_handle s n = Some CROP \/ picked_handle s n = Some ROTATE
  \/ picked_handle s n = None.
Proof.
  unfold picked_handle;
  repeat match goal with
         | |- context [is_handle ?s ?n ?h] => destruct (is_handle s n h)
         end; tauto.
Qed.

(** No rule touches the snapshot, the frame or the identity of the
    handles. *)
Lemma grab_pick_frame ui s n p sf st str sof sot sos :
  let r := fst (fst (grab_pick ui s n p sf st str sof sot sos)) in
  stored_status_ r = stored_status_ s
  /\ aspectRatio r = aspectRatio s
  /\ forall h, handle_node (handles_ r h) = handle_node (handles_ s h).
Proof.
  destruct ui as [sh al ct].
  unfold grab_pick;
  repeat match goal with
         | |- context [is_handle ?s ?n ?h] => destruct (is_handle s n h)
         end;
  destruct sh, al; cbv zeta;
  unfold grab_move;
  repeat match goal with
         | |- context [Rgtb ?a ?b] => destruct (Rgtb a b)
         end;
  (split; [reflexivity|]; split; [reflexivity|];
   intro h; destruct h; reflexivity).
Qed.

Lemma picked_handle_ext s s' n :
  (forall h, handle_node (handles_ s' h) = handle_node (handles_ s h)) ->
  picked_handle s' n = picked_handle s n.
Proof.
  intro H. unfold picked_handle, is_handle. rewrite !H. reflexivity.
Qed.

End Properties.

Lemma CLAMP_bounds (x low high : R) :
  low <= high -> low <= CLAMP x low high <= high.
Proof.
  intro H. unfold CLAMP, Rmin, Rmax.
  destruct (Rle_dec x low); destruct (Rle_dec _ high); lra.
Qed.

Lemma CLAMP_below (x low high : R) :
  x <= low -> low <= high -> CLAMP x low high = low.
Proof.
  intros H1 H2. unfold CLAMP, Rmin, Rmax.
  destruct (Rle_dec x low); destruct (Rle_dec _ high); lra.
Qed.

Lemma CLAMP_inside (x low high : R) :
  low <= x <= high -> CLAMP x low high = x.
Proof.
  intros H. unfold CLAMP, Rmin, Rmax.
  destruct (Rle_dec x low); destruct (Rle_dec _ high); lra.
Qed.

Lemma vec3_ext (a b : vec3) :
  x3 a = x3 b -> y3 a = y3 b -> z3 a = z3 b -> a = b.
Proof. destruct a, b; cbn; intros; subst; reflexivity. Qed.

Lemma group_touch (s : Source) : group_ (touch s) = group_ s.
Proof. reflexivity. Qed.

Lemma stored_status_touch (s : Source) :
  stored_status_ (touch s) = stored_status_ s.
Proof. reflexivity. Qed.

Lemma stored_status_refreshed (s : Source) (n : Node) :
  stored_status_ (set_stored_status s n) = n.
Proof. reflexivity. Qed.

Section Rules.

Variable unProject : vec2 -> mat4 -> vec3.

(** ** The CROP rule *)

Lemma grab_CROP_node ui s sof sot sos :
  let r := fst (fst (grab_CROP ui s sof sot sos)) in
  let raw := crop_unclamped ui (stored_status_ s) sof sot sos in
  crop_ (group_ r)
  = mkvec3 (CLAMP (x3 raw) (/ 10) 1) (CLAMP (y3 raw) (/ 10) 1) (z3 raw)
  /\ scale_ (group_ r)
     = mul3 (scale_ (stored_status_ s))
            (div3 (crop_ (group_ r)) (crop_ (stored_status_ s)))
  /\ translation_ (group_ r) = translation_ (group_ s)
  /\ rotation_ (group_ r) = rotation_ (group_ s).
Proof. repeat split; reflexivity. Qed.

(** C3 -- crop bound: after every update of a CROP drag, whatever the
    pointer and the modifiers, both crop components of the node lie in
    [0.1, 1]. *)
Theorem crop_stays_within_bounds (from to : vec2) (n : NodeId) (p : vec2)
    (v : GeometryView) (s : Source) (ui : UserInterface) :
  picked_handle s n = Some CROP ->
  let s' := snd (update_call unProject from (Some n, p) (v, s) (to, ui)) in
  / 10 <= x3 (crop_ (group_ s')) <= 1 /\ / 10 <= y3 (crop_ (group_ s')) <= 1.
Proof.
  intros Hk s'. subst s'. rewrite update_call_pick.
  rewrite grab_pick_CROP by exact Hk.
  rewrite !group_touch.
  match goal with |- context [grab_CROP ?a ?b ?c ?d ?e] =>
    destruct (grab_CROP_node a b c d e) as (Hc & _) end.
  rewrite Hc. cbn [x3 y3].
  split; apply CLAMP_bounds; lra.
Qed.

(** C4 -- crop and scale are coupled: after every update of a CROP drag
    the scale of the node is the snapshot scale times new crop over
    snapshot crop, component by component; from a snapshot crop (1, 1),
    a computed crop (0.05, 0.3) is clamped to (0.1, 0.3) and the scale
    is the snapshot scale times (0.1, 0.3). *)
Theorem crop_scale_coupling (from to : vec2) (n : NodeId) (p : vec2)
    (v : GeometryView) (s : Source) (ui : UserInterface) :
  picked_handle s n = Some CROP ->
  let s' := snd (update_call unProject from (Some n, p) (v, s) (to, ui)) in
  let stored := stored_status_ s in
  scale_ (group_ s')
  = mul3 (scale_ stored) (div3 (crop_ (group_ s')) (crop_ stored))
  /\ (x3 (crop_ stored) = 1 -> y3 (crop_ stored) = 1 ->
      x3 (raw_crop unProject ui v s from to) = 5 / 100 ->
      y3 (raw_crop unProject ui v s from to) = 3 / 10 ->
      x3 (crop_ (group_ s')) = / 10 /\ y3 (crop_ (group_ s')) = 3 / 10
      /\ x3 (scale_ (group_ s')) = x3 (scale_ stored) * / 10
      /\ y3 (scale_ (group_ s')) = y3 (scale_ stored) * (3 / 10)).
Proof.
  intros Hk s' stored. subst s' stored. rewrite update_call_pick.
  rewrite grab_pick_CROP by exact Hk.
  rewrite !group_touch.
  match goal with |- context [grab_CROP ?a ?b ?c ?d ?e] =>
    destruct (grab_CROP_node a b c d e) as (Hc & Hs & _) end.
  split; [exact Hs|].
  intros Hx Hy Rx Ry. rewrite Hs, Hc.
  unfold raw_crop in Rx, Ry.
  rewrite !stored_status_refreshed.
  rewrite Rx, Ry.
  rewrite CLAMP_below by lra. rewrite CLAMP_inside by lra.
  change (crop_ (Node_update (stored_status_ s)))
    with (crop_ (stored_status_ s)).
  change (scale_ (Node_update (stored_status_ s)))
    with (scale_ (stored_status_ s)).
  cbn [x3 y3 mul3 div3]. rewrite Hx, Hy.
  repeat split; field.
Qed.

(** ** Moving the source *)

Lemma grab_move_node ui s str :
  let r := fst (fst (grab_move ui s str)) in
  scale_ (group_ r) = scale_ (group_ s)
  /\ rotation_ (group_ r) = rotation_ (group_ s)
  /\ crop_ (group_ r) = crop_ (group_ s).
Proof.
  destruct ui as [sh al ct]. unfold grab_move.
  destruct sh, al; cbv zeta;
  repeat match goal with
         | |- context [Rgtb ?a ?b] => destruct (Rgtb a b)
         end; repeat split; reflexivity.
Qed.

(** C10 -- frame condition of a plain drag: an update whose pick holds a
    node that is no handle of the cascade changes the translation only;
    scale, rotation and crop of the node are what they were and the
    snapshot is what it was, so they stay equal to the snapshot's,
    whatever the modifiers. *)
Theorem move_changes_translation_only (from to : vec2) (n : NodeId) (p : vec2)
    (v : GeometryView) (s : Source) (ui : UserInterface) :
  picked_handle s n = None ->
  let s' := snd (update_call unProject from (Some n, p) (v, s) (to, ui)) in
  (scale_ (group_ s') = scale_ (group_ s)
   /\ rotation_ (group_ s') = rotation_ (group_ s)
   /\ crop_ (group_ s') = crop_ (group_ s))
  /\ transform_of (stored_status_ s') = transform_of (stored_status_ s)
  /\ (scale_ (group_ s) = scale_ (stored_status_ s) ->
      rotation_ (group_ s) = rotation_ (stored_status_ s) ->
      crop_ (group_ s) = crop_ (stored_status_ s) ->
      scale_ (group_ s') = scale_ (stored_status_ s')
      /\ rotation_ (group_ s') = rotation_ (stored_status_ s')
      /\ crop_ (group_ s') = crop_ (stored_status_ s')).
Proof.
  intros Hk s'. subst s'. rewrite update_call_pick.
  rewrite grab_pick_move by exact Hk.
  rewrite !group_touch.
  rewrite !stored_status_touch.
  match goal with |- context [grab_move ?a ?b ?c] =>
    destruct (grab_move_node a b c) as (Hs & Hr & Hc);
    destruct (grab_pick_frame a b n p (mkvec3 0 0 0) (mkvec3 0 0 0) c
                (mkvec4 0 0 0 0) (mkvec4 0 0 0 0) (mkvec3 0 0 0))
      as (Hst & _)
  end.
  rewrite grab_pick_move in Hst by exact Hk.
  rewrite Hs, Hr, Hc, Hst.
  split; [repeat split; reflexivity|].
  split; [reflexivity|].
  intros E1 E2 E3. repeat split; assumption.
Qed.

End Rules.

Lemma mul_div_cancel (x k : R) : k <> 0 -> x = k * (x / k).
Proof. intro H. field. exact H. Qed.

Section Resize.

Variable unProject : vec2 -> mat4 -> vec3.

(** ** The RESIZE rule *)

(** What the rule writes: the new scale and the center moved by the
    scaling [cs'] it ends up with; the scale is the snapshot scale times
    [cs'] on both axes. *)
Lemma grab_RESIZE_node ui s corner c2s cf ct cs center :
  let r := fst (fst (grab_RESIZE ui s corner c2s cf ct cs center)) in
  let S := scale_ (stored_status_ s) in
  exists cs',
    translation_ (group_ r)
    = vec3_of (mulv c2s (mulv (glm.scale identity cs') center))
    /\ rotation_ (group_ r) = rotation_ (group_ s)
    /\ crop_ (group_ r) = crop_ (group_ s)
    /\ (x3 S <> 0 -> y3 S <> 0 ->
        x3 (scale_ (group_ r)) = x3 S * x3 cs'
        /\ y3 (scale_ (group_ r)) = y3 S * y3 cs').
Proof.
  destruct ui as [sh al c]. unfold grab_RESIZE.
  destruct sh, al; cbv zeta; cbn [shiftModifier altModifier fst snd];
  eexists; (split; [reflexivity|]); (split; [reflexivity|]);
  (split; [reflexivity|]); intros Hx Hy;
  cbn [recenter group_ set_group scale_ set_scale set_translation
       x3 y3 z3 div3 mul3 set_x set_y];
  split; try reflexivity; apply mul_div_cancel; assumption.
Qed.

(** The scale written under the proportional modifier. *)
Lemma grab_RESIZE_proportional al ct s corner c2s cf cto cs center :
  let r :=
    fst (fst (grab_RESIZE (mkUserInterface true al ct) s corner c2s cf cto
                          cs center)) in
  let S := scale_ (stored_status_ s) in
  let f := length2 (vec2_of cto) / length2 (vec2_of cf) in
  scale_ (group_ r)
  = if al
    then mkvec3 (ROUND (x3 S * f) 10) (y3 S * (ROUND (x3 S * f) 10 / x3 S))
                (z3 S * 1)
    else mul3 S (mkvec3 f f 1).
Proof. destruct al; reflexivity. Qed.

Lemma length2_diag (a : R) : 0 <= a -> length2 (mkvec2 a a) = a * sqrt 2.
Proof.
  intro Ha. unfold length2; cbn [x2 y2].
  replace (a * a + a * a) with ((a * a) * 2) by ring.
  rewrite sqrt_mult by nra. rewrite sqrt_square by exact Ha. reflexivity.
Qed.

Lemma sqrt2_neq_0 : sqrt 2 <> 0.
Proof.
  intro H. pose proof (sqrt_lt_R0 2 ltac:(lra)) as H0. lra.
Qed.

(** The scale a RESIZE update writes under the proportional modifier. *)
Lemma resize_proportional_scale (from to : vec2) (n : NodeId) (p : vec2)
    (v : GeometryView) (s : Source) (ui : UserInterface) :
  picked_handle s n = Some RESIZE ->
  shiftModifier ui = true ->
  let s' := snd (update_call unProject from (Some n, p) (v, s) (to, ui)) in
  let S := scale_ (stored_status_ s) in
  let corner_from := corner_point unProject v s (round2 p) from in
  let corner_to := corner_point unProject v s (round2 p) to in
  let f := length2 (vec2_of corner_to) / length2 (vec2_of corner_from) in
  scale_ (group_ s')
  = if altModifier ui
    then mkvec3 (ROUND (x3 S * f) 10) (y3 S * (ROUND (x3 S * f) 10 / x3 S))
                (z3 S * 1)
    else mul3 S (mkvec3 f f 1).
Proof.
  intros Hk Hsh s' S cf cto f.
  subst s'. rewrite update_call_pick, group_touch.
  rewrite grab_pick_RESIZE by exact Hk. cbv zeta.
  destruct ui as [sh al ct]. cbn [shiftModifier] in Hsh. subst sh.
  rewrite grab_RESIZE_proportional. reflexivity.
Qed.

(** C6 -- proportional RESIZE: with the proportional modifier held and
    the discretize modifier not held, both scale axes of the snapshot
    are multiplied by the one factor |corner(to)| / |corner(from)|; with
    both held, scale.x is that product rounded and scale.y follows by
    the factor scale.x / snapshot scale.x; either way scale.x / scale.y
    is the ratio of the snapshot. From the snapshot scale (2, 1, 1),
    with corner-frame points (1, 1) and (2, 2), the factor is 2 and the
    new scale (4, 2, 1). *)
Theorem proportional_resize (from to : vec2) (n : NodeId) (p : vec2)
    (v : GeometryView) (s : Source) (ui : UserInterface) :
  picked_handle s n = Some RESIZE ->
  shiftModifier ui = true ->
  let s' := snd (update_call unProject from (Some n, p) (v, s) (to, ui)) in
  let S := scale_ (stored_status_ s) in
  let corner_from := corner_point unProject v s (round2 p) from in
  let corner_to := corner_point unProject v s (round2 p) to in
  let f := length2 (vec2_of corner_to) / length2 (vec2_of corner_from) in
  (altModifier ui = false -> scale_ (group_ s') = mul3 S (mkvec3 f f 1))
  /\ (altModifier ui = true ->
      scale_ (group_ s')
      = mkvec3 (ROUND (x3 S * f) 10) (y3 S * (ROUND (x3 S * f) 10 / x3 S))
               (z3 S * 1))
  /\ (x3 S <> 0 -> y3 S <> 0 -> y3 (scale_ (group_ s')) <> 0 ->
      x3 (scale_ (group_ s')) / y3 (scale_ (group_ s')) = x3 S / y3 S)
  /\ (altModifier ui = false -> S = mkvec3 2 1 1 ->
      vec2_of corner_from = mkvec2 1 1 -> vec2_of corner_to = mkvec2 2 2 ->
      f = 2 /\ scale_ (group_ s') = mkvec3 4 2 1).
Proof.
  intros Hk Hsh s' S cf cto f.
  pose proof (resize_proportional_scale from to n p v s ui Hk Hsh) as E.
  cbv zeta in E. fold s' S cf cto f in E.
  rewrite E. clearbody s'. clear E.
  split; [intros ->; reflexivity|].
  split; [intros ->; reflexivity|].
  split.
  - intros Hx Hy. destruct (altModifier ui); cbn [x3 y3 mul3].
    + intro Hy'. field. split; [exact Hy|].
      split; [exact Hx|]. intro Hz. apply Hy'. rewrite Hz.
      unfold Rdiv. ring.
    + intro Hy'. field. split; [exact Hy|].
      intro Hz. apply Hy'. rewrite Hz. ring.
  - intros -> HS Hf Ht.
    assert (Ef : f = 2).
    { subst f. rewrite Hf, Ht.
      rewrite !length2_diag by lra. field. exact sqrt2_neq_0. }
    split; [exact Ef|]. rewrite Ef, HS. unfold mul3; cbn [x3 y3 z3].
    f_equal; ring.
Qed.

(** A drag begins anchored: the snapshot is a copy of the node. *)
Lemma anchored_initiate (s : Source) (corner : vec2) :
  anchored (initiate s) corner.
Proof. split; reflexivity. Qed.

(** C2 -- corner anchoring: in a RESIZE drag, whatever the modifiers, an
    update leaves the corner opposite to the picked one where it was in
    the scene, and the invariant of the drag holds again: the node has
    the rotation of the snapshot and that corner where the snapshot has
    it. *)
Theorem resize_keeps_opposite_corner (from to : vec2) (n : NodeId) (p : vec2)
    (v : GeometryView) (s : Source) (ui : UserInterface) :
  picked_handle s n = Some RESIZE ->
  aspectRatio s <> 0 ->
  nondegenerate (stored_status_ s) ->
  anchored s (round2 p) ->
  let s' := snd (update_call unProject from (Some n, p) (v, s) (to, ui)) in
  corner_position (group_ s') (aspectRatio s') (neg2 (round2 p))
  = corner_position (group_ s) (aspectRatio s) (neg2 (round2 p))
  /\ anchored s' (round2 p).
Proof.
  intros Hk Ha Hn (Hrot & Hcorner) s'.
  assert (E : rotation_ (group_ s') = rotation_ (stored_status_ s)
              /\ aspectRatio s' = aspectRatio s
              /\ stored_status_ s' = Node_update (stored_status_ s)
              /\ corner_position (group_ s') (aspectRatio s) (neg2 (round2 p))
                 = corner_position (stored_status_ s) (aspectRatio s)
                                   (neg2 (round2 p))).
  { subst s'. rewrite update_call_pick.
    match goal with |- context [grab_pick ?a ?b ?c ?d ?e ?f ?g ?h ?i ?j] =>
      destruct (grab_pick_frame a b c d e f g h i j) as (Hst & Har & _);
      rewrite (grab_pick_RESIZE a b c d e f g h i j Hk) in *
    end.
    cbv zeta in *.
    rewrite group_touch, stored_status_touch.
    match goal with |- context [grab_RESIZE ?a ?b ?c ?d ?e ?f ?g ?h] =>
      destruct (grab_RESIZE_node a b c d e f g h)
        as (cs' & Ht & Hr & _ & Hsc)
    end.
    rewrite stored_status_refreshed in *.
    split; [rewrite Hr; exact Hrot|].
    split; [exact Har|].
    split; [exact Hst|].
    destruct Hn as (Hx & Hy & Hz).
    destruct (Hsc Hx Hy) as (Hsx & Hsy).
    unfold corner_position at 1. rewrite Ht, Hr.
    change (rotation_ (group_ (set_stored_status s
                                 (Node_update (stored_status_ s)))))
      with (rotation_ (group_ s)).
    rewrite Hrot.
    apply (recenter_anchor (stored_status_ s) (aspectRatio s) (round2 p) cs');
      try assumption.
    repeat split; assumption. }
  destruct E as (Er & Ea & Es & Ec).
  rewrite Ea, Ec. split; [symmetry; exact Hcorner|].
  split.
  - rewrite Er, Es. reflexivity.
  - rewrite Ea, Ec, Es. reflexivity.
Qed.

End Resize.

(** C8 -- corner frame: for a transform that can be inverted, the matrix
    T * inverse(transform), T = translate(corner) * scale(1/aspect, 1, 1),
    takes the corner of the source opposite to the picked one to the
    origin, and the picked corner itself to twice [corner]. *)
Theorem corner_frame_origin_is_opposite_corner (n : Node) (a : R) (c : vec2) :
  nondegenerate n -> a <> 0 ->
  mulv (scene_to_corner (Node_update n) a c) (corner_position n a (neg2 c))
  = mkvec4 0 0 0 1
  /\ mulv (scene_to_corner (Node_update n) a c) (corner_position n a c)
     = mkvec4 (2 * x2 c) (2 * y2 c) 0 1.
Proof.
  intros Hn Ha. unfold corner_position.
  rewrite !scene_to_corner_mulv by exact Hn.
  unfold corner_local, neg2; cbn [x4 y4 z4 w4 x2 y2].
  split; apply vec4_ext; cbn [x4 y4 z4 w4]; try ring; field; exact Ha.
Qed.

(** ** Two updates in a row *)

Lemma ABS_SIGN_again (x y : R) :
  ABS y * SIGN (ABS y * SIGN x) = ABS y * SIGN x.
Proof.
  unfold ABS, SIGN.
  destruct (Rlt_dec y 0); destruct (Rlt_dec x 0);
    match goal with |- context [Rlt_dec ?a 0] => destruct (Rlt_dec a 0) end;
    nra.
Qed.

(** Expose what two calls of one rule write into the node, down to
    the fields of the node, and compare. *)
Ltac expose_node :=
  cbv beta iota zeta delta
    [grab_RESIZE grab_RESIZE_H grab_RESIZE_V grab_SCALE grab_CROP
     grab_ROTATE grab_move
     fst snd shiftModifier altModifier group_ stored_status_ set_group
     hide_all_but fold_left hide overlayActiveCorner set_handles
     setProjectionArea Handles_Type_eqb recenter negb info_size
     set_translation set_rotation set_scale set_crop
     translation_ rotation_ scale_ crop_ transform_].

Ltac same_node := reflexivity.

Ltac two_calls s s1 ui1 ui2 :=
  let sh1 := fresh "sh1" in let al1 := fresh "al1" in
  let sh2 := fresh "sh2" in let al2 := fresh "al2" in
  let g := fresh "g" in let st := fresh "st" in
  let g1 := fresh "g" in let st1 := fresh "st" in
  destruct ui1 as [sh1 al1 ?], ui2 as [sh2 al2 ?];
  destruct s as [? ? ? ? ? ? ? g st ? ? ? ? ? ? ?],
           s1 as [? ? ? ? ? ? ? g1 st1 ? ? ? ? ? ? ?];
  cbn [group_ stored_status_ shiftModifier];
  intros; subst;
  destruct g;
  destruct sh1, al1, sh2, al2.

Lemma grab_RESIZE_twice ui1 ui2 s s1 c1 m1 cf1 ct1 cs1 ce1
    c2 m2 cf2 ct2 cs2 ce2 :
  group_ s1 = group_ (fst (fst (grab_RESIZE ui1 s c1 m1 cf1 ct1 cs1 ce1))) ->
  stored_status_ s1 = stored_status_ s ->
  group_ (fst (fst (grab_RESIZE ui2 s1 c2 m2 cf2 ct2 cs2 ce2)))
  = group_ (fst (fst (grab_RESIZE ui2 s c2 m2 cf2 ct2 cs2 ce2))).
Proof.
  two_calls s s1 ui1 ui2; expose_node; same_node.
Qed.

Lemma grab_SCALE_twice ui1 ui2 s s1 a1 b1 d1 a2 b2 d2 :
  group_ s1 = group_ (fst (fst (grab_SCALE ui1 s a1 b1 d1))) ->
  stored_status_ s1 = stored_status_ s ->
  group_ (fst (fst (grab_SCALE ui2 s1 a2 b2 d2)))
  = group_ (fst (fst (grab_SCALE ui2 s a2 b2 d2))).
Proof.
  two_calls s s1 ui1 ui2; expose_node; same_node.
Qed.

Lemma grab_CROP_twice ui1 ui2 s s1 a1 b1 d1 a2 b2 d2 :
  group_ s1 = group_ (fst (fst (grab_CROP ui1 s a1 b1 d1))) ->
  stored_status_ s1 = stored_status_ s ->
  group_ (fst (fst (grab_CROP ui2 s1 a2 b2 d2)))
  = group_ (fst (fst (grab_CROP ui2 s a2 b2 d2))).
Proof.
  two_calls s s1 ui1 ui2; expose_node; same_node.
Qed.

Lemma grab_move_twice ui1 ui2 s s1 t1 t2 :
  group_ s1 = group_ (fst (fst (grab_move ui1 s t1))) ->
  stored_status_ s1 = stored_status_ s ->
  group_ (fst (fst (grab_move ui2 s1 t2)))
  = group_ (fst (fst (grab_move ui2 s t2))).
Proof.
  two_calls s s1 ui1 ui2; expose_node;
    repeat match goal with
           | |- context [Rgtb ?a ?b] => destruct (Rgtb a b)
           end; same_node.
Qed.

Lemma grab_ROTATE_twice ui1 ui2 s s1 a1 b1 a2 b2 :
  shiftModifier ui2 = false \/ shiftModifier ui1 = true ->
  group_ s1 = group_ (fst (fst (grab_ROTATE ui1 s a1 b1))) ->
  stored_status_ s1 = stored_status_ s ->
  group_ (fst (fst (grab_ROTATE ui2 s1 a2 b2)))
  = group_ (fst (fst (grab_ROTATE ui2 s a2 b2))).
Proof.
  intro Hc. revert Hc.
  two_calls s s1 ui1 ui2;
    try (exfalso; destruct Hc; discriminate);
    expose_node; same_node.
Qed.

Lemma grab_RESIZE_H_twice ui1 ui2 s s1 c1 m1 cs1 ce1 c2 m2 cs2 ce2 :
  shiftModifier ui2 = false \/ shiftModifier ui1 = true ->
  group_ s1 = group_ (fst (fst (grab_RESIZE_H ui1 s c1 m1 cs1 ce1))) ->
  stored_status_ s1 = stored_status_ s ->
  group_ (fst (fst (grab_RESIZE_H ui2 s1 c2 m2 cs2 ce2)))
  = group_ (fst (fst (grab_RESIZE_H ui2 s c2 m2 cs2 ce2))).
Proof.
  intro Hc. revert Hc.
  two_calls s s1 ui1 ui2;
    try (exfalso; destruct Hc; discriminate);
    expose_node; cbn [x3 y3 z3 set_x];
    rewrite ?ABS_SIGN_again; same_node.
Qed.

Lemma grab_RESIZE_V_twice ui1 ui2 s s1 c1 m1 cs1 ce1 c2 m2 cs2 ce2 :
  shiftModifier ui2 = false \/ shiftModifier ui1 = true ->
  group_ s1 = group_ (fst (fst (grab_RESIZE_V ui1 s c1 m1 cs1 ce1))) ->
  stored_status_ s1 = stored_status_ s ->
  group_ (fst (fst (grab_RESIZE_V ui2 s1 c2 m2 cs2 ce2)))
  = group_ (fst (fst (grab_RESIZE_V ui2 s c2 m2 cs2 ce2))).
Proof.
  intro Hc. revert Hc.
  two_calls s s1 ui1 ui2;
    try (exfalso; destruct Hc; discriminate);
    expose_node; cbn [x3 y3 z3 set_y];
    rewrite ?ABS_SIGN_again; same_node.
Qed.

Lemma grab_pick_twice ui1 ui2 s s1 n p
    sf1 st1 str1 sof1 sot1 sos1 sf2 st2 str2 sof2 sot2 sos2 :
  independent_calls (picked_handle s n) ui1 ui2 ->
  group_ s1
  = group_ (fst (fst (grab_pick ui1 s n p sf1 st1 str1 sof1 sot1 sos1))) ->
  stored_status_ s1 = stored_status_ s ->
  aspectRatio s1 = aspectRatio s ->
  (forall h, handle_node (handles_ s1 h) = handle_node (handles_ s h)) ->
  group_ (fst (fst (grab_pick ui2 s1 n p sf2 st2 str2 sof2 sot2 sos2)))
  = group_ (fst (fst (grab_pick ui2 s n p sf2 st2 str2 sof2 sot2 sos2))).
Proof.
  intros Hc Hg Hst Har Hh.
  pose proof (picked_handle_ext s s1 n Hh) as Hk1.
  unfold independent_calls in Hc.
  destruct (picked_handle_cases s n)
    as [Hk | [Hk | [Hk | [Hk | [Hk | [Hk | Hk]]]]]];
    rewrite Hk in Hk1, Hc; cbn [proportional_uses_node] in Hc.
  - rewrite (grab_pick_RESIZE _ s1) by exact Hk1.
    rewrite (grab_pick_RESIZE ui2 s) by exact Hk.
    rewrite (grab_pick_RESIZE ui1 s) in Hg by exact Hk.
    cbv zeta in *. rewrite Hst, Har.
    eapply grab_RESIZE_twice; eassumption.
  - rewrite (grab_pick_RESIZE_H _ s1) by exact Hk1.
    rewrite (grab_pick_RESIZE_H ui2 s) by exact Hk.
    rewrite (grab_pick_RESIZE_H ui1 s) in Hg by exact Hk.
    cbv zeta in *. rewrite Hst, Har.
    eapply grab_RESIZE_H_twice; try eassumption.
    destruct Hc as [Hc | Hc]; [discriminate | exact Hc].
  - rewrite (grab_pick_RESIZE_V _ s1) by exact Hk1.
    rewrite (grab_pick_RESIZE_V ui2 s) by exact Hk.
    rewrite (grab_pick_RESIZE_V ui1 s) in Hg by exact Hk.
    cbv zeta in *. rewrite Hst, Har.
    eapply grab_RESIZE_V_twice; try eassumption.
    destruct Hc as [Hc | Hc]; [discriminate | exact Hc].
  - rewrite (grab_pick_SCALE _ s1) by exact Hk1.
    rewrite (grab_pick_SCALE ui2 s) by exact Hk.
    rewrite (grab_pick_SCALE ui1 s) in Hg by exact Hk.
    eapply grab_SCALE_twice; eassumption.
  - rewrite (grab_pick_CROP _ s1) by exact Hk1.
    rewrite (grab_pick_CROP ui2 s) by exact Hk.
    rewrite (grab_pick_CROP ui1 s) in Hg by exact Hk.
    eapply grab_CROP_twice; eassumption.
  - rewrite (grab_pick_ROTATE _ s1) by exact Hk1.
    rewrite (grab_pick_ROTATE ui2 s) by exact Hk.
    rewrite (grab_pick_ROTATE ui1 s) in Hg by exact Hk.
    eapply grab_ROTATE_twice; try eassumption.
    destruct Hc as [Hc | Hc]; [discriminate | exact Hc].
  - rewrite (grab_pick_move _ s1) by exact Hk1.
    rewrite (grab_pick_move ui2 s) by exact Hk.
    rewrite (grab_pick_move ui1 s) in Hg by exact Hk.
    eapply grab_move_twice; eassumption.
Qed.

Section Sessions.

Variable unProject : vec2 -> mat4 -> vec3.

Lemma scene_point_ext (v v' : GeometryView) (P : vec2) :
  scene_root_transform_ v' = scene_root_transform_ v ->
  scene_point unProject v' P = scene_point unProject v P.
Proof. intro H. unfold scene_point. rewrite H. reflexivity. Qed.

Lemma source_point_ext (v v' : GeometryView) (s s' : Source) (P : vec2) :
  scene_root_transform_ v' = scene_root_transform_ v ->
  Node_update (stored_status_ s') = Node_update (stored_status_ s) ->
  source_point unProject v' s' P = source_point unProject v s P.
Proof.
  intros Hv Hs. unfold source_point. rewrite Hs, (scene_point_ext v v' P Hv).
  reflexivity.
Qed.

(** What an update keeps of the source. *)
Lemma update_call_frame (from : vec2) (n : NodeId) (p : vec2)
    (st : GeometryView * Source) (u : Update) :
  let s' := snd (update_call unProject from (Some n, p) st u) in
  stored_status_ s' = Node_update (stored_status_ (snd st))
  /\ aspectRatio s' = aspectRatio (snd st)
  /\ (forall h, handle_node (handles_ s' h)
                = handle_node (handles_ (snd st) h)).
Proof.
  destruct st as [v s], u as [to ui]. cbn [snd]. cbv zeta.
  rewrite update_call_pick.
  match goal with |- context [grab_pick ?a ?b ?c ?d ?e ?f ?g ?h ?i ?j] =>
    destruct (grab_pick_frame a b c d e f g h i j) as (Hst & Har & Hh)
  end.
  rewrite stored_status_touch, Hst.
  split; [reflexivity|]. split; [exact Har|].
  intro h. exact (Hh h).
Qed.

(** An update after another one of the same drag gives the node that it
    gives alone, when the two calls are independent. *)
Lemma update_twice (from : vec2) (n : NodeId) (p : vec2)
    (st : GeometryView * Source) (u1 u2 : Update) :
  independent_calls (picked_handle (snd st) n) (snd u1) (snd u2) ->
  group_ (snd (update_call unProject from (Some n, p)
                 (update_call unProject from (Some n, p) st u1) u2))
  = group_ (snd (update_call unProject from (Some n, p) st u2)).
Proof.
  intro Hc.
  pose proof (update_call_frame from n p st u1) as (Hst & Har & Hh).
  pose proof (update_call_view unProject from (Some n, p) st u1) as Hv.
  cbv zeta in *.
  destruct (update_call unProject from (Some n, p) st u1) as [v1 s1] eqn:E1.
  destruct st as [v s], u1 as [to1 ui1], u2 as [to2 ui2].
  cbn [fst snd] in *.
  assert (Es1 : s1 = snd (update_call unProject from (Some n, p) (v, s)
                                       (to1, ui1)))
    by (rewrite E1; reflexivity).
  rewrite update_call_pick in Es1.
  rewrite !update_call_pick, !group_touch.
  rewrite !(scene_point_ext v v1) by exact Hv.
  rewrite !(source_point_ext v v1 s s1)
    by (try exact Hv; rewrite Hst; reflexivity).
  eapply grab_pick_twice.
  - exact Hc.
  - rewrite Es1. reflexivity.
  - rewrite stored_status_refreshed, Hst. reflexivity.
  - exact Har.
  - exact Hh.
Qed.

End Sessions.

Section Sequences.

Variable unProject : vec2 -> mat4 -> vec3.

Lemma update_call_picked_handle (from : vec2) (n : NodeId) (p : vec2)
    (st : GeometryView * Source) (u : Update) :
  picked_handle (snd (update_call unProject from (Some n, p) st u)) n
  = picked_handle (snd st) n.
Proof.
  apply picked_handle_ext.
  apply (update_call_frame unProject from n p st u).
Qed.

Lemma updates_last (from : vec2) (n : NodeId) (p : vec2) (us : list Update)
    (u : Update) :
  forall st : GeometryView * Source,
  (forall u', In u' us ->
     independent_calls (picked_handle (snd st) n) (snd u') (snd u)) ->
  group_ (snd (updates unProject from (Some n, p) st (us ++ [u])))
  = group_ (snd (update_call unProject from (Some n, p) st u)).
Proof.
  induction us as [|u1 us IH]; intros st H.
  - reflexivity.
  - cbn [app]. unfold updates. cbn [fold_left].
    fold (updates unProject from (Some n, p)
            (update_call unProject from (Some n, p) st u1) (us ++ [u])).
    rewrite IH.
    + apply update_twice. apply H. left. reflexivity.
    + intros u' Hu'. rewrite update_call_picked_handle.
      apply H. right. exact Hu'.
Qed.

(** C1 -- non-drift: in a drag on any handle or on the body, the
    transform after a sequence of updates is the transform the last
    update gives alone from the same snapshot, provided the rule is one
    of RESIZE, SCALE, CROP and move, or the last update is made without
    the proportional modifier, or every update is made with it. *)
Theorem non_drift (from : vec2) (n : NodeId) (p : vec2)
    (st : GeometryView * Source) (us : list Update) (u : Update) :
  proportional_uses_node (picked_handle (snd st) n) = false
  \/ shiftModifier (snd u) = false
  \/ Forall (fun u' => shiftModifier (snd u') = true) us ->
  transform_of
    (group_ (snd (updates unProject from (Some n, p) st (us ++ [u]))))
  = transform_of
      (group_ (snd (update_call unProject from (Some n, p) st u))).
Proof.
  intro H. rewrite updates_last; [reflexivity|].
  intros u' Hu'. unfold independent_calls.
  destruct H as [H | [H | H]]; [left; exact H | right; left; exact H |].
  right; right. rewrite Forall_forall in H. apply H. exact Hu'.
Qed.

End Sequences.

(** ** Picking *)

Section Picking.

Variable ui : UserInterface.
Variable v : GeometryView.
Variable m : Mixer.
Variable pv : list (NodeId * vec2).
Variable cur : Source.
Variable itp : NodeId * vec2.

Hypothesis Hcur : currentSource m = Some cur.
Hypothesis Hws : workspace_ cur = current_workspace m.
Hypothesis Hfound :
  find (fun itp => hasNode (fst itp) (Some cur)) (rev pv) = Some itp.

Lemma pick_current_unfold :
  pick ui v m pv =
  let pick := (Some (fst itp), snd itp) in
  if Nat.eqb (fst itp) (handle_node (handles_ cur MENU)) then
    (pick, openContextMenu v MENU_SOURCE, m)
  else if Nat.eqb (fst itp) (lock_ cur) then
    (pick, v, store m (setLocked cur false))
  else if Nat.eqb (fst itp) (unlock_ cur) then
    (pick_empty, v, store m (setLocked cur true))
  else if locked_ cur && negb (ctrlModifier ui) then (pick_empty, v, m)
  else (pick, v, m).
Proof.
  unfold pick. destruct pv as [|hd tl].
  - cbn in Hfound. discriminate.
  - rewrite Hcur, Hws, Nat.eqb_refl. cbn [negb].
    rewrite Hfound. cbv zeta.
    repeat match goal with
           | |- context [if ?b then _ else _] => destruct b
           end; reflexivity.
Qed.

Lemma pick_current_MENU :
  fst itp = handle_node (handles_ cur MENU) ->
  pick ui v m pv
  = ((Some (fst itp), snd itp), openContextMenu v MENU_SOURCE, m).
Proof.
  intro H. rewrite pick_current_unfold. cbv zeta.
  rewrite H, Nat.eqb_refl. reflexivity.
Qed.

Lemma pick_current_lock :
  fst itp <> handle_node (handles_ cur MENU) ->
  fst itp = lock_ cur ->
  pick ui v m pv
  = ((Some (fst itp), snd itp), v, store m (setLocked cur false)).
Proof.
  intros H1 H2. rewrite pick_current_unfold. cbv zeta.
  apply Nat.eqb_neq in H1. rewrite H1.
  rewrite H2 at 1. rewrite Nat.eqb_refl. reflexivity.
Qed.

Lemma pick_current_locked :
  fst itp <> handle_node (handles_ cur MENU) ->
  fst itp <> lock_ cur -> fst itp <> unlock_ cur ->
  locked_ cur = true -> ctrlModifier ui = false ->
  pick ui v m pv = (pick_empty, v, m).
Proof.
  intros H1 H2 H3 H4 H5. rewrite pick_current_unfold. cbv zeta.
  apply Nat.eqb_neq in H1, H2, H3. rewrite H1, H2, H3, H4, H5.
  reflexivity.
Qed.

End Picking.

(** C5 -- icon picks on the current source: when the front-most hit that
    belongs to the current source is its MENU handle, [pick] asks for
    the context menu and returns that hit, node and coordinates; when it
    is its lock icon, [pick] unlocks the source and returns that hit.
    Neither result is empty. *)
Theorem icon_pick_returns_the_hit (ui : UserInterface) (v : GeometryView)
    (m : Mixer) (pv : list (NodeId * vec2)) (cur : Source)
    (itp : NodeId * vec2) :
  currentSource m = Some cur ->
  workspace_ cur = current_workspace m ->
  find (fun itp => hasNode (fst itp) (Some cur)) (rev pv) = Some itp ->
  (fst itp = handle_node (handles_ cur MENU) ->
   pick ui v m pv
   = ((Some (fst itp), snd itp), openContextMenu v MENU_SOURCE, m))
  /\ (fst itp <> handle_node (handles_ cur MENU) ->
      fst itp = lock_ cur ->
      pick ui v m pv
      = ((Some (fst itp), snd itp), v, store m (setLocked cur false))).
Proof.
  intros Hcur Hws Hfound. split.
  - apply pick_current_MENU; assumption.
  - apply pick_current_lock; assumption.
Qed.

Section MoreRules.

Variable unProject : vec2 -> mat4 -> vec3.

(** The scale a RESIZE_H update writes: from the node under the
    proportional modifier, from the snapshot without any modifier. *)
Lemma resize_h_proportional_scale (from to : vec2) (n : NodeId) (p : vec2)
    (v : GeometryView) (s : Source) (ui : UserInterface) :
  picked_handle s n = Some RESIZE_H ->
  shiftModifier ui = true ->
  let s' := snd (update_call unProject from (Some n, p) (v, s) (to, ui)) in
  scale_ (group_ s')
  = set_x (scale_ (group_ s))
          (ABS (y3 (scale_ (group_ s))) * SIGN (x3 (scale_ (group_ s)))).
Proof.
  intros Hk Hsh s'. subst s'. rewrite update_call_pick, group_touch.
  rewrite grab_pick_RESIZE_H by exact Hk. cbv zeta.
  destruct ui as [sh al ct]. cbn [shiftModifier] in Hsh. subst sh.
  reflexivity.
Qed.

Lemma resize_h_plain_scale (from to : vec2) (n : NodeId) (p : vec2)
    (v : GeometryView) (s : Source) (ui : UserInterface) :
  picked_handle s n = Some RESIZE_H ->
  shiftModifier ui = false -> altModifier ui = false ->
  let s' := snd (update_call unProject from (Some n, p) (v, s) (to, ui)) in
  let corner_from := corner_point unProject v s (round2 p) from in
  let corner_to := corner_point unProject v s (round2 p) to in
  scale_ (group_ s')
  = mul3 (scale_ (stored_status_ s))
         (mkvec3 (x4 corner_to / x4 corner_from) 1 1).
Proof.
  intros Hk Hsh Hal s'. subst s'. rewrite update_call_pick, group_touch.
  rewrite grab_pick_RESIZE_H by exact Hk. cbv zeta.
  destruct ui as [sh al ct]. cbn [shiftModifier altModifier] in Hsh, Hal.
  subst sh al. reflexivity.
Qed.

(** The translation a move writes without any modifier. *)
Lemma move_plain_translation (from to : vec2) (n : NodeId) (p : vec2)
    (v : GeometryView) (s : Source) (ui : UserInterface) :
  picked_handle s n = None ->
  shiftModifier ui = false -> altModifier ui = false ->
  let s' := snd (update_call unProject from (Some n, p) (v, s) (to, ui)) in
  translation_ (group_ s')
  = add3 (translation_ (stored_status_ s))
         (sub3 (scene_point unProject v to) (scene_point unProject v from)).
Proof.
  intros Hk Hsh Hal s'. subst s'. rewrite update_call_pick, group_touch.
  rewrite grab_pick_move by exact Hk.
  destruct ui as [sh al ct]. cbn [shiftModifier altModifier] in Hsh, Hal.
  subst sh al. reflexivity.
Qed.

(** ** Nothing picked *)

(** C9 -- no target: a [grab] whose pick is empty returns the neutral
    cursor and leaves the node of the source, the transform of its
    snapshot, its handles and its lock as they were (so does a [grab]
    on no source at all); and a pick that lands on the body of the
    current source while it is locked, without the override modifier,
    is empty and changes nothing. *)
Theorem no_target_is_noop (ui : UserInterface) (v : GeometryView)
    (from to c : vec2) :
  grab unProject ui v None from to (None, c) = (v, None, Cursor_default)
  /\ (forall s : Source,
      exists v' s',
        grab unProject ui v (Some s) from to (None, c)
        = (v', Some s', Cursor_default)
        /\ group_ s' = group_ s
        /\ transform_of (stored_status_ s') = transform_of (stored_status_ s)
        /\ handles_ s' = handles_ s
        /\ locked_ s' = locked_ s)
  /\ (forall (m : Mixer) (pv : list (NodeId * vec2)) (cur : Source)
             (itp : NodeId * vec2),
      currentSource m = Some cur ->
      workspace_ cur = current_workspace m ->
      find (fun itp => hasNode (fst itp) (Some cur)) (rev pv) = Some itp ->
      fst itp <> handle_node (handles_ cur MENU) ->
      fst itp <> lock_ cur -> fst itp <> unlock_ cur ->
      locked_ cur = true -> ctrlModifier ui = false ->
      pick ui v m pv = (pick_empty, v, m)).
Proof.
  split; [reflexivity|]. split.
  - intro s. eexists. eexists. split; [reflexivity|].
    repeat split; reflexivity.
  - intros. apply (pick_current_locked ui v m pv cur itp); assumption.
Qed.

End MoreRules.

(** ** Drawing with several sources selected *)

Lemma find_store (l : list Source) (i : nat) (s0 s1 : Source) :
  find (fun s => Nat.eqb (id_ s) i) l = Some s0 ->
  id_ s1 = id_ s0 ->
  find (fun s => Nat.eqb (id_ s) i)
       (map (fun e => if Nat.eqb (id_ e) (id_ s1) then s1 else e) l)
  = Some s1.
Proof.
  intros Hf Hid.
  assert (Hi : id_ s0 = i).
  { apply find_some in Hf. apply Nat.eqb_eq. apply Hf. }
  induction l as [|a l IH]; [discriminate|].
  cbn [find map] in *.
  destruct (Nat.eqb (id_ a) i) eqn:Ea.
  - injection Hf as ->. rewrite Hid, Nat.eqb_refl, Hid, Hi, Nat.eqb_refl.
    reflexivity.
  - replace (Nat.eqb (id_ a) (id_ s1)) with false
      by (rewrite Hid, Hi, Ea; reflexivity).
    rewrite Ea. apply IH. exact Hf.
Qed.

Lemma currentSource_store (m : Mixer) (s0 s1 : Source) :
  currentSource m = Some s0 -> id_ s1 = id_ s0 ->
  currentSource (store m s1) = Some s1.
Proof.
  unfold currentSource, store. cbn [current_ session_].
  destruct (current_ m) as [i|]; [|discriminate].
  apply find_store.
Qed.

(** C7 -- several sources selected: [draw] puts the current source in
    the SELECTED mode and draws no control overlay, for it or for any
    source, and this marking leaves its node and its snapshot as they
    are. ([grab] itself never looks at the selection.) *)
Theorem multi_selection_draws_no_controls (View_canSelect : Source -> bool)
    (m : Mixer) (s0 : Source) :
  (1 < List.length (selection_ m))%nat ->
  currentSource m = Some s0 ->
  let m' := fst (draw View_canSelect m) in
  currentSource m' = Some (setMode s0 SELECTED)
  /\ (forall i, ~ In (Draw_controls i) (snd (draw View_canSelect m)))
  /\ group_ (setMode s0 SELECTED) = group_ s0
  /\ stored_status_ (setMode s0 SELECTED) = stored_status_ s0.
Proof.
  intros Hn Hcur m'. subst m'. unfold draw. rewrite Hcur.
  apply Nat.ltb_lt in Hn. rewrite Hn. cbn [fst snd].
  split; [apply (currentSource_store m s0); [exact Hcur | reflexivity]|].
  split; [|split; reflexivity].
  intros i Hin. cbn in Hin.
  repeat destruct Hin as [Hin | Hin]; try discriminate. exact Hin.
Qed.

(** ** The examples: a flat camera and axis-aligned snapshots *)

Lemma round_IZR (z : Z) : (0 <= z)%Z -> glm.round (IZR z) = IZR z.
Proof.
  intro Hz. unfold glm.round.
  destruct (Rle_dec 0 (IZR z)) as [_|H]; [|exfalso; apply H; apply IZR_le; lia].
  f_equal. symmetry. apply Int_part_spec. lra.
Qed.

Lemma round2_corner_1_1 : round2 (mkvec2 1 1) = mkvec2 1 1.
Proof.
  unfold round2; cbn [x2 y2]. rewrite (round_IZR 1) by lia. reflexivity.
Qed.

Lemma round2_corner_1_0 : round2 (mkvec2 1 0) = mkvec2 1 0.
Proof.
  unfold round2; cbn [x2 y2].
  rewrite (round_IZR 1), (round_IZR 0) by lia. reflexivity.
Qed.

Lemma ROUND_152 : ROUND (152 / 100) 10 = 15 / 10.
Proof.
  unfold ROUND. f_equal. f_equal. symmetry. apply Int_part_spec. lra.
Qed.

Lemma nondegenerate_unit : nondegenerate unit_node.
Proof. unfold nondegenerate, unit_node; cbn [scale_ x3 y3 z3]. lra. Qed.

Lemma nondegenerate_wide : nondegenerate wide_node.
Proof. unfold nondegenerate, wide_node; cbn [scale_ x3 y3 z3]. lra. Qed.

Section Flat.

Variable v : GeometryView.
Variable s : Source.

Hypothesis Ht : translation_ (stored_status_ s) = mkvec3 0 0 0.
Hypothesis Hr : rotation_ (stored_status_ s) = mkvec3 0 0 0.
Hypothesis Hn : nondegenerate (stored_status_ s).

(** A scene point is the image of the point with its coordinates
    divided by the scale of the snapshot. *)
Lemma flat_scene_point (P : vec2) :
  vec4_of (scene_point unProject_flat v P) 1
  = mulv (GlmToolkit_transform (translation_ (stored_status_ s))
            (rotation_ (stored_status_ s)) (scale_ (stored_status_ s)))
         (mkvec4 (x2 P / x3 (scale_ (stored_status_ s)))
                 (y2 P / y3 (scale_ (stored_status_ s))) 0 1).
Proof.
  destruct Hn as (Hx & Hy & Hz).
  rewrite transform_mulv, Ht, Hr. cbn [x3 y3 z3 x4 y4 z4 w4].
  rewrite cos_0, sin_0.
  unfold vec4_of, scene_point, unProject_flat; cbn [x3 y3 z3].
  apply vec4_ext; cbn [x4 y4 z4 w4]; field; repeat split; assumption.
Qed.

Lemma flat_source_point (P : vec2) :
  source_point unProject_flat v s P
  = mkvec4 (x2 P / x3 (scale_ (stored_status_ s)))
           (y2 P / y3 (scale_ (stored_status_ s))) 0 1.
Proof.
  unfold source_point. rewrite flat_scene_point, Node_update_transform.
  apply inverse_mulv_l. apply det_transform_neq; apply Hn.
Qed.

Lemma flat_corner_point (c P : vec2) :
  corner_point unProject_flat v s c P
  = mkvec4 (x2 P / x3 (scale_ (stored_status_ s)) * (1 / aspectRatio s)
            + x2 c)
           (y2 P / y3 (scale_ (stored_status_ s)) + y2 c) 0 1.
Proof.
  unfold corner_point. rewrite flat_scene_point.
  rewrite scene_to_corner_mulv by exact Hn.
  apply vec4_ext; cbn [x4 y4 z4 w4]; ring.
Qed.

End Flat.

(** The two example snapshots. *)
Lemma flat_source_point_unit (v : GeometryView) (P : vec2) :
  source_point unProject_flat v ex_source P
  = mkvec4 (x2 P / 1) (y2 P / 1) 0 1.
Proof.
  apply (flat_source_point v ex_source);
    [reflexivity | reflexivity | exact nondegenerate_unit].
Qed.

Lemma flat_corner_point_unit (v : GeometryView) (c P : vec2) :
  corner_point unProject_flat v ex_source c P
  = mkvec4 (x2 P / 1 * (1 / 1) + x2 c) (y2 P / 1 + y2 c) 0 1.
Proof.
  apply (flat_corner_point v ex_source);
    [reflexivity | reflexivity | exact nondegenerate_unit].
Qed.

Lemma flat_corner_point_wide (v : GeometryView) (c P : vec2) :
  corner_point unProject_flat v ex_source_wide c P
  = mkvec4 (x2 P / 2 * (1 / 1) + x2 c) (y2 P / 1 + y2 c) 0 1.
Proof.
  apply (flat_corner_point v ex_source_wide);
    [reflexivity | reflexivity | exact nondegenerate_wide].
Qed.

(** ** The properties at the examples *)

(** A corner drag in three updates ends where its last update alone
    ends. *)
Lemma non_drift_witness :
  transform_of
    (group_ (snd (updates unProject_flat (mkvec2 1 1)
                    (Some 1%nat, mkvec2 1 1) (ex_view, ex_source)
                    [(mkvec2 3 3, shift_alt); (mkvec2 0 5, no_modifier);
                     (mkvec2 2 2, shift_only)])))
  = transform_of
      (group_ (snd (update_call unProject_flat (mkvec2 1 1)
                      (Some 1%nat, mkvec2 1 1) (ex_view, ex_source)
                      (mkvec2 2 2, shift_only)))).
Proof.
  apply (non_drift unProject_flat (mkvec2 1 1) 1%nat (mkvec2 1 1)
           (ex_view, ex_source)
           [(mkvec2 3 3, shift_alt); (mkvec2 0 5, no_modifier)]
           (mkvec2 2 2, shift_only)).
  left. reflexivity.
Defined.

Lemma SIGN_neg (x : R) : x < 0 -> SIGN x = -1.
Proof. intro H. unfold SIGN. destruct (Rlt_dec x 0); lra. Qed.

Lemma SIGN_pos (x : R) : 0 <= x -> SIGN x = 1.
Proof. intro H. unfold SIGN. destruct (Rlt_dec x 0); lra. Qed.

Lemma ABS_pos (x : R) : 0 <= x -> ABS x = x.
Proof. intro H. unfold ABS. destruct (Rlt_dec x 0); lra. Qed.

Lemma ex_source_scale : scale_ (group_ ex_source) = mkvec3 1 1 1.
Proof. reflexivity. Qed.

Lemma ex_source_stored_scale :
  scale_ (stored_status_ ex_source) = mkvec3 1 1 1.
Proof. reflexivity. Qed.

(** Dragging the right edge of the example source from x = 1 to x = -3
    without modifier mirrors it. *)
Lemma resize_h_mirrors :
  scale_ (group_ (snd (update_call unProject_flat (mkvec2 1 0)
                         (Some 2%nat, mkvec2 1 0) (ex_view, ex_source)
                         (mkvec2 (-3) 0, no_modifier))))
  = mkvec3 (-1) 1 1.
Proof.
  rewrite (resize_h_plain_scale unProject_flat (mkvec2 1 0)
             (mkvec2 (-3) 0) 2%nat (mkvec2 1 0) ex_view ex_source
             no_modifier eq_refl eq_refl eq_refl).
  rewrite round2_corner_1_0, !flat_corner_point_unit, ex_source_stored_scale.
  unfold mul3; cbn [x3 y3 z3 x4 x2].
  f_equal; field.
Qed.

(** The same drag with the proportional modifier, alone. *)
Lemma resize_h_proportional_alone :
  scale_ (group_ (snd (update_call unProject_flat (mkvec2 1 0)
                         (Some 2%nat, mkvec2 1 0) (ex_view, ex_source)
                         (mkvec2 (-3) 0, shift_only))))
  = mkvec3 1 1 1.
Proof.
  rewrite (resize_h_proportional_scale unProject_flat (mkvec2 1 0)
             (mkvec2 (-3) 0) 2%nat (mkvec2 1 0) ex_view ex_source shift_only
             eq_refl eq_refl).
  rewrite ex_source_scale. unfold set_x; cbn [x3 y3 z3].
  rewrite (SIGN_pos 1), (ABS_pos 1) by lra. f_equal; ring.
Qed.

(** A drag of the RESIZE_H handle: a first update, without modifier,
    mirrors the source; a second one at the same point with the
    proportional modifier keeps it mirrored, while that update alone
    from the snapshot does not mirror it. *)
Lemma proportional_resize_h_drifts :
  transform_of
    (group_ (snd (updates unProject_flat (mkvec2 1 0)
                    (Some 2%nat, mkvec2 1 0) (ex_view, ex_source)
                    [(mkvec2 (-3) 0, no_modifier);
                     (mkvec2 (-3) 0, shift_only)])))
  <> transform_of
       (group_ (snd (update_call unProject_flat (mkvec2 1 0)
                       (Some 2%nat, mkvec2 1 0) (ex_view, ex_source)
                       (mkvec2 (-3) 0, shift_only)))).
Proof.
  unfold updates. cbn [fold_left].
  pose proof resize_h_mirrors as E1.
  pose proof (update_call_picked_handle unProject_flat (mkvec2 1 0) 2%nat
                (mkvec2 1 0) (ex_view, ex_source)
                (mkvec2 (-3) 0, no_modifier)) as K1.
  set (st1 := update_call unProject_flat (mkvec2 1 0)
                (Some 2%nat, mkvec2 1 0) (ex_view, ex_source)
                (mkvec2 (-3) 0, no_modifier)) in *.
  clearbody st1. destruct st1 as [v1 s1]. cbn [snd] in E1, K1.
  intro H.
  apply (f_equal (fun t => x3 (snd (fst t)))) in H.
  unfold transform_of in H. cbn [fst snd] in H.
  rewrite (resize_h_proportional_scale unProject_flat (mkvec2 1 0)
             (mkvec2 (-3) 0) 2%nat (mkvec2 1 0) v1 s1 shift_only K1 eq_refl)
    in H.
  rewrite resize_h_proportional_alone, E1 in H.
  unfold set_x in H; cbn [x3 y3 z3] in H.
  rewrite (SIGN_neg (-1)), (ABS_pos 1) in H by lra.
  lra.
Qed.

Lemma ex_source_aspect : aspectRatio ex_source = 1.
Proof. reflexivity. Qed.

Lemma ex_source_stored : stored_status_ ex_source = unit_node.
Proof. reflexivity. Qed.

(** A corner drag of the example source, from its beginning, keeps the
    corner (-1, -1). *)
Lemma resize_keeps_opposite_corner_witness :
  let s0 := initiate ex_source in
  let s' :=
    snd (update_call unProject_flat (mkvec2 1 1) (Some 1%nat, mkvec2 1 1)
           (ex_view, s0) (mkvec2 2 3, shift_alt)) in
  corner_position (group_ s') (aspectRatio s') (neg2 (round2 (mkvec2 1 1)))
  = corner_position (group_ s0) (aspectRatio s0) (neg2 (round2 (mkvec2 1 1)))
  /\ anchored s' (round2 (mkvec2 1 1)).
Proof.
  apply (resize_keeps_opposite_corner unProject_flat (mkvec2 1 1) (mkvec2 2 3)
           1%nat (mkvec2 1 1) ex_view (initiate ex_source) shift_alt).
  - reflexivity.
  - change (aspectRatio (initiate ex_source)) with (aspectRatio ex_source).
    rewrite ex_source_aspect. lra.
  - exact nondegenerate_unit.
  - apply anchored_initiate.
Defined.

(** A crop drag far beyond the frame stays within the bounds. *)
Lemma crop_stays_within_bounds_witness :
  let s' :=
    snd (update_call unProject_flat (mkvec2 1 1) (Some 6%nat, mkvec2 1 1)
           (ex_view, ex_source) (mkvec2 100 (-7), no_modifier)) in
  / 10 <= x3 (crop_ (group_ s')) <= 1 /\ / 10 <= y3 (crop_ (group_ s')) <= 1.
Proof.
  apply (crop_stays_within_bounds unProject_flat (mkvec2 1 1)
           (mkvec2 100 (-7)) 6%nat (mkvec2 1 1) ex_view ex_source no_modifier).
  reflexivity.
Defined.

Lemma ex_raw_crop :
  raw_crop unProject_flat no_modifier ex_view ex_source (mkvec2 1 1)
           (mkvec2 (5 / 100) (3 / 10))
  = mkvec3 (1 * (5 / 100 / 1 / (1 / 1))) (1 * (3 / 10 / 1 / (1 / 1)))
           (1 * (0 / 0)).
Proof.
  unfold raw_crop. rewrite !flat_source_point_unit. reflexivity.
Qed.

(** The scenario of the crop drag: from the corner (1, 1) to the point
    (0.05, 0.3). *)
Lemma crop_scale_coupling_witness :
  let s' :=
    snd (update_call unProject_flat (mkvec2 1 1) (Some 6%nat, mkvec2 1 1)
           (ex_view, ex_source) (mkvec2 (5 / 100) (3 / 10), no_modifier)) in
  x3 (crop_ (group_ s')) = / 10 /\ y3 (crop_ (group_ s')) = 3 / 10
  /\ x3 (scale_ (group_ s')) = x3 (scale_ (stored_status_ ex_source)) * / 10
  /\ y3 (scale_ (group_ s'))
     = y3 (scale_ (stored_status_ ex_source)) * (3 / 10).
Proof.
  apply (crop_scale_coupling unProject_flat (mkvec2 1 1)
           (mkvec2 (5 / 100) (3 / 10)) 6%nat (mkvec2 1 1) ex_view ex_source
           no_modifier eq_refl).
  - reflexivity.
  - reflexivity.
  - rewrite ex_raw_crop. cbn [x3]. field.
  - rewrite ex_raw_crop. cbn [y3]. field.
Defined.

Lemma ex_mixer_current : currentSource ex_mixer = Some ex_source.
Proof. reflexivity. Qed.

(** A click on the MENU handle of the current source. *)
Lemma icon_pick_returns_the_hit_witness :
  pick no_modifier ex_view ex_mixer [(7%nat, mkvec2 0 0)]
  = ((Some 7%nat, mkvec2 0 0), openContextMenu ex_view MENU_SOURCE, ex_mixer).
Proof.
  apply (icon_pick_returns_the_hit no_modifier ex_view ex_mixer
           [(7%nat, mkvec2 0 0)] ex_source (7%nat, mkvec2 0 0));
    reflexivity.
Defined.

(** A click on the MENU handle, and one on the lock icon, of the current
    source: neither pick is empty. *)
Lemma icon_pick_is_not_empty :
  fst (fst (pick no_modifier ex_view ex_mixer [(7%nat, mkvec2 0 0)]))
  <> pick_empty
  /\ fst (fst (pick no_modifier ex_view ex_mixer [(10%nat, mkvec2 0 0)]))
     <> pick_empty.
Proof.
  split.
  - rewrite (pick_current_MENU no_modifier ex_view ex_mixer
               [(7%nat, mkvec2 0 0)] ex_source (7%nat, mkvec2 0 0))
      by reflexivity.
    cbn [fst]. unfold pick_empty. discriminate.
  - rewrite (pick_current_lock no_modifier ex_view ex_mixer
               [(10%nat, mkvec2 0 0)] ex_source (10%nat, mkvec2 0 0))
      by (try reflexivity; cbn; discriminate).
    cbn [fst]. unfold pick_empty. discriminate.
Qed.

Lemma ex_wide_stored_scale :
  scale_ (stored_status_ ex_source_wide) = mkvec3 2 1 1.
Proof. reflexivity. Qed.

(** The scenario of the proportional corner drag. *)
Lemma proportional_resize_witness :
  scale_ (group_ (snd (update_call unProject_flat (mkvec2 0 0)
                         (Some 1%nat, mkvec2 1 1) (ex_view, ex_source_wide)
                         (mkvec2 2 1, shift_only))))
  = mkvec3 4 2 1.
Proof.
  apply (proportional_resize unProject_flat (mkvec2 0 0) (mkvec2 2 1) 1%nat
           (mkvec2 1 1) ex_view ex_source_wide shift_only eq_refl eq_refl).
  - reflexivity.
  - reflexivity.
  - rewrite round2_corner_1_1, flat_corner_point_wide.
    unfold vec2_of; cbn [x4 y4 x2 y2]. f_equal; field.
  - rewrite round2_corner_1_1, flat_corner_point_wide.
    unfold vec2_of; cbn [x4 y4 x2 y2]. f_equal; field.
Defined.

(** A proportional corner drag with the discretize modifier held: the
    pointer goes from (1, 1) to (2.04, 2.04), the ratio of the lengths
    in the corner frame is 1.52, and the scale written is 1.5. *)
Lemma proportional_resize_discretized_factor :
  let s' :=
    snd (update_call unProject_flat (mkvec2 1 1) (Some 1%nat, mkvec2 1 1)
           (ex_view, ex_source) (mkvec2 (204 / 100) (204 / 100), shift_alt)) in
  let corner_from :=
    corner_point unProject_flat ex_view ex_source (round2 (mkvec2 1 1))
                 (mkvec2 1 1) in
  let corner_to :=
    corner_point unProject_flat ex_view ex_source (round2 (mkvec2 1 1))
                 (mkvec2 (204 / 100) (204 / 100)) in
  let f := length2 (vec2_of corner_to) / length2 (vec2_of corner_from) in
  f = 152 / 100
  /\ scale_ (group_ s')
     <> mul3 (scale_ (stored_status_ ex_source)) (mkvec3 f f 1).
Proof.
  cbv zeta.
  rewrite (resize_proportional_scale unProject_flat (mkvec2 1 1)
             (mkvec2 (204 / 100) (204 / 100)) 1%nat (mkvec2 1 1) ex_view
             ex_source shift_alt eq_refl eq_refl).
  rewrite round2_corner_1_1, !flat_corner_point_unit, ex_source_stored_scale.
  unfold vec2_of; cbn [x4 y4 x2 y2 x3 y3 z3 altModifier shift_alt].
  assert (Ef : length2 (mkvec2 (204 / 100 / 1 * (1 / 1) + 1)
                               (204 / 100 / 1 + 1))
               / length2 (mkvec2 (1 / 1 * (1 / 1) + 1) (1 / 1 + 1))
               = 152 / 100).
  { assert (E1 : 204 / 100 / 1 * (1 / 1) + 1 = 304 / 100) by field.
    assert (E2 : 204 / 100 / 1 + 1 = 304 / 100) by field.
    assert (E3 : 1 / 1 * (1 / 1) + 1 = 2) by field.
    assert (E4 : 1 / 1 + 1 = 2) by field.
    rewrite E1, E2, E3, E4, !length2_diag by lra.
    field. exact sqrt2_neq_0. }
  rewrite Ef. split; [reflexivity|].
  assert (E5 : 1 * (152 / 100) = 152 / 100) by ring.
  rewrite E5, ROUND_152. unfold mul3; cbn [x3 y3 z3].
  intro H. apply (f_equal x3) in H. cbn [x3] in H. lra.
Qed.

Lemma ex_mixer_multi_current : currentSource ex_mixer_multi = Some ex_source.
Proof. reflexivity. Qed.

(** Two sources selected: the current one is drawn as SELECTED, without
    controls. *)
Lemma multi_selection_draws_no_controls_witness :
  let d := draw (fun _ => true) ex_mixer_multi in
  currentSource (fst d) = Some (setMode ex_source SELECTED)
  /\ (forall i, ~ In (Draw_controls i) (snd d))
  /\ group_ (setMode ex_source SELECTED) = group_ ex_source
  /\ stored_status_ (setMode ex_source SELECTED) = stored_status_ ex_source.
Proof.
  apply (multi_selection_draws_no_controls (fun _ => true) ex_mixer_multi
           ex_source).
  - cbn. lia.
  - reflexivity.
Defined.

(** Two sources selected: after [draw], a click on the surface of the
    current source is picked, and the drag that follows moves it. *)
Lemma multi_selection_still_moves :
  let m' := fst (draw (fun _ => true) ex_mixer_multi) in
  let s := setMode ex_source SELECTED in
  let pk := (Some 20%nat, mkvec2 0 0) in
  (1 < List.length (selection_ m'))%nat
  /\ currentSource m' = Some s
  /\ fst (fst (pick no_modifier ex_view m' [(20%nat, mkvec2 0 0)])) = pk
  /\ translation_
       (group_ (snd (update_call unProject_flat (mkvec2 0 0) pk (ex_view, s)
                       (mkvec2 1 0, no_modifier))))
     <> translation_ (group_ s).
Proof.
  cbv zeta.
  assert (Hc : currentSource (fst (draw (fun _ => true) ex_mixer_multi))
               = Some (setMode ex_source SELECTED)) by reflexivity.
  split; [cbn; lia|]. split; [exact Hc|]. split.
  - rewrite (pick_current_unfold no_modifier ex_view _
               [(20%nat, mkvec2 0 0)] (setMode ex_source SELECTED)
               (20%nat, mkvec2 0 0) Hc eq_refl eq_refl).
    reflexivity.
  - rewrite (move_plain_translation unProject_flat (mkvec2 0 0) (mkvec2 1 0)
               20%nat (mkvec2 0 0) ex_view (setMode ex_source SELECTED)
               no_modifier eq_refl eq_refl eq_refl).
    assert (E : translation_ (stored_status_ (setMode ex_source SELECTED))
                = mkvec3 0 0 0) by reflexivity.
    assert (G : translation_ (group_ (setMode ex_source SELECTED))
                = mkvec3 0 0 0) by reflexivity.
    rewrite E, G. unfold scene_point, unProject_flat, add3, sub3.
    cbn [x3 y3 z3 x2 y2].
    intro H. apply (f_equal x3) in H. cbn [x3] in H. lra.
Qed.

(** The corner frame of the example node, for its corner (1, 1). *)
Lemma corner_frame_origin_is_opposite_corner_witness :
  mulv (scene_to_corner (Node_update unit_node) 1 (mkvec2 1 1))
       (corner_position unit_node 1 (neg2 (mkvec2 1 1)))
  = mkvec4 0 0 0 1
  /\ mulv (scene_to_corner (Node_update unit_node) 1 (mkvec2 1 1))
          (corner_position unit_node 1 (mkvec2 1 1))
     = mkvec4 (2 * x2 (mkvec2 1 1)) (2 * y2 (mkvec2 1 1)) 0 1.
Proof.
  apply (corner_frame_origin_is_opposite_corner unit_node 1 (mkvec2 1 1)).
  - exact nondegenerate_unit.
  - lra.
Defined.

(** In the corner frame of the corner (1, 1) of the example node, that
    corner is not at the origin. *)
Lemma picked_corner_is_not_at_origin :
  mulv (scene_to_corner (Node_update unit_node) 1 (mkvec2 1 1))
       (corner_position unit_node 1 (mkvec2 1 1))
  <> mkvec4 0 0 0 1.
Proof.
  unfold corner_position.
  rewrite scene_to_corner_mulv by exact nondegenerate_unit.
  unfold corner_local; cbn [x4 y4 z4 w4 x2 y2].
  intro H. apply (f_equal x4) in H. cbn [x4] in H.
  assert (E : 1 * 1 * (1 / 1) + 1 * 1 = 2) by field.
  rewrite E in H. lra.
Qed.

Lemma ex_mixer_locked_current :
  currentSource ex_mixer_locked = Some (setLocked ex_source true).
Proof. reflexivity. Qed.

(** The locked current source is clicked on its surface, without the
    override modifier: the pick is empty, and a [grab] with it returns
    the neutral cursor and leaves the node as it is. *)
Lemma no_target_is_noop_witness :
  pick no_modifier ex_view ex_mixer_locked [(20%nat, mkvec2 (/ 2) (/ 2))]
  = (pick_empty, ex_view, ex_mixer_locked)
  /\ exists v' s',
       grab unProject_flat no_modifier ex_view
            (Some (setLocked ex_source true)) (mkvec2 0 0) (mkvec2 1 0)
            pick_empty
       = (v', Some s', Cursor_default)
       /\ group_ s' = group_ (setLocked ex_source true).
Proof.
  destruct (no_target_is_noop unProject_flat no_modifier ex_view
              (mkvec2 0 0) (mkvec2 1 0) (mkvec2 0 0)) as (_ & Hg & Hp).
  split.
  - apply (Hp ex_mixer_locked [(20%nat, mkvec2 (/ 2) (/ 2))]
              (setLocked ex_source true) (20%nat, mkvec2 (/ 2) (/ 2)));
      try reflexivity; cbn; discriminate.
  - destruct (Hg (setLocked ex_source true)) as (v' & s' & E & G & _).
    exists v', s'. split; [exact E | exact G].
Defined.

(** A drag of the example source by its surface. *)
Lemma move_changes_translation_only_witness :
  let s' :=
    snd (update_call unProject_flat (mkvec2 0 0) (Some 20%nat, mkvec2 0 0)
           (ex_view, ex_source) (mkvec2 3 (-2), shift_alt)) in
  scale_ (group_ s') = scale_ (group_ ex_source)
  /\ rotation_ (group_ s') = rotation_ (group_ ex_source)
  /\ crop_ (group_ s') = crop_ (group_ ex_source).
Proof.
  apply (move_changes_translation_only unProject_flat (mkvec2 0 0)
           (mkvec2 3 (-2)) 20%nat (mkvec2 0 0) ex_view ex_source shift_alt).
  reflexivity.
Defined.

(** ** The list of devices *)

Lemma find_distance_position device names from :
  find_distance device names from =
  match first_position device names with
  | Some k => (from + Z.of_nat k)%Z
  | None => (-1)%Z
  end.
Proof.
  revert from; induction names as [|n ns IH]; intros from; [reflexivity|].
  cbn [find_distance first_position].
  destruct (String.eqb n device).
  - cbn. lia.
  - rewrite IH. destruct (first_position device ns); cbn; lia.
Qed.

Lemma first_position_bound device names k :
  first_position device names = Some k ->
  (k < List.length names)%nat /\ nth k names ""%string = device.
Proof.
  revert k; induction names as [|n ns IH]; intros k; cbn; [discriminate|].
  destruct (String.eqb n device) eqn:E.
  - intros [= <-]. apply String.eqb_eq in E. split; [lia | exact E].
  - destruct (first_position device ns) as [j|]; cbn; [|discriminate].
    intros [= <-]. destruct (IH j eq_refl). split; [lia | assumption].
Qed.

Lemma first_position_exists device names :
  existsb (fun n => String.eqb n device) names =
  match first_position device names with Some _ => true | None => false end.
Proof.
  induction names as [|n ns IH]; cbn; [reflexivity|].
  destruct (String.eqb n device); cbn; [reflexivity|].
  rewrite IH. destruct (first_position device ns); reflexivity.
Qed.

Lemma at_index_nth {A : Type} (l : list A) (k : nat) (d : A) :
  at_index l (Z.of_nat k) d = nth k l d.
Proof.
  unfold at_index. rewrite Nat2Z.id.
  destruct (Z.ltb_spec (-1) (Z.of_nat k)); [|lia].
  destruct (Z.ltb_spec (Z.of_nat k) (Z.of_nat (List.length l))); cbn;
    [reflexivity|].
  symmetry; apply nth_overflow; lia.
Qed.

Lemma at_index_minus_one {A : Type} (l : list A) (d : A) :
  at_index l (-1) d = d.
Proof. reflexivity. Qed.

(** A lookup by name: [at_index xs (index name)]. *)
Lemma at_index_position {A : Type} device names (xs : list A) (d : A) :
  at_index xs (find_distance device names 0) d =
  match first_position device names with
  | Some k => nth k xs d
  | None => d
  end.
Proof.
  rewrite find_distance_position.
  destruct (first_position device names) as [k|].
  - rewrite Z.add_0_l. apply at_index_nth.
  - reflexivity.
Qed.

Section EraseFirst.

Context {DeviceConfigSet : Type}.

Lemma erase_first_defined device names descs (confs : list DeviceConfigSet) :
  List.length descs = List.length names ->
  List.length confs = List.length names ->
  exists ns ds cs,
    erase_first device names descs confs = Some (ns, ds, cs)
    /\ List.length ds = List.length ns
    /\ List.length cs = List.length ns.
Proof.
  revert descs confs; induction names as [|n ns IH];
    intros descs confs Hd Hc.
  - exists [], descs, confs. cbn. auto.
  - destruct descs as [|d ds]; [discriminate|].
    destruct confs as [|c cs]; [discriminate|].
    cbn [erase_first]. injection Hd as Hd; injection Hc as Hc.
    destruct (String.eqb n device).
    + exists ns, ds, cs; auto.
    + destruct (IH ds cs Hd Hc) as (ns' & ds' & cs' & -> & H1 & H2).
      exists (n :: ns'), (d :: ds'), (c :: cs'); cbn; auto.
Qed.

Lemma erase_first_length device names descs (confs : list DeviceConfigSet)
    ns ds cs :
  erase_first device names descs confs = Some (ns, ds, cs) ->
  List.length ns =
  (List.length names
   - if existsb (fun n => String.eqb n device) names then 1 else 0)%nat.
Proof.
  revert descs confs ns ds cs; induction names as [|n l IH];
    intros descs confs ns ds cs.
  - cbn. intros [= <- _ _]. reflexivity.
  - cbn [erase_first existsb].
    destruct descs as [|d descs]; [discriminate|].
    destruct confs as [|c confs]; [discriminate|].
    destruct (String.eqb n device) eqn:E.
    + intros [= <- _ _]. cbn. lia.
    + destruct (erase_first device l descs confs) as [[[ns' ds'] cs']|] eqn:R;
        [|discriminate].
      intros [= <- _ _]. cbn [orb List.length].
      rewrite (IH _ _ _ _ _ R).
      destruct (existsb (fun n0 => String.eqb n0 device) l) eqn:Ex; [|lia].
      assert (0 < List.length l)%nat; [|lia].
      destruct l; [discriminate | cbn; lia].
Qed.

Lemma erase_first_other device names descs (confs : list DeviceConfigSet)
    ns ds cs other :
  erase_first device names descs confs = Some (ns, ds, cs) ->
  other <> device ->
  match first_position other ns, first_position other names with
  | Some j, Some k =>
      (forall d, nth j ds d = nth k descs d)
      /\ (forall c, nth j cs c = nth k confs c)
  | None, None => True
  | _, _ => False
  end.
Proof.
  intros H Ho.
  revert descs confs ns ds cs H; induction names as [|n l IH];
    intros descs confs ns ds cs.
  - cbn. intros [= <- _ _]. exact I.
  - cbn [erase_first].
    destruct descs as [|d descs]; [discriminate|].
    destruct confs as [|c confs]; [discriminate|].
    destruct (String.eqb n device) eqn:E.
    + intros [= <- <- <-]. cbn [first_position].
      apply String.eqb_eq in E. subst n.
      destruct (String.eqb_spec device other) as [->|_]; [congruence|].
      destruct (first_position other l); cbn; auto.
    + destruct (erase_first device l descs confs) as [[[ns' ds'] cs']|] eqn:R;
        [|discriminate].
      intros [= <- <- <-]. cbn [first_position].
      destruct (String.eqb n other); [cbn; auto|].
      specialize (IH _ _ _ _ _ R).
      destruct (first_position other ns'), (first_position other l);
        cbn; auto.
Qed.

Lemma erase_first_count device names descs (confs : list DeviceConfigSet)
    ns ds cs :
  erase_first device names descs confs = Some (ns, ds, cs) ->
  count_occ string_dec ns device
  = Nat.pred (count_occ string_dec names device).
Proof.
  revert descs confs ns ds cs; induction names as [|n l IH];
    intros descs confs ns ds cs.
  - cbn. intros [= <- _ _]. reflexivity.
  - cbn [erase_first].
    destruct descs as [|d descs]; [discriminate|].
    destruct confs as [|c confs]; [discriminate|].
    destruct (String.eqb_spec n device) as [->|Hn].
    + intros [= <- _ _]. rewrite count_occ_cons_eq by reflexivity.
      reflexivity.
    + destruct (erase_first device l descs confs) as [[[ns' ds'] cs']|] eqn:R;
        [|discriminate].
      intros [= <- _ _].
      rewrite !count_occ_cons_neq by assumption. eapply IH; eassumption.
Qed.

End EraseFirst.

Lemma exists_count device names :
  existsb (fun n => String.eqb n device) names
  = (0 <? count_occ string_dec names device)%nat.
Proof.
  induction names as [|n l IH]; [reflexivity|].
  cbn [existsb].
  destruct (String.eqb_spec n device) as [->|Hn].
  - rewrite count_occ_cons_eq by reflexivity. reflexivity.
  - rewrite count_occ_cons_neq by assumption. exact IH.
Qed.

Lemma first_position_app device names name :
  first_position device (names ++ [name]) =
  match first_position device names with
  | Some k => Some k
  | None => if String.eqb name device then Some (List.length names) else None
  end.
Proof.
  induction names as [|n l IH]; cbn.
  - destruct (String.eqb name device); reflexivity.
  - destruct (String.eqb n device); [reflexivity|].
    rewrite IH. destruct (first_position device l); cbn; [reflexivity|].
    destruct (String.eqb name device); reflexivity.
Qed.

Section DeviceProperties.

Context {DeviceConfigSet : Type}.
Variable DeviceConfigSet_empty : DeviceConfigSet.
Variable getDeviceConfigs : string -> DeviceConfigSet.

Lemma Device_remove_aligned (dv : Device DeviceConfigSet) device :
  aligned dv ->
  exists dv', Device_remove dv device = Some dv' /\ aligned dv'.
Proof.
  intros [Hd Hc]. unfold Device_remove.
  destruct (erase_first_defined device _ _ _ Hd Hc)
    as (ns & ds & cs & -> & H1 & H2).
  eexists; split; [reflexivity|]. split; assumption.
Qed.

Lemma callback_aligned (dv : Device DeviceConfigSet) message :
  aligned dv ->
  exists dv',
    callback_device_monitor getDeviceConfigs dv message = Some dv'
    /\ aligned dv'.
Proof.
  intros Ha. destruct message as [name api path|name|].
  - eexists; split; [reflexivity|]. destruct Ha as [Hd Hc].
    split; cbn; rewrite !length_app; cbn; lia.
  - cbn. destruct (Device_remove_aligned dv name Ha) as (dv' & -> & Ha').
    eexists; split; [reflexivity|]. exact Ha'.
  - eexists; split; [reflexivity | exact Ha].
Qed.

(** X1 -- the device monitor keeps its three vectors aligned: from a
    list with one description and one configuration set per name, every
    sequence of plug and unplug messages is handled without an iterator
    leaving its vector, and leaves such a list. *)
Theorem device_monitor_keeps_vectors_aligned
    (dv : Device DeviceConfigSet) (l : list DeviceMessage) :
  aligned dv ->
  exists dv',
    device_messages getDeviceConfigs dv l = Some dv' /\ aligned dv'.
Proof.
  revert dv; induction l as [|message rest IH]; intros dv Ha.
  - exists dv; split; [reflexivity | exact Ha].
  - cbn [device_messages].
    destruct (callback_aligned dv message Ha) as (dv' & -> & Ha').
    apply IH; exact Ha'.
Qed.

(** X2 -- [index] and [name]: a device is listed exactly when its
    index is above -1; the index of a listed device is below
    [numDevices], [name] at this index is the device, and no smaller
    index has this name; for a device that is not listed the index is
    -1 and [name] at -1 is the empty string. *)
Theorem index_finds_the_first_device_of_that_name
    (dv : Device DeviceConfigSet) (device : string) :
  (Device_exists dv device = true <-> (-1 < Device_index dv device)%Z)
  /\ (Device_exists dv device = true ->
      (Device_index dv device < numDevices dv)%Z
      /\ Device_name dv (Device_index dv device) = device
      /\ forall i, (-1 < i < Device_index dv device)%Z ->
                   Device_name dv i <> device)
  /\ (Device_exists dv device = false ->
      Device_index dv device = (-1)%Z
      /\ Device_name dv (Device_index dv device) = ""%string).
Proof.
  unfold Device_exists, Device_index, Device_name, numDevices.
  rewrite first_position_exists.
  rewrite (at_index_position device (src_name_ dv) (src_name_ dv)).
  rewrite find_distance_position.
  destruct (first_position device (src_name_ dv)) as [k|] eqn:P.
  - destruct (first_position_bound _ _ _ P) as [Hk Hn].
    split; [split; [lia | reflexivity]|].
    split; [|discriminate]. intros _.
    split; [lia|]. split; [exact Hn|].
    intros i Hi. replace i with (Z.of_nat (Z.to_nat i)) by lia.
    rewrite at_index_nth.
    assert (Hlt : (Z.to_nat i < k)%nat) by lia.
    clear Hi Hk Hn. revert k P Hlt. generalize (Z.to_nat i) as j.
    induction (src_name_ dv) as [|n ns IH]; intros j k; cbn [first_position];
      [discriminate|].
    destruct (String.eqb_spec n device) as [->|Hn].
    + intros [= <-]. lia.
    + destruct (first_position device ns) as [k'|]; cbn; [|discriminate].
      intros [= <-] Hlt. destruct j as [|j]; [exact Hn|].
      cbn. apply (IH j k' eq_refl). lia.
  - split; [split; [discriminate | lia]|].
    split; [discriminate|]. intros _. split; reflexivity.
Qed.


(** X3 -- [remove] on an aligned list erases at most one device: the
    number of devices decreases by one when the device was listed and
    stays the same when it was not, and every device of another name
    is listed as before, with the description and the configurations
    it had. *)
Theorem remove_erases_one_device_and_keeps_the_others
    (dv : Device DeviceConfigSet) (device : string) :
  aligned dv ->
  exists dv',
    Device_remove dv device = Some dv'
    /\ numDevices dv'
       = (numDevices dv - if Device_exists dv device then 1 else 0)%Z
    /\ forall other, other <> device ->
         Device_exists dv' other = Device_exists dv other
         /\ Device_description dv' (Device_index dv' other)
            = Device_description dv (Device_index dv other)
         /\ Device_config DeviceConfigSet_empty dv' (Device_index dv' other)
            = Device_config DeviceConfigSet_empty dv (Device_index dv other).
Proof.
  intros [Hd Hc]. unfold Device_remove.
  destruct (erase_first_defined device _ _ _ Hd Hc)
    as (ns & ds & cs & E & H1 & H2).
  rewrite E. eexists; split; [reflexivity|].
  unfold numDevices, Device_exists, Device_description, Device_config,
    Device_index; cbn [src_name_ src_description_ src_config_].
  split.
  - rewrite (erase_first_length _ _ _ _ _ _ _ E).
    destruct (existsb (fun n => String.eqb n device) (src_name_ dv)) eqn:Ex;
      [|lia].
    assert (0 < List.length (src_name_ dv))%nat; [|lia].
    destruct (src_name_ dv); [discriminate | cbn; lia].
  - intros other Ho.
    rewrite !first_position_exists, !at_index_position.
    pose proof (erase_first_other _ _ _ _ _ _ _ other E Ho) as P.
    destruct (first_position other ns), (first_position other (src_name_ dv));
      try contradiction.
    + destruct P as [P1 P2]. rewrite P1, P2. auto.
    + auto.
Qed.

(** X4 -- unplugging: after the monitor handled the removal of a
    device, a source of that device has failed, unless the name was
    listed twice or more (one entry of that name is left, and the
    source goes on); a source of a device of another name has failed
    exactly when that device is not listed. *)
Theorem unplugged_device_fails_unless_its_name_is_listed_twice
    (dv : Device DeviceConfigSet) (name : string) :
  aligned dv ->
  exists dv',
    callback_device_monitor getDeviceConfigs dv (DEVICE_REMOVED name)
    = Some dv'
    /\ (DeviceSource_failed false dv' name = true
        <-> (count_occ string_dec (src_name_ dv) name <= 1)%nat)
    /\ forall other, other <> name ->
         DeviceSource_failed false dv' other = negb (Device_exists dv other).
Proof.
  intros [Hd Hc]. cbn [callback_device_monitor]. unfold Device_remove.
  destruct (erase_first_defined name _ _ _ Hd Hc)
    as (ns & ds & cs & E & H1 & H2).
  rewrite E. eexists; split; [reflexivity|].
  unfold DeviceSource_failed, unplugged, Device_exists;
    cbn [src_name_ list_uptodate_ orb].
  split.
  - rewrite exists_count, (erase_first_count _ _ _ _ _ _ _ E).
    destruct (Nat.ltb_spec 0
                (Nat.pred (count_occ string_dec (src_name_ dv) name)));
      cbn; split; intros; try lia; discriminate.
  - intros other Ho. rewrite !first_position_exists.
    pose proof (erase_first_other _ _ _ _ _ _ _ other E Ho) as P.
    destruct (first_position other ns), (first_position other (src_name_ dv));
      try contradiction; reflexivity.
Qed.

(** X5 -- plugging: the new device is listed last, with the
    description made of its api and its path, and a source of it has
    not failed; the devices that were listed keep their index, their
    description and their configurations -- so a lookup by name finds
    the new device only when no device of that name was listed. *)
Theorem plugged_device_is_listed_last
    (dv : Device DeviceConfigSet) (name api path : string) :
  aligned dv ->
  exists dv',
    callback_device_monitor getDeviceConfigs dv (DEVICE_ADDED name api path)
    = Some dv'
    /\ numDevices dv' = (numDevices dv + 1)%Z
    /\ Device_name dv' (numDevices dv) = name
    /\ Device_description dv' (numDevices dv)
       = (api ++ "src name=devsrc device=" ++ path)%string
    /\ DeviceSource_failed false dv' name = false
    /\ (Device_exists dv name = false ->
        Device_index dv' name = numDevices dv)
    /\ forall other, Device_exists dv other = true ->
         Device_index dv' other = Device_index dv other
         /\ Device_description dv' (Device_index dv' other)
            = Device_description dv (Device_index dv other)
         /\ Device_config DeviceConfigSet_empty dv' (Device_index dv' other)
            = Device_config DeviceConfigSet_empty dv (Device_index dv other).
Proof.
  intros [Hd Hc]. eexists; split; [reflexivity|].
  unfold DeviceSource_failed, unplugged, numDevices, Device_exists,
    Device_name, Device_description, Device_config, Device_index;
    cbn [src_name_ src_description_ src_config_ list_uptodate_ orb].
  rewrite !at_index_nth.
  split; [rewrite length_app; cbn; lia|].
  split; [rewrite app_nth2, Nat.sub_diag by lia; reflexivity|].
  split; [rewrite <- Hd, app_nth2, Nat.sub_diag by lia; reflexivity|].
  split.
  { rewrite first_position_exists, first_position_app, String.eqb_refl.
    destruct (first_position name (src_name_ dv)); reflexivity. }
  split.
  { rewrite first_position_exists, !find_distance_position,
      first_position_app, String.eqb_refl.
    destruct (first_position name (src_name_ dv)); [discriminate|].
    intros _. lia. }
  intros other. rewrite first_position_exists, !at_index_position,
    !find_distance_position, first_position_app.
  destruct (first_position other (src_name_ dv)) as [k|] eqn:P;
    [|discriminate].
  intros _. destruct (first_position_bound _ _ _ P) as [Hk _].
  split; [reflexivity|].
  split; apply app_nth1; lia.
Qed.

End DeviceProperties.

Section DeviceConstruction.

Context {DeviceConfigSet : Type}.
Variable DeviceConfigSet_empty : DeviceConfigSet.
Variable getDeviceConfigs : string -> DeviceConfigSet.
Variable confscreen : DeviceConfigSet -> option DeviceConfigSet.

Lemma initial_fill (devices : list (string * string * string))
    (dv : Device DeviceConfigSet) :
  aligned dv ->
  let dv' :=
    fold_left
      (fun dv device =>
         let '(name, api, path) := device in
         let pipe := (api ++ "src name=devsrc device=" ++ path)%string in
         mkDevice (src_name_ dv ++ [name]) (src_description_ dv ++ [pipe])
                  (src_config_ dv ++ [getDeviceConfigs pipe])
                  (list_uptodate_ dv))
      devices dv in
  aligned dv'
  /\ src_name_ dv' = src_name_ dv ++ map (fun d => fst (fst d)) devices.
Proof.
  revert dv; induction devices as [|[[name api] path] rest IH]; intros dv Ha.
  - cbn. rewrite app_nil_r. auto.
  - cbn [fold_left map fst].
    match goal with |- context [fold_left _ rest ?d] =>
      destruct (IH d) as [H1 H2] end.
    { destruct Ha as [Hd Hc]. split; cbn; rewrite !length_app; cbn; lia. }
    cbv zeta in *. split; [exact H1|].
    rewrite H2. cbn [src_name_]. rewrite <- app_assoc. reflexivity.
Qed.

(** X28 -- the list a [Device] starts with: when the screen has a
    configuration, the list is built, with one description and one
    configuration set per name; it holds the devices the monitor knew,
    in their order, then the screen, and no device counts as unplugged
    yet. *)
Theorem initial_list_is_aligned_and_ends_with_the_screen
    (devices : list (string * string * string)) (confs : DeviceConfigSet) :
  confscreen (getDeviceConfigs "ximagesrc name=devsrc") = Some confs ->
  exists dv,
    Device_Device getDeviceConfigs confscreen devices = Some dv
    /\ aligned dv
    /\ src_name_ dv
       = map (fun d => fst (fst d)) devices ++ ["Screen"%string]
    /\ Device_name dv (numDevices dv - 1) = "Screen"%string
    /\ Device_description dv (numDevices dv - 1) = "ximagesrc "%string
    /\ Device_config DeviceConfigSet_empty dv (numDevices dv - 1) = confs
    /\ Device_exists dv "Screen" = true
    /\ forall device, unplugged dv device = false.
Proof.
  intro Hc. unfold Device_Device. rewrite Hc. cbv zeta.
  match goal with |- context [fold_left ?f devices ?d] =>
    destruct (initial_fill devices d) as [[Hd Hcf] Hn];
      [split; reflexivity|];
    set (dv0 := fold_left f devices d) in *
  end.
  cbv zeta in *. cbn [src_name_ app] in Hn.
  eexists; split; [reflexivity|].
  unfold aligned, Device_name, Device_description, Device_config, numDevices,
    Device_exists, unplugged;
    cbn [src_name_ src_description_ src_config_ list_uptodate_].
  split; [split; rewrite !length_app; cbn; lia|].
  split; [rewrite Hn; reflexivity|].
  assert (E : (Z.of_nat (List.length (src_name_ dv0 ++ ["Screen"%string]))
               - 1)%Z
              = Z.of_nat (List.length (src_name_ dv0))).
  { rewrite length_app. cbn. lia. }
  rewrite E, !at_index_nth.
  split; [rewrite app_nth2, Nat.sub_diag by lia; reflexivity|].
  split; [rewrite <- Hd, app_nth2, Nat.sub_diag by lia; reflexivity|].
  split; [rewrite <- Hcf, app_nth2, Nat.sub_diag by lia; reflexivity|].
  split; [|reflexivity].
  rewrite existsb_app. cbn. apply orb_true_r.
Qed.

End DeviceConstruction.

Lemma ex_device_aligned : aligned ex_device.
Proof. split; reflexivity. Qed.

Lemma device_monitor_keeps_vectors_aligned_witness :
  aligned ex_device
  /\ exists dv',
       device_messages (fun _ => []) ex_device
         [DEVICE_ADDED "Camera" "v4l2" "/dev/video1";
          DEVICE_REMOVED "Webcam"]%string = Some dv'
       /\ aligned dv'.
Proof.
  split; [split; reflexivity|].
  apply device_monitor_keeps_vectors_aligned. split; reflexivity.
Defined.

Lemma remove_erases_one_device_and_keeps_the_others_witness :
  aligned ex_device
  /\ exists dv',
       Device_remove ex_device "Webcam"%string = Some dv'
       /\ numDevices dv'
          = (numDevices ex_device
             - if Device_exists ex_device "Webcam"%string then 1 else 0)%Z
       /\ forall other, other <> "Webcam"%string ->
            Device_exists dv' other = Device_exists ex_device other
            /\ Device_description dv' (Device_index dv' other)
               = Device_description ex_device (Device_index ex_device other)
            /\ Device_config [] dv' (Device_index dv' other)
               = Device_config [] ex_device (Device_index ex_device other).
Proof.
  split; [split; reflexivity|].
  apply remove_erases_one_device_and_keeps_the_others. split; reflexivity.
Defined.

Lemma unplugged_device_fails_unless_its_name_is_listed_twice_witness :
  aligned ex_device
  /\ exists dv',
       callback_device_monitor (fun _ => []) ex_device
         (DEVICE_REMOVED "Webcam"%string) = Some dv'
       /\ (DeviceSource_failed false dv' "Webcam"%string = true
           <-> (count_occ string_dec (src_name_ ex_device) "Webcam"%string
                <= 1)%nat)
       /\ forall other, other <> "Webcam"%string ->
            DeviceSource_failed false dv' other
            = negb (Device_exists ex_device other).
Proof.
  split; [split; reflexivity|].
  apply unplugged_device_fails_unless_its_name_is_listed_twice.
  split; reflexivity.
Defined.

Lemma plugged_device_is_listed_last_witness :
  aligned ex_device
  /\ exists dv',
       callback_device_monitor (fun _ => []) ex_device
         (DEVICE_ADDED "Camera" "v4l2" "/dev/video1")%string = Some dv'
       /\ numDevices dv' = (numDevices ex_device + 1)%Z
       /\ Device_name dv' (numDevices ex_device) = "Camera"%string
       /\ Device_description dv' (numDevices ex_device)
          = ("v4l2" ++ "src name=devsrc device=" ++ "/dev/video1")%string
       /\ DeviceSource_failed false dv' "Camera"%string = false
       /\ (Device_exists ex_device "Camera"%string = false ->
           Device_index dv' "Camera"%string = numDevices ex_device)
       /\ forall other, Device_exists ex_device other = true ->
            Device_index dv' other = Device_index ex_device other
            /\ Device_description dv' (Device_index dv' other)
               = Device_description ex_device (Device_index ex_device other)
            /\ Device_config [] dv' (Device_index dv' other)
               = Device_config [] ex_device (Device_index ex_device other).
Proof.
  split; [split; reflexivity|].
  apply (plugged_device_is_listed_last []). split; reflexivity.
Defined.

(** ** Projection to the window and back *)

Lemma mulv_inverse_r (m : mat4) (v : vec4) :
  det m <> 0 -> mulv m (mulv (inverse m) v) = v.
Proof.
  destruct_mat m; destruct v as [vx vy vz vw].
  intro Hd. apply vec4_ext; revert Hd; glm_unfold; intro Hd;
  field; intro Hz; apply Hd; rewrite <- Hz; ring.
Qed.

Lemma affine_inverse_w (m : mat4) (v : vec4) :
  affine m -> det m <> 0 -> w4 (mulv (inverse m) v) = w4 v.
Proof.
  destruct_mat m; destruct v as [vx vy vz vw].
  unfold affine; cbn [c0 c1 c2 c3 w4]. intros (-> & -> & -> & ->).
  glm_unfold. intro Hd.
  field. intro Hz; apply Hd. etransitivity; [|exact Hz]. ring.
Qed.

Lemma affine_mulm (a b : mat4) : affine a -> affine b -> affine (mulm a b).
Proof.
  destruct_mat a; destruct_mat b.
  unfold affine; cbn [c0 c1 c2 c3 w4].
  intros (-> & -> & -> & ->) (-> & -> & -> & ->).
  glm_unfold. repeat split; ring.
Qed.

Lemma affine_identity : affine identity.
Proof. unfold affine; cbn; auto. Qed.

Lemma div4_one (q : vec4) : w4 q = 1 -> vec4_of (vec3_of (div4 q (w4 q))) 1 = q.
Proof.
  destruct q as [a b c d]; cbn. intros ->.
  unfold div4, vec3_of, vec4_of; cbn. f_equal; field.
Qed.

Lemma glm_unProject_eq (win : vec3) (model proj : mat4) (viewport : vec4) :
  glm_unProject win model proj viewport
  = let q := mulv (inverse (mulm proj model)) (to_ndc win viewport) in
    vec3_of (div4 q (w4 q)).
Proof. reflexivity. Qed.

Lemma glm_project_eq (obj : vec3) (model proj : mat4) (viewport : vec4) :
  glm_project obj model proj viewport
  = let q := mulv (mulm proj model) (vec4_of obj 1) in
    of_ndc (div4 q (w4 q)) viewport.
Proof.
  rewrite mulm_mulv. reflexivity.
Qed.

Lemma of_ndc_to_ndc (win : vec3) (viewport : vec4) :
  z4 viewport <> 0 -> w4 viewport <> 0 ->
  of_ndc (div4 (to_ndc win viewport) (w4 (to_ndc win viewport))) viewport
  = win.
Proof.
  destruct win as [a b c], viewport as [vx vy vw vh]; cbn.
  intros Hw Hh. unfold of_ndc, div4, to_ndc; cbn. f_equal; field; assumption.
Qed.

Lemma glm_project_unProject (win : vec3) (model proj : mat4)
    (viewport : vec4) :
  affine (mulm proj model) -> det (mulm proj model) <> 0 ->
  z4 viewport <> 0 -> w4 viewport <> 0 ->
  glm_project (glm_unProject win model proj viewport) model proj viewport
  = win.
Proof.
  intros Ha Hd Hw Hh.
  rewrite glm_project_eq, glm_unProject_eq. cbv zeta.
  set (A := mulm proj model) in *.
  assert (Hq : w4 (mulv (inverse A) (to_ndc win viewport)) = 1).
  { rewrite (affine_inverse_w A _ Ha Hd). cbn [to_ndc w4]. ring. }
  rewrite (div4_one _ Hq), (mulv_inverse_r A _ Hd).
  apply of_ndc_to_ndc; assumption.
Qed.

Lemma mulv_identity (v : vec4) : mulv identity v = v.
Proof. destruct v; apply vec4_ext; glm_unfold; ring. Qed.

Lemma mulm_identity_r (m : mat4) : mulm m identity = m.
Proof.
  destruct_mat m. apply mat4_ext; apply vec4_ext; glm_unfold; ring.
Qed.

Lemma det_identity : det identity = 1.
Proof. glm_unfold. ring. Qed.

Lemma affine_ortho (l r b t n f : R) : affine (glm_ortho l r b t n f).
Proof. unfold affine; cbn; auto. Qed.

Lemma affine_scale (v : vec3) : affine (glm.scale identity v).
Proof. unfold affine. glm_unfold. repeat split; ring. Qed.

Lemma det_ortho (U D : R) :
  U <> 0 -> D <> -1 ->
  det (glm_ortho (- U) U (- U) U (- D) 1) = - 2 / (U * U * (1 + D)).
Proof.
  intros HU HD. unfold glm_ortho. glm_unfold. field.
  repeat split; lra.
Qed.

Lemma det_scale (v : vec3) : det (glm.scale identity v) = x3 v * y3 v * z3 v.
Proof. destruct v. glm_unfold. ring. Qed.

Section Camera.

Variable SCENE_UNIT : R.
Variable SCENE_DEPTH : R.
Variable main_ : RenderingWindow.

Hypothesis HU : SCENE_UNIT <> 0.
Hypothesis HD : SCENE_DEPTH <> -1.
Hypothesis HW : width main_ <> 0%Z.
Hypothesis HH : height main_ <> 0%Z.

Lemma affine_Projection : affine (Projection SCENE_UNIT SCENE_DEPTH main_).
Proof. apply affine_mulm; [apply affine_ortho | apply affine_scale]. Qed.

Lemma det_Projection :
  det (Projection SCENE_UNIT SCENE_DEPTH main_) <> 0.
Proof.
  unfold Projection. cbv zeta.
  rewrite det_mulm, (det_ortho _ _ HU HD), det_scale.
  cbn [x3 y3 z3]. unfold RenderingWindow_aspectRatio.
  pose proof (not_0_IZR _ HW) as Hw. pose proof (not_0_IZR _ HH) as Hh.
  unfold width in Hw; unfold height in Hh.
  assert (E : - 2 / (SCENE_UNIT * SCENE_UNIT * (1 + SCENE_DEPTH))
              * (1 * (IZR (viewport_x main_) / IZR (viewport_y main_)) * 1)
              = (- 2 * IZR (viewport_x main_))
                * / (SCENE_UNIT * SCENE_UNIT * (1 + SCENE_DEPTH)
                     * IZR (viewport_y main_))).
  { field. repeat split; lra. }
  rewrite E. apply Rmult_integral_contrapositive. split.
  - intro Hz. apply Hw. lra.
  - apply Rinv_neq_0_compat.
    repeat apply Rmult_integral_contrapositive_currified; lra.
Qed.

Lemma affine_modelview (modelview : mat4) :
  affine modelview ->
  affine (mulm (Projection SCENE_UNIT SCENE_DEPTH main_) modelview).
Proof. intro. apply affine_mulm; [apply affine_Projection | assumption]. Qed.

Lemma det_modelview (modelview : mat4) :
  det modelview <> 0 ->
  det (mulm (Projection SCENE_UNIT SCENE_DEPTH main_) modelview) <> 0.
Proof.
  intro. rewrite det_mulm. apply Rmult_integral_contrapositive.
  split; [apply det_Projection | assumption].
Qed.

Lemma project_unProject_camera (p : vec2) (modelview : mat4) :
  affine modelview -> det modelview <> 0 ->
  Rendering_project SCENE_UNIT SCENE_DEPTH main_
    (Rendering_unProject SCENE_UNIT SCENE_DEPTH main_ p modelview)
    modelview true = p.
Proof.
  intros Ha Hd. unfold Rendering_project, Rendering_unProject. cbv zeta.
  rewrite glm_project_unProject.
  - destruct p as [px py]. cbn [x3 y3 w4 x2 y2]. f_equal. ring.
  - apply affine_modelview; assumption.
  - apply det_modelview; assumption.
  - cbn [z4]. apply not_0_IZR; assumption.
  - cbn [w4]. apply not_0_IZR; assumption.
Qed.

(** The point [unProject] computes is the one and only point that the
    projection sends to the normalised coordinates of the pixel. *)
Lemma unProject_unique (p : vec2) (modelview : mat4) (q : vec4) :
  affine modelview -> det modelview <> 0 ->
  mulv (mulm (Projection SCENE_UNIT SCENE_DEPTH main_) modelview) q
  = to_ndc (mkvec3 (x2 p) (IZR (height main_) - y2 p) 0)
           (mkvec4 0 0 (IZR (width main_)) (IZR (height main_))) ->
  Rendering_unProject SCENE_UNIT SCENE_DEPTH main_ p modelview = vec3_of q.
Proof.
  intros Ha Hd Hq. unfold Rendering_unProject. cbv zeta.
  rewrite glm_unProject_eq. cbv zeta. rewrite <- Hq.
  rewrite (inverse_mulv_l _ _ (det_modelview _ Hd)).
  assert (Hw : w4 q = 1).
  { rewrite <- (inverse_mulv_l _ q (det_modelview _ Hd)).
    rewrite (affine_inverse_w _ _ (affine_modelview _ Ha)
               (det_modelview _ Hd)).
    rewrite Hq. cbn [to_ndc w4]. ring. }
  rewrite Hw. destruct q as [a b c d]. unfold div4, vec3_of; cbn.
  f_equal; field.
Qed.

Lemma unProject_w (p : vec2) (modelview : mat4) :
  affine modelview -> det modelview <> 0 ->
  mulv (mulm (Projection SCENE_UNIT SCENE_DEPTH main_) modelview)
       (vec4_of (Rendering_unProject SCENE_UNIT SCENE_DEPTH main_ p modelview)
                1)
  = to_ndc (mkvec3 (x2 p) (IZR (height main_) - y2 p) 0)
           (mkvec4 0 0 (IZR (width main_)) (IZR (height main_))).
Proof.
  intros Ha Hd. unfold Rendering_unProject. cbv zeta.
  rewrite glm_unProject_eq. cbv zeta.
  set (n := to_ndc _ _).
  assert (Hq : w4 (mulv (inverse (mulm (Projection SCENE_UNIT SCENE_DEPTH main_)
                                   modelview)) n) = 1).
  { rewrite (affine_inverse_w _ _ (affine_modelview _ Ha)
               (det_modelview _ Hd)).
    unfold n. cbn [to_ndc w4]. ring. }
  rewrite (div4_one _ Hq). apply mulv_inverse_r. apply det_modelview, Hd.
Qed.

Lemma unProject_child_frame (p : vec2) (parent child : mat4) :
  affine parent -> det parent <> 0 -> affine child -> det child <> 0 ->
  Rendering_unProject SCENE_UNIT SCENE_DEPTH main_ p (mulm parent child)
  = vec3_of
      (mulv (inverse child)
         (vec4_of (Rendering_unProject SCENE_UNIT SCENE_DEPTH main_ p parent)
                  1)).
Proof.
  intros Hap Hdp Hac Hdc.
  apply unProject_unique.
  - apply affine_mulm; assumption.
  - rewrite det_mulm. apply Rmult_integral_contrapositive; split; assumption.
  - rewrite !mulm_mulv, (mulv_inverse_r _ _ Hdc), <- mulm_mulv.
    apply unProject_w; assumption.
Qed.

Lemma unProject_identity (p : vec2) :
  Rendering_unProject SCENE_UNIT SCENE_DEPTH main_ p identity
  = mkvec3 (SCENE_UNIT * (2 * x2 p - IZR (width main_)) / IZR (width main_))
           (SCENE_UNIT * (IZR (height main_) - 2 * y2 p) / IZR (width main_))
           SCENE_DEPTH.
Proof.
  pose proof (not_0_IZR _ HW) as Hw. pose proof (not_0_IZR _ HH) as Hh.
  set (t := mkvec3 _ _ _).
  change t with (vec3_of (vec4_of t 1)).
  apply unProject_unique.
  - apply affine_identity.
  - rewrite det_identity. lra.
  - rewrite mulm_identity_r. unfold Projection, t. cbv zeta.
    unfold RenderingWindow_aspectRatio, width, height in *.
    destruct p as [px py].
    apply vec4_ext; unfold glm_ortho, to_ndc; glm_unfold;
      field; repeat split; lra.
Qed.

End Camera.

(** X6 -- [project] undoes [unProject]: for a window with a size and a
    modelview that keeps the last row (0, 0, 0, 1) and can be inverted,
    the point [unProject] gives for a pixel is projected back, in the
    frame buffer, on that pixel. *)
Theorem project_of_unProject_is_the_pixel
    (SCENE_UNIT SCENE_DEPTH : R) (main_ : RenderingWindow)
    (p : vec2) (modelview : mat4) :
  SCENE_UNIT <> 0 -> SCENE_DEPTH <> -1 ->
  width main_ <> 0%Z -> height main_ <> 0%Z ->
  affine modelview -> det modelview <> 0 ->
  Rendering_project SCENE_UNIT SCENE_DEPTH main_
    (Rendering_unProject SCENE_UNIT SCENE_DEPTH main_ p modelview)
    modelview true = p.
Proof.
  intros. apply project_unProject_camera; assumption.
Qed.

(** X7 -- where a pixel is in the scene: with the identity as
    modelview, [unProject] sends the pixel (x, y) of a window of W x H
    pixels to SCENE_UNIT (2x - W) / W across, SCENE_UNIT (H - 2y) / W
    up, at the depth SCENE_DEPTH: the middle of the window is the
    origin and a pixel has the same size on both axes. *)
Theorem unProject_of_a_pixel
    (SCENE_UNIT SCENE_DEPTH : R) (main_ : RenderingWindow) (p : vec2) :
  SCENE_UNIT <> 0 -> SCENE_DEPTH <> -1 ->
  width main_ <> 0%Z -> height main_ <> 0%Z ->
  Rendering_unProject SCENE_UNIT SCENE_DEPTH main_ p identity
  = mkvec3 (SCENE_UNIT * (2 * x2 p - IZR (width main_)) / IZR (width main_))
           (SCENE_UNIT * (IZR (height main_) - 2 * y2 p) / IZR (width main_))
           SCENE_DEPTH.
Proof.
  intros. apply unProject_identity; assumption.
Qed.

(** X8 -- [unProject] in the frame of a child: for two transforms that
    keep the last row (0, 0, 0, 1) and can be inverted, unprojecting a
    pixel with their product as modelview is unprojecting it with the
    parent and applying the inverse of the child, which is how [grab]
    goes from the scene to the frame of a source. *)
Theorem unProject_in_the_frame_of_a_child
    (SCENE_UNIT SCENE_DEPTH : R) (main_ : RenderingWindow)
    (p : vec2) (parent child : mat4) :
  SCENE_UNIT <> 0 -> SCENE_DEPTH <> -1 ->
  width main_ <> 0%Z -> height main_ <> 0%Z ->
  affine parent -> det parent <> 0 -> affine child -> det child <> 0 ->
  Rendering_unProject SCENE_UNIT SCENE_DEPTH main_ p (mulm parent child)
  = vec3_of
      (mulv (inverse child)
         (vec4_of (Rendering_unProject SCENE_UNIT SCENE_DEPTH main_ p parent)
                  1)).
Proof.
  intros. apply unProject_child_frame; assumption.
Qed.

Lemma mulm_identity_l (m : mat4) : mulm identity m = m.
Proof.
  destruct_mat m. apply mat4_ext; apply vec4_ext; glm_unfold; ring.
Qed.

Lemma affine_transform (t r s : vec3) : affine (GlmToolkit_transform t r s).
Proof.
  rewrite GlmToolkit_transform_eq. unfold affine; cbn; auto.
Qed.

Section CameraOfTheView.

Variable SCENE_UNIT : R.
Variable SCENE_DEPTH : R.
Variable main_ : RenderingWindow.

Hypothesis HU : SCENE_UNIT <> 0.
Hypothesis HD : SCENE_DEPTH <> -1.
Hypothesis HW : width main_ <> 0%Z.
Hypothesis HH : height main_ <> 0%Z.

Variable root : Node.
Variable v : GeometryView.

Hypothesis Hroot : nondegenerate root.
Hypothesis Hflat : z3 (rotation_ root) = 0.
Hypothesis Hv : scene_root_transform_ v = transform_ (Node_update root).

Lemma scene_point_camera (P : vec2) :
  scene_point (Rendering_unProject SCENE_UNIT SCENE_DEPTH main_) v P
  = mkvec3
      ((SCENE_UNIT * (2 * x2 P - IZR (width main_)) / IZR (width main_)
        - x3 (translation_ root)) / x3 (scale_ root))
      ((SCENE_UNIT * (IZR (height main_) - 2 * y2 P) / IZR (width main_)
        - y3 (translation_ root)) / y3 (scale_ root))
      ((SCENE_DEPTH - z3 (translation_ root)) / z3 (scale_ root)).
Proof.
  destruct Hroot as (Hx & Hy & Hz).
  unfold scene_point. rewrite Hv, Node_update_transform.
  set (T := GlmToolkit_transform _ _ _).
  assert (HdT : det T <> 0) by (apply det_transform_neq; assumption).
  rewrite <- (mulm_identity_l T).
  rewrite (unProject_child_frame SCENE_UNIT SCENE_DEPTH main_ HU HD HW HH)
    by (try apply affine_identity; try apply affine_transform;
        try (rewrite det_identity; lra); exact HdT).
  rewrite (unProject_identity SCENE_UNIT SCENE_DEPTH main_ HU HD HW HH).
  match goal with |- _ = ?rhs => set (q := rhs) end.
  match goal with |- context [mulv (inverse T) ?x] => set (w := x) end.
  assert (E : w = mulv T (vec4_of q 1)).
  { unfold T. rewrite transform_mulv, Hflat, cos_0, sin_0.
    unfold w, q, vec4_of; cbn [x3 y3 z3 x4 y4 z4 w4].
    pose proof (not_0_IZR _ HW) as Hw.
    f_equal; field; repeat split; assumption. }
  rewrite E, (inverse_mulv_l _ _ HdT). reflexivity.
Qed.

End CameraOfTheView.

(** X24 -- a plain move under the camera of the main window: when the
    scene root is not rotated, a drag without modifier translates the
    source, from where it was when the drag began, by the pointer
    displacement in pixels times the size of a pixel, 2 SCENE_UNIT over
    the width of the window, divided by the scale of the scene root;
    the vertical axis is reversed and the depth is left. *)
Theorem move_follows_the_pointer
    (SCENE_UNIT SCENE_DEPTH : R) (main_ : RenderingWindow) (root : Node)
    (v : GeometryView) (s : Source) (from to : vec2) (n : NodeId) (p : vec2)
    (ui : UserInterface) :
  SCENE_UNIT <> 0 -> SCENE_DEPTH <> -1 ->
  width main_ <> 0%Z -> height main_ <> 0%Z ->
  nondegenerate root -> z3 (rotation_ root) = 0 ->
  scene_root_transform_ v = transform_ (Node_update root) ->
  picked_handle s n = None ->
  shiftModifier ui = false -> altModifier ui = false ->
  let s' :=
    snd (update_call (Rendering_unProject SCENE_UNIT SCENE_DEPTH main_)
           from (Some n, p) (v, s) (to, ui)) in
  let pixel := 2 * SCENE_UNIT / IZR (width main_) in
  translation_ (group_ s')
  = add3 (translation_ (stored_status_ s))
         (mkvec3 (pixel * (x2 to - x2 from) / x3 (scale_ root))
                 (- pixel * (y2 to - y2 from) / y3 (scale_ root)) 0).
Proof.
  intros HU HD HW HH Hroot Hflat Hv Hk Hsh Hal s' pixel. subst s' pixel.
  rewrite (move_plain_translation _ from to n p v s ui Hk Hsh Hal).
  rewrite !(scene_point_camera SCENE_UNIT SCENE_DEPTH main_ HU HD HW HH
              root v Hroot Hflat Hv).
  destruct Hroot as (Hx & Hy & Hz).
  pose proof (not_0_IZR _ HW) as Hw.
  unfold add3, sub3; cbn [x3 y3 z3]. f_equal; field; repeat split; assumption.
Qed.

(** ** The output window *)

(** X9 -- the frame buffer is drawn inside the window: both components
    of the scale lie in (0, 1], one of them is 1, and the scaled
    surface has the aspect ratio of the frame buffer. *)
Theorem window_surface_fits_and_keeps_the_aspect_ratio
    (windowAspectRatio renderingAspectRatio : R) :
  0 < windowAspectRatio -> 0 < renderingAspectRatio ->
  let scale := window_surface_scale windowAspectRatio renderingAspectRatio in
  0 < x3 scale <= 1 /\ 0 < y3 scale <= 1
  /\ (x3 scale = 1 \/ y3 scale = 1)
  /\ x3 scale * windowAspectRatio / y3 scale = renderingAspectRatio.
Proof.
  intros Hw Hr. unfold window_surface_scale, Rltb'.
  destruct (Rlt_dec windowAspectRatio renderingAspectRatio) as [Hlt|Hge];
    cbn [x3 y3 z3].
  - assert (Hq : 0 < windowAspectRatio / renderingAspectRatio)
      by (apply Rdiv_lt_0_compat; assumption).
    assert (Hq1 : windowAspectRatio / renderingAspectRatio < 1).
    { apply (Rmult_lt_reg_r renderingAspectRatio); [assumption|].
      unfold Rdiv. rewrite Rmult_assoc, Rinv_l by lra. lra. }
    split; [lra|]. split; [lra|]. split; [left; reflexivity|]. field. lra.
  - assert (Hq : 0 < renderingAspectRatio / windowAspectRatio)
      by (apply Rdiv_lt_0_compat; assumption).
    assert (Hq1 : renderingAspectRatio / windowAspectRatio <= 1).
    { apply (Rmult_le_reg_r windowAspectRatio); [assumption|].
      unfold Rdiv. rewrite Rmult_assoc, Rinv_l by lra. lra. }
    split; [lra|]. split; [lra|]. split; [right; reflexivity|]. field. lra.
Qed.

Lemma window_surface_fits_and_keeps_the_aspect_ratio_witness :
  let scale := window_surface_scale (4 / 3) (16 / 9) in
  0 < x3 scale <= 1 /\ 0 < y3 scale <= 1
  /\ (x3 scale = 1 \/ y3 scale = 1)
  /\ x3 scale * (4 / 3) / y3 scale = 16 / 9.
Proof.
  apply window_surface_fits_and_keeps_the_aspect_ratio; lra.
Defined.

(** ** The pile of rendering attributes *)

Section AttributesProperties.

Context {RenderingAttrib : Type}.

Implicit Types st : AttribState RenderingAttrib.

Lemma pop_push ra st : in_sync st -> popAttrib (pushAttrib ra st) = st.
Proof.
  destruct st as [mn pile gl]. unfold in_sync, popAttrib, pushAttrib.
  cbn. intros ->. reflexivity.
Qed.

Lemma in_sync_push ra st : in_sync (pushAttrib ra st).
Proof. reflexivity. Qed.

Lemma in_sync_pop st : in_sync (popAttrib st).
Proof. destruct st as [mn [|a pile] gl]; reflexivity. Qed.

Lemma pop_times_succ n st :
  pop_times (S n) st = pop_times n (popAttrib st).
Proof.
  unfold pop_times. apply Nat.iter_succ_r.
Qed.

(** X10 -- attributes that are pushed and popped in pairs: when OpenGL
    has the current attributes, popping as many times as was pushed
    gives back the pile and the attributes of OpenGL as they were; and
    the current attributes are always the last ones pushed. *)
Theorem popped_attributes_are_restored (ras : list RenderingAttrib) st :
  in_sync st ->
  pop_times (List.length ras) (push_all ras st) = st
  /\ forall ra, currentAttrib (push_all (ras ++ [ra]) st) = ra.
Proof.
  intro Hs. split.
  - revert st Hs. induction ras as [|ra ras IH] using rev_ind; intros st Hs;
      [reflexivity|].
    unfold push_all. rewrite fold_left_app, length_app, Nat.add_comm.
    cbn [List.length Nat.add fold_left].
    rewrite pop_times_succ, pop_push.
    + apply IH, Hs.
    + destruct ras as [|b ras'] using rev_ind; [exact Hs|].
      rewrite fold_left_app. apply in_sync_push.
  - intro ra. unfold push_all. rewrite fold_left_app. reflexivity.
Qed.

(** X11 -- popping more than was pushed: once the pile is empty,
    [popAttrib] leaves it empty and gives OpenGL the attributes of the
    main window. *)
Theorem popping_an_empty_pile_gives_the_main_attributes (n : nat) st :
  (List.length (draw_attributes_ st) <= n)%nat -> (0 < n)%nat ->
  pop_times n st = mkAttribState (main_attribs st) [] (main_attribs st).
Proof.
  revert st; induction n as [|n IH]; intros st Hn Hp; [lia|].
  rewrite pop_times_succ.
  destruct n as [|n].
  - destruct st as [mn [|a [|b pile]] gl]; cbn in Hn; try lia; reflexivity.
  - rewrite IH; [| |lia].
    + destruct st as [mn [|a pile] gl]; reflexivity.
    + destruct st as [mn [|a pile] gl]; cbn in *; lia.
Qed.

End AttributesProperties.

Lemma popped_attributes_are_restored_witness :
  let st := mkAttribState (1280, 720)%Z [] (1280, 720)%Z in
  in_sync st
  /\ pop_times 2 (push_all [(640, 480); (320, 240)]%Z st) = st
  /\ forall ra, currentAttrib
                  (push_all ([(640, 480); (320, 240)]%Z ++ [ra]) st) = ra.
Proof.
  split; [reflexivity|].
  apply (popped_attributes_are_restored [(640, 480); (320, 240)]%Z).
  reflexivity.
Defined.

Lemma popping_an_empty_pile_gives_the_main_attributes_witness :
  let st := mkAttribState (1280, 720)%Z [(640, 480)%Z] (640, 480)%Z in
  pop_times 3 st = mkAttribState (main_attribs st) [] (main_attribs st).
Proof.
  apply popping_an_empty_pile_gives_the_main_attributes; cbn; lia.
Defined.

(** ** What a pick changes *)

Lemma unique_ids_eq (l : list Source) (a b : Source) :
  NoDup (map id_ l) -> In a l -> In b l -> id_ a = id_ b -> a = b.
Proof.
  induction l as [|e l IH]; cbn; [contradiction|].
  intros Hnd Ha Hb Hid. inversion Hnd as [|? ? Hnotin Hnd']; subst.
  destruct Ha as [->|Ha], Hb as [->|Hb].
  - reflexivity.
  - exfalso; apply Hnotin. rewrite Hid. apply in_map; assumption.
  - exfalso; apply Hnotin. rewrite <- Hid. apply in_map; assumption.
  - apply IH; assumption.
Qed.

Lemma store_setLocked (m : Mixer) (s : Source) (b : bool) :
  unique_ids m -> In s (session_ m) ->
  map (fun e => setLocked e false) (session_ (store m (setLocked s b)))
  = map (fun e => setLocked e false) (session_ m).
Proof.
  intros Hu Hs. unfold store. cbn [session_]. rewrite map_map.
  apply map_ext_in. intros e He.
  change (id_ (setLocked s b)) with (id_ s).
  destruct (Nat.eqb_spec (id_ e) (id_ s)) as [Hid|]; [|reflexivity].
  rewrite (unique_ids_eq _ e s Hu He Hs Hid). reflexivity.
Qed.

Lemma currentSource_In (m : Mixer) (s : Source) :
  currentSource m = Some s -> In s (session_ m).
Proof.
  unfold currentSource. destruct (current_ m); [|discriminate].
  intro H. apply find_some in H. tauto.
Qed.

Lemma findSource_In (m : Mixer) (n : nat) (s : Source) :
  findSource m n = Some s -> In s (session_ m) /\ hasNode n (Some s) = true.
Proof. unfold findSource. apply find_some. Qed.

Lemma same_but_locks_refl m : same_but_locks m m.
Proof. repeat split. Qed.

Lemma same_but_locks_store m s b :
  unique_ids m -> In s (session_ m) ->
  same_but_locks (store m (setLocked s b)) m.
Proof.
  intros Hu Hs. split; [apply store_setLocked; assumption|].
  repeat split.
Qed.

Lemma pick_other_same ui m hits :
  unique_ids m -> same_but_locks (snd (pick_other ui m hits)) m.
Proof.
  intro Hu. induction hits as [|itp rest IH]; [apply same_but_locks_refl|].
  cbn [pick_other].
  destruct (findSource m (fst itp)) as [s|] eqn:F; [|exact IH].
  destruct (Nat.eqb (workspace_ s) (current_workspace m)); [|exact IH].
  destruct (Nat.eqb (fst itp) (lock_ s)).
  - cbn [snd]. apply same_but_locks_store; [assumption|].
    apply (findSource_In _ _ _ F).
  - destruct (negb (locked_ s) || locked_ s && ctrlModifier ui);
      [apply same_but_locks_refl | exact IH].
Qed.

(** X12 -- a pick moves nothing: when the sources of the session have
    distinct ids, [pick] leaves every source as it was but for its
    lock, and leaves the current source, the selection, the workspace
    and the transform of the scene root. *)
Theorem pick_never_moves_a_source (ui : UserInterface) (v : GeometryView)
    (m : Mixer) (pv : list (NodeId * vec2)) :
  unique_ids m ->
  same_but_locks (snd (pick ui v m pv)) m
  /\ scene_root_transform_ (snd (fst (pick ui v m pv)))
     = scene_root_transform_ v.
Proof.
  intro Hu. unfold pick.
  destruct pv as [|hit pv']; [split; [apply same_but_locks_refl|reflexivity]|].
  cbv beta iota.
  generalize (rev (hit :: pv')) as hits; intro hits.
  pose proof (pick_other_same ui m hits Hu) as Ho.
  assert (Hother :
    same_but_locks
      (snd (let '(pick, m0) := pick_other ui m hits in (pick, v, m0))) m
    /\ scene_root_transform_
         (snd (fst (let '(pick, m0) := pick_other ui m hits in (pick, v, m0))))
       = scene_root_transform_ v).
  { destruct (pick_other ui m hits) as [po mo]. split; [exact Ho|reflexivity]. }
  clear Ho.
  destruct (currentSource m) as [cur|] eqn:C; [|exact Hother].
  pose proof (currentSource_In _ _ C) as Hin.
  destruct (negb (Nat.eqb (workspace_ cur) (current_workspace m))).
  { destruct (find _ hits); exact Hother. }
  destruct (find _ hits) as [itp|]; [|exact Hother].
  destruct (Nat.eqb (fst itp) (handle_node (handles_ cur MENU))).
  { split; [apply same_but_locks_refl | reflexivity]. }
  destruct (Nat.eqb (fst itp) (lock_ cur)).
  { split; [apply same_but_locks_store; assumption | reflexivity]. }
  destruct (Nat.eqb (fst itp) (unlock_ cur)).
  { split; [apply same_but_locks_store; assumption | reflexivity]. }
  destruct (locked_ cur && negb (ctrlModifier ui));
    (split; [apply same_but_locks_refl | reflexivity]).
Qed.

Lemma pick_other_result ui m hits n p :
  fst (pick_other ui m hits) = (Some n, p) ->
  exists s n0,
    In (n0, p) hits /\ findSource m n0 = Some s
    /\ workspace_ s = current_workspace m
    /\ n = locker_ s
    /\ (locked_ s = true -> ctrlModifier ui = false -> n0 = lock_ s).
Proof.
  induction hits as [|[n0 p0] rest IH]; [discriminate|].
  cbn [pick_other fst snd].
  assert (Hrest : fst (pick_other ui m rest) = (Some n, p) ->
    exists s n1,
      In (n1, p) ((n0, p0) :: rest) /\ findSource m n1 = Some s
      /\ workspace_ s = current_workspace m
      /\ n = locker_ s
      /\ (locked_ s = true -> ctrlModifier ui = false -> n1 = lock_ s)).
  { intro H. destruct (IH H) as (s & n1 & Hi & Hr).
    exists s, n1. split; [right; exact Hi | exact Hr]. }
  destruct (findSource m n0) as [s|] eqn:F; [|exact Hrest].
  destruct (Nat.eqb_spec (workspace_ s) (current_workspace m)) as [Hw|];
    [|exact Hrest].
  destruct (Nat.eqb_spec n0 (lock_ s)) as [Hl|Hl].
  - cbn [fst]. intros [= <- <-]. exists s, n0.
    split; [left; reflexivity|]. auto.
  - destruct (locked_ s) eqn:L; cbn [negb orb andb].
    + destruct (ctrlModifier ui) eqn:K; [|exact Hrest].
      cbn [fst]. intros [= <- <-]. exists s, n0.
      split; [left; reflexivity|].
      repeat split; auto; intros; congruence.
    + cbn [fst]. intros [= <- <-]. exists s, n0.
      split; [left; reflexivity|].
      repeat split; auto; intros; congruence.
Qed.

(** X13 -- what a pick can return: a node returned by [pick] is a hit
    on a source of the current workspace, either the hit itself or the
    locker of that source; and when the source is locked and the
    override modifier is not held, the hit is its lock icon or the
    menu handle. *)
Theorem picked_source_is_in_the_current_workspace (ui : UserInterface)
    (v : GeometryView) (m : Mixer) (pv : list (NodeId * vec2))
    (n : NodeId) (p : vec2) :
  fst (fst (pick ui v m pv)) = (Some n, p) ->
  exists s n0,
    In s (session_ m) /\ In (n0, p) pv /\ hasNode n0 (Some s) = true
    /\ workspace_ s = current_workspace m
    /\ (n = n0 \/ n = locker_ s)
    /\ (locked_ s = true -> ctrlModifier ui = false ->
        n0 = lock_ s \/ n0 = handle_node (handles_ s MENU)).
Proof.
  unfold pick.
  destruct pv as [|hit pv']; [discriminate|].
  cbv beta iota.
  assert (Hother :
    fst (fst (let '(pick, m0) := pick_other ui m (rev (hit :: pv'))
              in (pick, v, m0))) = (Some n, p) ->
    exists s n0,
      In s (session_ m) /\ In (n0, p) (hit :: pv')
      /\ hasNode n0 (Some s) = true
      /\ workspace_ s = current_workspace m
      /\ (n = n0 \/ n = locker_ s)
      /\ (locked_ s = true -> ctrlModifier ui = false ->
          n0 = lock_ s \/ n0 = handle_node (handles_ s MENU))).
  { pose proof (pick_other_result ui m (rev (hit :: pv')) n p) as Hr.
    destruct (pick_other ui m (rev (hit :: pv'))) as [po mo].
    intro H. destruct (Hr H) as (s & n0 & Hi & F & Hw & Hn & Hl).
    destruct (findSource_In _ _ _ F) as [Hs Hh].
    exists s, n0. split; [exact Hs|]. split; [apply in_rev; exact Hi|].
    split; [exact Hh|]. split; [exact Hw|]. split; [right; exact Hn|].
    intros L K. left. apply Hl; assumption. }
  destruct (currentSource m) as [cur|] eqn:C; [|exact Hother].
  pose proof (currentSource_In _ _ C) as Hin.
  destruct (Nat.eqb_spec (workspace_ cur) (current_workspace m)) as [Hw|];
    cbn [negb].
  2:{ destruct (find _ (rev (hit :: pv'))); exact Hother. }
  destruct (find _ (rev (hit :: pv'))) as [[n0 p0]|] eqn:F; [|exact Hother].
  apply find_some in F. destruct F as [Hi Hh]. apply in_rev in Hi.
  cbn [fst snd] in *.
  assert (Hhit : forall (ex : locked_ cur = true -> ctrlModifier ui = false ->
                         n0 = lock_ cur
                         \/ n0 = handle_node (handles_ cur MENU)),
    (Some n0, p0) = (Some n, p) ->
    exists s n1,
      In s (session_ m) /\ In (n1, p) (hit :: pv')
      /\ hasNode n1 (Some s) = true
      /\ workspace_ s = current_workspace m
      /\ (n = n1 \/ n = locker_ s)
      /\ (locked_ s = true -> ctrlModifier ui = false ->
          n1 = lock_ s \/ n1 = handle_node (handles_ s MENU))).
  { intros ex [= <- <-]. exists cur, n0. repeat split; auto. }
  destruct (Nat.eqb_spec n0 (handle_node (handles_ cur MENU))).
  { apply Hhit; auto. }
  destruct (Nat.eqb_spec n0 (lock_ cur)).
  { apply Hhit; auto. }
  destruct (Nat.eqb n0 (unlock_ cur)); [discriminate|].
  destruct (locked_ cur) eqn:L; cbn [andb].
  - destruct (ctrlModifier ui) eqn:K; cbn [negb]; [|discriminate].
    apply Hhit. intros; congruence.
  - apply Hhit. intros; congruence.
Qed.

(** ** The handles during and after a drag *)

Lemma grab_pick_handles ui s n p sf st str sof sot sos :
  let r := fst (fst (grab_pick ui s n p sf st str sof sot sos)) in
  forall k,
    visible_ (handles_ r k)
    = match picked_handle s n with
      | Some h => Handles_Type_eqb k h && visible_ (handles_ s k)
      | None => visible_ (handles_ s k)
      end
    /\ corner_ (handles_ r k)
       = match picked_handle s n with
         | Some h =>
             if Handles_Type_eqb k h && shows_corner h
             then neg2 (round2 p) else corner_ (handles_ s k)
         | None => corner_ (handles_ s k)
         end.
Proof.
  destruct ui as [sh al ct].
  unfold picked_handle, grab_pick;
  repeat match goal with
         | |- context [is_handle ?s ?n ?h] => destruct (is_handle s n h)
         end;
  destruct sh, al; cbv zeta;
  unfold grab_move;
  repeat match goal with
         | |- context [Rgtb ?a ?b] => destruct (Rgtb a b)
         end;
  intro k; destruct k; split; reflexivity.
Qed.

Lemma handles_touch (s : Source) : handles_ (touch s) = handles_ s.
Proof. reflexivity. Qed.

Lemma id_touch (s : Source) : id_ (touch s) = id_ s.
Proof. reflexivity. Qed.

Lemma grab_pick_id ui s n p sf st str sof sot sos :
  id_ (fst (fst (grab_pick ui s n p sf st str sof sot sos))) = id_ s.
Proof.
  destruct ui as [sh al ct].
  unfold grab_pick;
  repeat match goal with
         | |- context [is_handle ?s ?n ?h] => destruct (is_handle s n h)
         end;
  destruct sh, al; cbv zeta;
  unfold grab_move;
  repeat match goal with
         | |- context [Rgtb ?a ?b] => destruct (Rgtb a b)
         end;
  reflexivity.
Qed.

Section Handles.

Variable unProject : vec2 -> mat4 -> vec3.

(** X14 -- during a drag only the dragged handle is shown: after an
    update whose pick holds a handle of the cascade, every other handle
    of the source is hidden and the dragged one is as visible as it
    was; the three resize handles are told the corner opposite to the
    picked one; a move hides nothing; no handle changes identity. *)
Theorem drag_shows_only_the_dragged_handle (from to : vec2) (n : NodeId)
    (p : vec2) (v : GeometryView) (s : Source) (ui : UserInterface)
    (k : Handles_Type) :
  let s' := snd (update_call unProject from (Some n, p) (v, s) (to, ui)) in
  visible_ (handles_ s' k)
  = match picked_handle s n with
    | Some h => Handles_Type_eqb k h && visible_ (handles_ s k)
    | None => visible_ (handles_ s k)
    end
  /\ corner_ (handles_ s' k)
     = match picked_handle s n with
       | Some h =>
           if Handles_Type_eqb k h && shows_corner h
           then neg2 (round2 p) else corner_ (handles_ s k)
       | None => corner_ (handles_ s k)
       end
  /\ handle_node (handles_ s' k) = handle_node (handles_ s k).
Proof.
  intro s'. subst s'. rewrite update_call_pick, handles_touch.
  match goal with |- context [grab_pick ?a ?b ?c ?d ?e ?f ?g ?h ?i ?j] =>
    pose proof (grab_pick_handles a b c d e f g h i j k) as [Hv Hc];
    pose proof (grab_pick_frame a b c d e f g h i j) as (_ & _ & Hn)
  end.
  rewrite (picked_handle_ext s _ n) in Hv, Hc by reflexivity.
  split; [exact Hv|]. split; [exact Hc|]. apply Hn.
Qed.

Lemma update_call_id (from : vec2) (pick : PickResult) (v : GeometryView)
    (s : Source) (u : Update) :
  id_ (snd (update_call unProject from pick (v, s) u)) = id_ s.
Proof.
  destruct u as [to ui], pick as [[n|] p].
  - rewrite update_call_pick, id_touch, grab_pick_id. reflexivity.
  - reflexivity.
Qed.

Lemma update_call_handle_node (from : vec2) (pick : PickResult)
    (v : GeometryView) (s : Source) (u : Update) (k : Handles_Type) :
  handle_node (handles_ (snd (update_call unProject from pick (v, s) u)) k)
  = handle_node (handles_ s k).
Proof.
  destruct u as [to ui], pick as [[n|] p].
  - rewrite update_call_pick, handles_touch.
    match goal with |- context [grab_pick ?a ?b ?c ?d ?e ?f ?g ?h ?i ?j] =>
      pose proof (grab_pick_frame a b c d e f g h i j) as (_ & _ & Hn)
    end.
    apply Hn.
  - reflexivity.
Qed.

Lemma find_terminate (l : list Source) (i : nat) (f : Source -> Source) :
  (forall s, id_ (f s) = id_ s) ->
  find (fun s => Nat.eqb (id_ s) i) (map f l)
  = option_map f (find (fun s => Nat.eqb (id_ s) i) l).
Proof.
  intro Hf. induction l as [|a l IH]; [reflexivity|].
  cbn [map find]. rewrite Hf.
  destruct (Nat.eqb (id_ a) i); [reflexivity | exact IH].
Qed.

Lemma updates_frame (from : vec2) (pick : PickResult) (us : list Update)
    (v : GeometryView) (s : Source) :
  let s' := snd (updates unProject from pick (v, s) us) in
  id_ s' = id_ s
  /\ forall k, handle_node (handles_ s' k) = handle_node (handles_ s k).
Proof.
  unfold updates. revert v s.
  induction us as [|u us IH]; intros v s; [split; reflexivity|].
  cbn [fold_left].
  destruct (update_call unProject from pick (v, s) u) as [v1 s1] eqn:E.
  assert (E1 : s1 = snd (update_call unProject from pick (v, s) u))
    by (rewrite E; reflexivity).
  destruct (IH v1 s1) as [Hid Hh]. cbv zeta. split.
  - rewrite Hid, E1. apply update_call_id.
  - intro k. rewrite Hh, E1. apply update_call_handle_node.
Qed.

(** X15 -- releasing shows every handle again: after any sequence of
    updates of a drag on the current source, [terminate] leaves the
    source with the node and the snapshot the drag gave it, every
    handle visible, and the resize handles without active corner. *)
Theorem release_shows_every_handle_again (from : vec2) (pick : PickResult)
    (v : GeometryView) (m : Mixer) (s : Source) (us : list Update) :
  currentSource m = Some s ->
  let s' := snd (updates unProject from pick (v, s) us) in
  exists s'',
    currentSource (terminate (store m s')) = Some s''
    /\ group_ s'' = group_ s'
    /\ stored_status_ s'' = stored_status_ s'
    /\ forall k,
         visible_ (handles_ s'' k) = true
         /\ handle_node (handles_ s'' k) = handle_node (handles_ s k)
         /\ (shows_corner k = true -> corner_ (handles_ s'' k) = mkvec2 0 0).
Proof.
  intros Hcur s'.
  destruct (updates_frame from pick us v s) as [Hid Hh]. fold s' in Hid, Hh.
  pose proof (currentSource_store m s s' Hcur Hid) as Hst.
  unfold currentSource in *. unfold terminate. cbn [current_ session_].
  destruct (current_ (store m s')) as [i|]; [|discriminate].
  rewrite find_terminate by reflexivity. rewrite Hst. cbn [option_map].
  eexists; split; [reflexivity|].
  split; [reflexivity|]. split; [reflexivity|].
  intro k. cbn [handles_ set_handles visible_ handle_node corner_].
  split; [reflexivity|]. split; [apply Hh|].
  destruct k; cbn; intro; try discriminate; reflexivity.
Qed.

End Handles.

(** ** The ROTATE and SCALE rules *)

Lemma degrees_radians (d : R) : glm.degrees (glm.radians d) = d.
Proof.
  unfold glm.degrees, glm.radians. field. apply PI_neq0.
Qed.

Lemma quot_ten (z : Z) : exists k : Z, (Z.quot z 10 * 10 = 10 * k)%Z.
Proof. exists (Z.quot z 10). lia. Qed.

Lemma grab_ROTATE_node ui s sf st :
  let r := fst (fst (grab_ROTATE ui s sf st)) in
  translation_ (group_ r) = translation_ (group_ s)
  /\ crop_ (group_ r) = crop_ (group_ s)
  /\ (altModifier ui = true ->
      exists d : Z,
        z3 (rotation_ (group_ r)) = glm.radians (IZR (Z.quot d 10 * 10)))
  /\ (shiftModifier ui = true -> scale_ (group_ r) = scale_ (group_ s))
  /\ (shiftModifier ui = false ->
      exists factor,
        scale_ (group_ r)
        = mul3 (scale_ (stored_status_ s)) (mkvec3 factor factor 1)).
Proof.
  destruct ui as [sh al ct]. unfold grab_ROTATE.
  cbn [shiftModifier altModifier].
  destruct sh, al; cbv zeta; cbn [negb];
    (split; [reflexivity|]; split; [reflexivity|];
     split; [intro H; try discriminate H; eexists; reflexivity|];
     split; [intro H; try discriminate H; reflexivity|];
     intro H; try discriminate H; eexists; reflexivity).
Qed.

Lemma grab_SCALE_node ui s sof sot sos :
  let r := fst (fst (grab_SCALE ui s sof sot sos)) in
  translation_ (group_ r) = translation_ (group_ s)
  /\ rotation_ (group_ r) = rotation_ (group_ s)
  /\ crop_ (group_ r) = crop_ (group_ s)
  /\ (altModifier ui = false ->
      scale_ (group_ r)
      = mul3 (scale_ (stored_status_ s))
             (if shiftModifier ui then proportional sof sot else sos)).
Proof.
  destruct ui as [sh al ct]. unfold grab_SCALE.
  cbn [shiftModifier altModifier].
  destruct sh, al; cbv zeta;
    (split; [reflexivity|]; split; [reflexivity|]; split; [reflexivity|];
     intro H; try discriminate H; reflexivity).
Qed.

Section MoreRules2.

Variable unProject : vec2 -> mat4 -> vec3.

(** X16 -- the ROTATE rule: the translation and the crop of the node
    are left; with the discretizing modifier the angle of the node is a
    multiple of ten degrees; with the proportional modifier the scale
    is left, and without it the scale is the one of the snapshot times
    one factor on both axes. *)
Theorem rotation_keeps_the_center_and_snaps_to_ten_degrees
    (from to : vec2) (n : NodeId) (p : vec2)
    (v : GeometryView) (s : Source) (ui : UserInterface) :
  picked_handle s n = Some ROTATE ->
  let s' := snd (update_call unProject from (Some n, p) (v, s) (to, ui)) in
  translation_ (group_ s') = translation_ (group_ s)
  /\ crop_ (group_ s') = crop_ (group_ s)
  /\ (altModifier ui = true ->
      exists k : Z,
        glm.degrees (z3 (rotation_ (group_ s'))) = IZR (10 * k))
  /\ (shiftModifier ui = true -> scale_ (group_ s') = scale_ (group_ s))
  /\ (shiftModifier ui = false ->
      exists factor,
        scale_ (group_ s')
        = mul3 (scale_ (stored_status_ s)) (mkvec3 factor factor 1)).
Proof.
  intros Hk s'. subst s'. rewrite update_call_pick, !group_touch.
  rewrite grab_pick_ROTATE
    by (rewrite (picked_handle_ext s _ n) by reflexivity; exact Hk).
  match goal with |- context [grab_ROTATE ?a ?b ?c ?d] =>
    destruct (grab_ROTATE_node a b c d)
      as (Ht & Hc & Hal & Hsh & Hns)
  end.
  split; [exact Ht|]. split; [exact Hc|].
  split.
  { intro A. destruct (Hal A) as [d Hd]. rewrite Hd, degrees_radians.
    destruct (quot_ten d) as [k Hq]. exists k. rewrite Hq. reflexivity. }
  split; [exact Hsh|].
  intro A. destruct (Hns A) as [f Hf]. exists f. rewrite Hf.
  reflexivity.
Qed.

(** X17 -- the SCALE rule scales about the center: translation,
    rotation and crop of the node are left; with the proportional
    modifier alone, the scale keeps the proportions of the snapshot
    and its depth. *)
Theorem scaling_keeps_the_center
    (from to : vec2) (n : NodeId) (p : vec2)
    (v : GeometryView) (s : Source) (ui : UserInterface) :
  picked_handle s n = Some SCALE ->
  let s' := snd (update_call unProject from (Some n, p) (v, s) (to, ui)) in
  translation_ (group_ s') = translation_ (group_ s)
  /\ rotation_ (group_ s') = rotation_ (group_ s)
  /\ crop_ (group_ s') = crop_ (group_ s)
  /\ (shiftModifier ui = true -> altModifier ui = false ->
      x3 (scale_ (group_ s')) * y3 (scale_ (stored_status_ s))
      = y3 (scale_ (group_ s')) * x3 (scale_ (stored_status_ s))
      /\ z3 (scale_ (group_ s')) = z3 (scale_ (stored_status_ s))).
Proof.
  intros Hk s'. subst s'. rewrite update_call_pick, !group_touch.
  rewrite grab_pick_SCALE
    by (rewrite (picked_handle_ext s _ n) by reflexivity; exact Hk).
  match goal with |- context [grab_SCALE ?a ?b ?c ?d ?e] =>
    destruct (grab_SCALE_node a b c d e) as (Ht & Hr & Hc & Hs)
  end.
  split; [exact Ht|]. split; [exact Hr|]. split; [exact Hc|].
  intros Hsh Hal. rewrite (Hs Hal), Hsh.
  unfold proportional, mul3; cbn [x3 y3 z3 stored_status_ set_stored_status
                                  scale_ Node_update].
  split; ring.
Qed.

End MoreRules2.

(** ** Arrow keys *)

Lemma ROUND_grid (val : R) : exists k : Z, ROUND val 10 = IZR k / 10.
Proof. unfold ROUND. eexists; reflexivity. Qed.

Section ArrowKeys.

Variable unProject : vec2 -> mat4 -> vec3.
Variable ARROWS_MOVEMENT_FACTOR : R.

(** X18 -- arrow keys: without a current source nothing changes; with
    one, only its translation changes and an update is requested.
    Without the discretizing modifier the translation grows by the
    displacement in the scene times ARROWS_MOVEMENT_FACTOR; with it,
    both coordinates land on a multiple of a tenth and the depth is
    left. *)
Theorem arrow_translates_the_current_source
    (ui : UserInterface) (v : GeometryView) (m : Mixer) (movement : vec2) :
  match currentSource m with
  | None => arrow unProject ARROWS_MOVEMENT_FACTOR ui v m movement = m
  | Some s =>
      exists s',
        currentSource (arrow unProject ARROWS_MOVEMENT_FACTOR ui v m movement)
        = Some s'
        /\ scale_ (group_ s') = scale_ (group_ s)
        /\ rotation_ (group_ s') = rotation_ (group_ s)
        /\ crop_ (group_ s') = crop_ (group_ s)
        /\ need_update_ s' = true
        /\ (altModifier ui = false ->
            translation_ (group_ s')
            = add3 (translation_ (group_ s))
                   (smul3 (sub3 (scene_point unProject v movement)
                                (scene_point unProject v (mkvec2 0 0)))
                          ARROWS_MOVEMENT_FACTOR))
        /\ (altModifier ui = true ->
            exists kx ky : Z,
              x3 (translation_ (group_ s')) = IZR kx / 10
              /\ y3 (translation_ (group_ s')) = IZR ky / 10
              /\ z3 (translation_ (group_ s'))
                 = z3 (translation_ (group_ s)))
  end.
Proof.
  unfold arrow. destruct (currentSource m) as [s|] eqn:C; [|reflexivity].
  cbv zeta. eexists. split.
  { apply (currentSource_store m s); [exact C | reflexivity]. }
  destruct ui as [sh al ct]; cbn [altModifier].
  split; [reflexivity|]. split; [reflexivity|]. split; [reflexivity|].
  rewrite !group_touch. cbn [group_ set_group translation_ set_translation].
  destruct al.
  - split; [reflexivity|].
    split; [discriminate|]. intros _.
    cbn [x3 y3 z3 set_x set_y].
    match goal with |- context [ROUND ?a 10] =>
      destruct (ROUND_grid a) as [kx ->] end.
    match goal with |- context [ROUND ?a 10] =>
      destruct (ROUND_grid a) as [ky ->] end.
    exists kx, ky. split; [reflexivity|]. split; [reflexivity|].
    unfold add3, smul3; cbn [x3 y3 z3]. ring.
  - split; [reflexivity|].
    split; [reflexivity | discriminate].
Qed.

End ArrowKeys.

(** ** The context menu *)

(** X19 -- the context menu is asked for once: after a pick on the
    menu handle of the current source, the next [draw] opens the popup
    and the one after does not, whatever is clicked. *)
Theorem context_menu_is_opened_once (ui : UserInterface) (v : GeometryView)
    (m : Mixer) (pv : list (NodeId * vec2)) (cur : Source)
    (itp : NodeId * vec2) (output : option R) (BeginPopup BeginPopup' : bool)
    (clicks clicks' : ContextMenuClicks) :
  currentSource m = Some cur ->
  workspace_ cur = current_workspace m ->
  find (fun itp => hasNode (fst itp) (Some cur)) (rev pv) = Some itp ->
  fst itp = handle_node (handles_ cur MENU) ->
  let '(pick, v1, m1) := pick ui v m pv in
  let '(opened, v2, m2) := draw_context_menu output BeginPopup clicks v1 m1 in
  let '(opened', v3, m3) :=
    draw_context_menu output BeginPopup' clicks' v2 m2 in
  pick = (Some (fst itp), snd itp)
  /\ opened = true /\ opened' = false
  /\ show_context_menu_ v3 = MENU_NONE.
Proof.
  intros Hcur Hws Hf Hm.
  rewrite (pick_current_MENU ui v m pv cur itp Hcur Hws Hf Hm).
  unfold draw_context_menu, openContextMenu; cbn [show_context_menu_].
  repeat split; reflexivity.
Qed.

Lemma corner_position_flat (n : Node) (a : R) (c : vec2) :
  z3 (rotation_ n) = 0 ->
  corner_position n a c
  = mkvec4 (x3 (scale_ n) * (x2 c * a) + x3 (translation_ n))
           (y3 (scale_ n) * y2 c + y3 (translation_ n))
           (z3 (translation_ n)) 1.
Proof.
  intro Hr. unfold corner_position. rewrite transform_mulv, Hr, cos_0, sin_0.
  unfold corner_local; cbn [x4 y4 z4 w4]. f_equal; ring.
Qed.

Lemma store_twice (m : Mixer) (s : Source) : store (store m s) s = store m s.
Proof.
  unfold store. cbn [session_ current_ selection_ current_workspace].
  f_equal. rewrite map_map. apply map_ext. intro e.
  destruct (Nat.eqb (id_ e) (id_ s)) eqn:E.
  - rewrite Nat.eqb_refl. reflexivity.
  - rewrite E. reflexivity.
Qed.

(** X20 -- Fit: the corners of the current source go to the corners
    of the output frame, (+-aspect ratio of the output, +-1); the crop
    is left and an update is requested. *)
Theorem fit_covers_the_output_frame (output_aspect : R)
    (clicks : ContextMenuClicks) (v : GeometryView) (m : Mixer) (s : Source) :
  currentSource m = Some s ->
  aspectRatio s <> 0 ->
  Selectable_Reset clicks = false -> Selectable_Fit clicks = true ->
  exists s',
    currentSource
      (snd (draw_context_menu (Some output_aspect) true clicks v m))
    = Some s'
    /\ (forall c : vec2,
          corner_position (group_ s') (aspectRatio s') c
          = mkvec4 (x2 c * output_aspect) (y2 c) 0 1)
    /\ crop_ (group_ s') = crop_ (group_ s)
    /\ need_update_ s' = true.
Proof.
  intros Hcur Ha Hr Hf. unfold draw_context_menu.
  destruct (show_context_menu_ v); cbn [snd]; rewrite Hcur, Hr, Hf;
    (eexists; split;
     [apply (currentSource_store m s); [exact Hcur | reflexivity]|];
     split; [|split; reflexivity];
     intro c; rewrite corner_position_flat by reflexivity;
     cbn; f_equal; field; exact Ha).
Qed.

(** X21 -- Original aspect ratio: the horizontal scale becomes the
    vertical scale times the ratio of the crop; the vertical scale,
    translation, rotation and crop are left; and clicking the entry
    again changes nothing more. *)
Theorem original_aspect_ratio_follows_the_crop
    (output : option R) (clicks : ContextMenuClicks) (v v' : GeometryView)
    (m : Mixer) (s : Source) :
  currentSource m = Some s ->
  Selectable_Reset clicks = false -> Selectable_Fit clicks = false ->
  Selectable_Center clicks = false ->
  Selectable_Original_aspect_ratio clicks = true ->
  let m' := snd (draw_context_menu output true clicks v m) in
  (exists s',
     currentSource m' = Some s'
     /\ x3 (scale_ (group_ s'))
        = y3 (scale_ (group_ s))
          * (x3 (crop_ (group_ s)) / y3 (crop_ (group_ s)))
     /\ y3 (scale_ (group_ s')) = y3 (scale_ (group_ s))
     /\ translation_ (group_ s') = translation_ (group_ s)
     /\ rotation_ (group_ s') = rotation_ (group_ s)
     /\ crop_ (group_ s') = crop_ (group_ s))
  /\ snd (draw_context_menu output true clicks v' m') = m'.
Proof.
  intros Hcur Hr Hf Hc Ho m'. subst m'. unfold draw_context_menu.
  set (s1 := touch (set_group s (menu_Original_aspect_ratio (group_ s)))).
  assert (H1 : currentSource (store m s1) = Some s1)
    by (apply (currentSource_store m s); [exact Hcur | reflexivity]).
  assert (E : forall w : GeometryView,
    snd (let '(opened, v0) :=
           match show_context_menu_ w with
           | MENU_NONE => (false, w)
           | MENU_SOURCE => (true, openContextMenu w MENU_NONE)
           end in
         (opened, v0, store m s1)) = store m s1)
    by (intro w; destruct (show_context_menu_ w); reflexivity).
  rewrite Hcur, Hr, Hf, Hc, Ho. fold s1. rewrite E.
  split.
  - exists s1. split; [exact H1|]. repeat split; reflexivity.
  - rewrite H1.
    replace (touch (set_group s1 (menu_Original_aspect_ratio (group_ s1))))
      with s1 by reflexivity.
    rewrite store_twice. destruct (show_context_menu_ v'); reflexivity.
Qed.

(** X22 -- Reset: every corner of the current source goes back to
    where the frame of the source has it, and the crop back to 1. *)
Theorem reset_puts_the_source_back (output : option R)
    (clicks : ContextMenuClicks) (v : GeometryView) (m : Mixer) (s : Source) :
  currentSource m = Some s ->
  Selectable_Reset clicks = true ->
  exists s',
    currentSource (snd (draw_context_menu output true clicks v m)) = Some s'
    /\ (forall c : vec2,
          corner_position (group_ s') (aspectRatio s') c
          = corner_local (aspectRatio s) c)
    /\ crop_ (group_ s') = mkvec3 1 1 1
    /\ need_update_ s' = true.
Proof.
  intros Hcur Hr. unfold draw_context_menu.
  destruct (show_context_menu_ v); cbn [snd]; rewrite Hcur, Hr;
    (eexists; split;
     [apply (currentSource_store m s); [exact Hcur | reflexivity]|];
     split; [|split; reflexivity];
     intro c; rewrite corner_position_flat by reflexivity;
     unfold corner_local; cbn; f_equal; ring).
Qed.

(** ** The zoom of the view *)

Lemma clamp_bounds (x low high : R) :
  low <= high -> low <= glm.clamp x low high <= high.
Proof.
  intro H. unfold glm.clamp, Rmin, Rmax.
  repeat match goal with
         | |- context [Rle_dec ?a ?b] => destruct (Rle_dec a b)
         end;
    lra.
Qed.

(** X23 -- the zoom of the view: [resize] gives the scene root the
    same scale on both axes, between GEOMETRY_MIN_SCALE (from 0 per cent
    down) and GEOMETRY_MAX_SCALE (from 100 per cent up), and keeps its
    translation within one and a half times that scale, with no
    depth. *)
Theorem resize_bounds_the_zoom_and_the_translation
    (GEOMETRY_MIN_SCALE GEOMETRY_MAX_SCALE : R) (root : Node) (scale : Z) :
  0 <= GEOMETRY_MIN_SCALE <= GEOMETRY_MAX_SCALE ->
  let root' := resize GEOMETRY_MIN_SCALE GEOMETRY_MAX_SCALE root scale in
  x3 (scale_ root') = y3 (scale_ root')
  /\ GEOMETRY_MIN_SCALE <= x3 (scale_ root') <= GEOMETRY_MAX_SCALE
  /\ ((scale <= 0)%Z -> x3 (scale_ root') = GEOMETRY_MIN_SCALE)
  /\ ((100 <= scale)%Z -> x3 (scale_ root') = GEOMETRY_MAX_SCALE)
  /\ - (15 / 10) * x3 (scale_ root') <= x3 (translation_ root')
       <= 15 / 10 * x3 (scale_ root')
  /\ - (15 / 10) * y3 (scale_ root') <= y3 (translation_ root')
       <= 15 / 10 * y3 (scale_ root')
  /\ z3 (translation_ root') = 0.
Proof.
  intros [Hmin Hmax] root'. subst root'. unfold resize. cbv zeta.
  cbn [scale_ set_scale set_translation translation_ set_x set_y x3 y3 z3
       clamp3].
  set (c := CLAMP (/ 100 * IZR scale) 0 1).
  assert (Hc : 0 <= c <= 1) by (apply CLAMP_bounds; lra).
  set (z := c * c * (GEOMETRY_MAX_SCALE - GEOMETRY_MIN_SCALE)
            + GEOMETRY_MIN_SCALE).
  assert (Hz : GEOMETRY_MIN_SCALE <= z <= GEOMETRY_MAX_SCALE).
  { assert (Hcc : 0 <= c * c <= 1) by nra.
    unfold z. split; nra. }
  split; [reflexivity|]. split; [exact Hz|].
  split.
  { intro Hs. unfold z, c, CLAMP.
    assert (/ 100 * IZR scale <= 0).
    { apply IZR_le in Hs. lra. }
    rewrite Rmax_right by assumption. rewrite Rmin_left by lra. ring. }
  split.
  { intro Hs. unfold z, c, CLAMP.
    assert (1 <= / 100 * IZR scale).
    { apply IZR_le in Hs. lra. }
    rewrite Rmax_left by lra. rewrite Rmin_right by assumption. ring. }
  split.
  { pose proof (clamp_bounds (x3 (translation_ root)) (- (z * (15 / 10)))
                  (z * (15 / 10))) as H. lra. }
  split.
  { pose proof (clamp_bounds (y3 (translation_ root)) (- (z * (15 / 10)))
                  (z * (15 / 10))) as H. lra. }
  pose proof (clamp_bounds (z3 (translation_ root)) (- 0) 0) as H. lra.
Qed.

(** ** Fullscreen *)

Section Fullscreen.

Variable primary : Monitor.
Variable monitors : list Monitor.
Variable fullscreen_position : Monitor -> Z * Z.

Lemma callbacks_while_fullscreen (st : WindowState) (es : list WindowEvent) :
  settings_fullscreen st = true ->
  let st' := fold_left window_callback es st in
  settings_fullscreen st' = true
  /\ settings_geometry st' = settings_geometry st
  /\ glfw_monitor st' = glfw_monitor st
  /\ window_ st' = window_ st
  /\ request_toggle_fullscreen_ st' = request_toggle_fullscreen_ st.
Proof.
  revert st; induction es as [|e es IH]; intros st Hf; [cbn; auto|].
  cbn [fold_left].
  assert (H : settings_fullscreen (window_callback st e) = true
              /\ settings_geometry (window_callback st e) = settings_geometry st
              /\ glfw_monitor (window_callback st e) = glfw_monitor st
              /\ window_ (window_callback st e) = window_ st
              /\ request_toggle_fullscreen_ (window_callback st e)
                 = request_toggle_fullscreen_ st).
  { destruct e; unfold window_callback; rewrite Hf; cbn; auto. }
  destruct H as (H1 & H2 & H3 & H4 & H5).
  destruct (IH _ H1) as (I1 & I2 & I3 & I4 & I5).
  cbv zeta. rewrite I2, I3, I4, I5. auto.
Qed.

Lemma toggle_enters (st : WindowState) :
  window_ st = true -> glfw_monitor st = None ->
  toggleFullscreen_ primary monitors fullscreen_position (toggleFullscreen st)
  = Some (mkWindowState true false true
            (monitor_name (monitorAt primary monitors (glfw_x st) (glfw_y st)))
            (settings_x st) (settings_y st) (settings_w st) (settings_h st)
            (Some (monitorAt primary monitors (glfw_x st) (glfw_y st)))
            (fst (fullscreen_position
                    (monitorAt primary monitors (glfw_x st) (glfw_y st))))
            (snd (fullscreen_position
                    (monitorAt primary monitors (glfw_x st) (glfw_y st))))
            (mode_width (monitorAt primary monitors (glfw_x st) (glfw_y st)))
            (mode_height (monitorAt primary monitors (glfw_x st) (glfw_y st)))
            true).
Proof.
  destruct st; cbn. intros -> ->. reflexivity.
Qed.

Lemma toggle_leaves (st : WindowState) (mo : Monitor) :
  window_ st = true -> glfw_monitor st = Some mo ->
  toggleFullscreen_ primary monitors fullscreen_position (request_toggle st)
  = Some (mkWindowState true false false (settings_monitor st)
            (settings_x st) (settings_y st) (settings_w st) (settings_h st)
            None (settings_x st) (settings_y st) (settings_w st)
            (settings_h st) false).
Proof.
  destruct st; cbn. intros -> ->. reflexivity.
Qed.

(** X25 -- fullscreen and back: a toggle of a window that GLFW has
    windowed makes it fullscreen on the monitor where the window is;
    whatever GLFW reports of its size and position meanwhile, the next
    toggle gives the window back the position and the size the settings
    had, and leaves these settings as they were. *)
Theorem leaving_fullscreen_restores_the_window
    (st : WindowState) (es : list WindowEvent) :
  window_ st = true -> glfw_monitor st = None ->
  exists st1 st3,
    toggleFullscreen_ primary monitors fullscreen_position
      (toggleFullscreen st) = Some st1
    /\ glfw_monitor st1
       = Some (monitorAt primary monitors (glfw_x st) (glfw_y st))
    /\ isFullscreen st1 = true
    /\ toggleFullscreen_ primary monitors fullscreen_position
         (toggleFullscreen (fold_left window_callback es st1)) = Some st3
    /\ glfw_monitor st3 = None
    /\ isFullscreen st3 = false
    /\ request_toggle_fullscreen_ st3 = false
    /\ glfw_geometry st3 = settings_geometry st
    /\ settings_geometry st3 = settings_geometry st.
Proof.
  intros Hw Hm.
  rewrite (toggle_enters st Hw Hm).
  match goal with |- exists a b, Some ?x = Some a /\ _ => set (st1 := x) end.
  exists st1.
  destruct (callbacks_while_fullscreen st1 es eq_refl)
    as (B1 & B2 & B3 & B4 & B5).
  cbv zeta in *.
  assert (A1 : isFullscreen st1 = true) by reflexivity.
  assert (A2 : settings_geometry st1 = settings_geometry st) by reflexivity.
  assert (A3 : glfw_monitor st1
               = Some (monitorAt primary monitors (glfw_x st) (glfw_y st)))
    by reflexivity.
  assert (A4 : window_ st1 = true) by reflexivity.
  clearbody st1.
  rewrite A2 in B2. rewrite A3 in B3. rewrite A4 in B4.
  unfold toggleFullscreen.
  rewrite (toggle_leaves _ _ B4 B3).
  eexists. split; [reflexivity|]. split; [exact A3|]. split; [exact A1|].
  split; [reflexivity|].
  split; [reflexivity|]. split; [reflexivity|]. split; [reflexivity|].
  split; exact B2.
Qed.

(** X26 -- [exitFullscreen] with no toggle pending: the request is
    handled and none is left; when the settings and GLFW agree on
    whether the window is fullscreen, the window ends windowed and they
    still agree; when the settings alone said fullscreen, the window
    becomes fullscreen. *)
Theorem exitFullscreen_follows_the_monitor_of_the_window
    (st : WindowState) :
  window_ st = true -> request_toggle_fullscreen_ st = false ->
  exists st',
    toggleFullscreen_ primary monitors fullscreen_position
      (exitFullscreen st) = Some st'
    /\ request_toggle_fullscreen_ st' = false
    /\ (fullscreen_agrees st ->
        fullscreen_agrees st' /\ isFullscreen st' = false
        /\ glfw_monitor st' = None)
    /\ (isFullscreen st = true -> glfw_monitor st = None ->
        isFullscreen st' = true
        /\ glfw_monitor st'
           = Some (monitorAt primary monitors (glfw_x st) (glfw_y st))).
Proof.
  intros Hw Hr. unfold exitFullscreen, isFullscreen, fullscreen_agrees.
  destruct (settings_fullscreen st) eqn:F.
  - destruct (glfw_monitor st) as [mo|] eqn:M.
    + rewrite (toggle_leaves st mo Hw M).
      eexists; split; [reflexivity|]. cbn.
      split; [reflexivity|]. split; [auto | discriminate].
    + pose proof (toggle_enters st Hw M) as E.
      unfold toggleFullscreen in E. rewrite E.
      eexists; split; [reflexivity|]. cbn.
      split; [reflexivity|]. split; [discriminate | auto].
  - unfold toggleFullscreen_. rewrite Hr.
    eexists; split; [reflexivity|].
    split; [exact Hr|]. split; [|discriminate].
    rewrite F. intro A. split; [exact A|]. split; [reflexivity|].
    destruct (glfw_monitor st); [discriminate | reflexivity].
Qed.

Lemma setFullscreen_agrees mo st :
  fullscreen_agrees st ->
  fullscreen_agrees (setFullscreen_ fullscreen_position mo st).
Proof.
  unfold setFullscreen_. destruct (window_ st); cbn [negb]; [|auto].
  destruct mo; intros _; reflexivity.
Qed.

(** X27 -- the settings and GLFW agree on fullscreen: [show] makes
    them agree on a window that GLFW has windowed, and then every
    request, every handled toggle, every [setFullscreen_] and every
    resize or move reported by GLFW keeps them in agreement. *)
Theorem settings_and_glfw_agree_on_fullscreen (st : WindowState) :
  window_ st = true ->
  (glfw_monitor st = None ->
   fullscreen_agrees
     (RenderingWindow_show primary monitors fullscreen_position st))
  /\ (fullscreen_agrees st ->
      (forall e, fullscreen_agrees (window_callback st e))
      /\ fullscreen_agrees (toggleFullscreen st)
      /\ fullscreen_agrees (exitFullscreen st)
      /\ (forall mo,
            fullscreen_agrees (setFullscreen_ fullscreen_position mo st))
      /\ exists st',
           toggleFullscreen_ primary monitors fullscreen_position st
           = Some st'
           /\ fullscreen_agrees st').
Proof.
  intro Hw. split.
  - intro Hm. unfold RenderingWindow_show, fullscreen_agrees.
    destruct (settings_fullscreen st) eqn:F.
    + unfold setFullscreen_. rewrite Hw. reflexivity.
    + rewrite F, Hm. reflexivity.
  - intro Ha.
    split.
    { intro e. unfold fullscreen_agrees in *.
      destruct e; unfold window_callback;
        destruct (settings_fullscreen st); cbn; exact Ha. }
    split; [exact Ha|].
    split.
    { unfold exitFullscreen, isFullscreen.
      destruct (settings_fullscreen st); exact Ha. }
    split; [intro mo; apply setFullscreen_agrees; exact Ha|].
    unfold toggleFullscreen_. rewrite Hw.
    destruct (request_toggle_fullscreen_ st).
    + destruct (glfw_monitor st); eexists; (split; [reflexivity|]);
        apply setFullscreen_agrees; exact Ha.
    + eexists; split; [reflexivity | exact Ha].
Qed.

End Fullscreen.

(** ** The further properties on the examples *)

Lemma det_identity_neq : det identity <> 0.
Proof. rewrite det_identity. lra. Qed.

Lemma project_of_unProject_is_the_pixel_witness :
  (1 <> 0 /\ 12 <> -1 /\ width ex_window <> 0%Z /\ height ex_window <> 0%Z
   /\ affine identity /\ det identity <> 0)
  /\ Rendering_project 1 12 ex_window
       (Rendering_unProject 1 12 ex_window (mkvec2 100 200) identity)
       identity true = mkvec2 100 200.
Proof.
  split.
  - repeat split; try lra; try discriminate. apply det_identity_neq.
  - apply project_of_unProject_is_the_pixel;
      try lra; try discriminate;
      [apply affine_identity | apply det_identity_neq].
Defined.

Lemma unProject_of_a_pixel_witness :
  (1 <> 0 /\ 12 <> -1 /\ width ex_window <> 0%Z /\ height ex_window <> 0%Z)
  /\ Rendering_unProject 1 12 ex_window (mkvec2 640 360) identity
     = mkvec3 (1 * (2 * 640 - IZR (width ex_window)) / IZR (width ex_window))
              (1 * (IZR (height ex_window) - 2 * 360)
               / IZR (width ex_window))
              12.
Proof.
  split.
  - repeat split; try lra; discriminate.
  - apply (unProject_of_a_pixel 1 12 ex_window (mkvec2 640 360));
      try lra; discriminate.
Defined.

Lemma unProject_in_the_frame_of_a_child_witness :
  (1 <> 0 /\ 12 <> -1 /\ width ex_window <> 0%Z /\ height ex_window <> 0%Z
   /\ affine identity /\ det identity <> 0
   /\ affine (transform_ (Node_update wide_node))
   /\ det (transform_ (Node_update wide_node)) <> 0)
  /\ Rendering_unProject 1 12 ex_window (mkvec2 100 200)
       (mulm identity (transform_ (Node_update wide_node)))
     = vec3_of
         (mulv (inverse (transform_ (Node_update wide_node)))
            (vec4_of
               (Rendering_unProject 1 12 ex_window (mkvec2 100 200) identity)
               1)).
Proof.
  assert (Ha : affine (transform_ (Node_update wide_node)))
    by apply affine_transform.
  assert (Hd : det (transform_ (Node_update wide_node)) <> 0)
    by (apply det_transform_neq; cbn; lra).
  split.
  - repeat split; try lra; try discriminate; try apply det_identity_neq;
      try apply Ha; exact Hd.
  - apply unProject_in_the_frame_of_a_child;
      try lra; try discriminate; try apply affine_identity;
      try apply det_identity_neq; assumption.
Defined.

Lemma ex_mixer_unique_ids : unique_ids ex_mixer.
Proof.
  unfold unique_ids. cbn. repeat constructor; cbn; intuition discriminate.
Qed.

Lemma pick_never_moves_a_source_witness :
  unique_ids ex_mixer
  /\ same_but_locks
       (snd (pick no_modifier ex_view ex_mixer [(10%nat, mkvec2 0 0)]))
       ex_mixer
  /\ scene_root_transform_
       (snd (fst (pick no_modifier ex_view ex_mixer [(10%nat, mkvec2 0 0)])))
     = scene_root_transform_ ex_view.
Proof.
  split; [exact ex_mixer_unique_ids|].
  apply pick_never_moves_a_source. exact ex_mixer_unique_ids.
Defined.

Lemma picked_source_is_in_the_current_workspace_witness :
  fst (fst (pick no_modifier ex_view ex_mixer [(50%nat, mkvec2 0 0)]))
  = (Some 42%nat, mkvec2 0 0)
  /\ exists s n0,
       In s (session_ ex_mixer) /\ In (n0, mkvec2 0 0) [(50%nat, mkvec2 0 0)]
       /\ hasNode n0 (Some s) = true
       /\ workspace_ s = current_workspace ex_mixer
       /\ (42%nat = n0 \/ 42%nat = locker_ s)
       /\ (locked_ s = true -> ctrlModifier no_modifier = false ->
           n0 = lock_ s \/ n0 = handle_node (handles_ s MENU)).
Proof.
  split; [reflexivity|].
  apply (picked_source_is_in_the_current_workspace no_modifier ex_view).
  reflexivity.
Defined.

Lemma release_shows_every_handle_again_witness :
  currentSource ex_mixer = Some ex_source
  /\ let s' :=
       snd (updates unProject_flat (mkvec2 1 1) (Some 1%nat, mkvec2 1 1)
              (ex_view, ex_source) [(mkvec2 2 2, no_modifier)]) in
     exists s'',
       currentSource (terminate (store ex_mixer s')) = Some s''
       /\ group_ s'' = group_ s'
       /\ stored_status_ s'' = stored_status_ s'
       /\ forall k,
            visible_ (handles_ s'' k) = true
            /\ handle_node (handles_ s'' k) = handle_node (handles_ ex_source k)
            /\ (shows_corner k = true ->
                corner_ (handles_ s'' k) = mkvec2 0 0).
Proof.
  split; [exact ex_mixer_current|].
  apply release_shows_every_handle_again. exact ex_mixer_current.
Defined.

Lemma rotation_keeps_the_center_and_snaps_to_ten_degrees_witness :
  picked_handle ex_source 4 = Some ROTATE
  /\ let s' :=
       snd (update_call unProject_flat (mkvec2 1 0) (Some 4%nat, mkvec2 1 0)
              (ex_view, ex_source) (mkvec2 1 1, shift_alt)) in
     translation_ (group_ s') = translation_ (group_ ex_source)
     /\ crop_ (group_ s') = crop_ (group_ ex_source)
     /\ (altModifier shift_alt = true ->
         exists k : Z,
           glm.degrees (z3 (rotation_ (group_ s'))) = IZR (10 * k))
     /\ (shiftModifier shift_alt = true ->
         scale_ (group_ s') = scale_ (group_ ex_source))
     /\ (shiftModifier shift_alt = false ->
         exists factor,
           scale_ (group_ s')
           = mul3 (scale_ (stored_status_ ex_source))
                  (mkvec3 factor factor 1)).
Proof.
  split; [reflexivity|].
  apply rotation_keeps_the_center_and_snaps_to_ten_degrees. reflexivity.
Defined.

Lemma scaling_keeps_the_center_witness :
  picked_handle ex_source 5 = Some SCALE
  /\ let s' :=
       snd (update_call unProject_flat (mkvec2 1 1) (Some 5%nat, mkvec2 1 1)
              (ex_view, ex_source) (mkvec2 2 2, shift_only)) in
     translation_ (group_ s') = translation_ (group_ ex_source)
     /\ rotation_ (group_ s') = rotation_ (group_ ex_source)
     /\ crop_ (group_ s') = crop_ (group_ ex_source)
     /\ (shiftModifier shift_only = true -> altModifier shift_only = false ->
         x3 (scale_ (group_ s')) * y3 (scale_ (stored_status_ ex_source))
         = y3 (scale_ (group_ s')) * x3 (scale_ (stored_status_ ex_source))
         /\ z3 (scale_ (group_ s')) = z3 (scale_ (stored_status_ ex_source))).
Proof.
  split; [reflexivity|].
  apply scaling_keeps_the_center. reflexivity.
Defined.

Lemma context_menu_is_opened_once_witness :
  (currentSource ex_mixer = Some ex_source
   /\ workspace_ ex_source = current_workspace ex_mixer
   /\ find (fun itp => hasNode (fst itp) (Some ex_source))
           (rev [(7%nat, mkvec2 1 1)]) = Some (7%nat, mkvec2 1 1)
   /\ fst (7%nat, mkvec2 1 1) = handle_node (handles_ ex_source MENU))
  /\ let '(pick, v1, m1) :=
       pick no_modifier ex_view ex_mixer [(7%nat, mkvec2 1 1)] in
     let '(opened, v2, m2) :=
       draw_context_menu None true click_Fit v1 m1 in
     let '(opened', v3, m3) :=
       draw_context_menu None true click_Reset v2 m2 in
     pick = (Some (fst (7%nat, mkvec2 1 1)), snd (7%nat, mkvec2 1 1))
     /\ opened = true /\ opened' = false
     /\ show_context_menu_ v3 = MENU_NONE.
Proof.
  split.
  - split; [exact ex_mixer_current|]. repeat split; reflexivity.
  - apply (context_menu_is_opened_once no_modifier ex_view ex_mixer
             [(7%nat, mkvec2 1 1)] ex_source (7%nat, mkvec2 1 1)
             None true true click_Fit click_Reset);
      [exact ex_mixer_current | reflexivity | reflexivity | reflexivity].
Defined.

Lemma ex_source_aspect_neq : aspectRatio ex_source <> 0.
Proof. rewrite ex_source_aspect. lra. Qed.

Lemma fit_covers_the_output_frame_witness :
  (currentSource ex_mixer = Some ex_source
   /\ aspectRatio ex_source <> 0
   /\ Selectable_Reset click_Fit = false
   /\ Selectable_Fit click_Fit = true)
  /\ exists s',
       currentSource
         (snd (draw_context_menu (Some (16 / 9)) true click_Fit ex_view
                 ex_mixer))
       = Some s'
       /\ (forall c : vec2,
             corner_position (group_ s') (aspectRatio s') c
             = mkvec4 (x2 c * (16 / 9)) (y2 c) 0 1)
       /\ crop_ (group_ s') = crop_ (group_ ex_source)
       /\ need_update_ s' = true.
Proof.
  split.
  - split; [exact ex_mixer_current|].
    split; [exact ex_source_aspect_neq|]. split; reflexivity.
  - apply fit_covers_the_output_frame;
      [exact ex_mixer_current | exact ex_source_aspect_neq
       | reflexivity | reflexivity].
Defined.

Lemma original_aspect_ratio_follows_the_crop_witness :
  (currentSource ex_mixer = Some ex_source
   /\ Selectable_Reset click_Original_aspect_ratio = false
   /\ Selectable_Fit click_Original_aspect_ratio = false
   /\ Selectable_Center click_Original_aspect_ratio = false
   /\ Selectable_Original_aspect_ratio click_Original_aspect_ratio = true)
  /\ let m' :=
       snd (draw_context_menu None true click_Original_aspect_ratio ex_view
              ex_mixer) in
     (exists s',
        currentSource m' = Some s'
        /\ x3 (scale_ (group_ s'))
           = y3 (scale_ (group_ ex_source))
             * (x3 (crop_ (group_ ex_source)) / y3 (crop_ (group_ ex_source)))
        /\ y3 (scale_ (group_ s')) = y3 (scale_ (group_ ex_source))
        /\ translation_ (group_ s') = translation_ (group_ ex_source)
        /\ rotation_ (group_ s') = rotation_ (group_ ex_source)
        /\ crop_ (group_ s') = crop_ (group_ ex_source))
     /\ snd (draw_context_menu None true click_Original_aspect_ratio ex_view
               m') = m'.
Proof.
  split.
  - split; [exact ex_mixer_current|]. repeat split; reflexivity.
  - apply original_aspect_ratio_follows_the_crop;
      [exact ex_mixer_current | reflexivity | reflexivity | reflexivity
       | reflexivity].
Defined.

Lemma reset_puts_the_source_back_witness :
  (currentSource ex_mixer = Some ex_source
   /\ Selectable_Reset click_Reset = true)
  /\ exists s',
       currentSource
         (snd (draw_context_menu None true click_Reset ex_view ex_mixer))
       = Some s'
       /\ (forall c : vec2,
             corner_position (group_ s') (aspectRatio s') c
             = corner_local (aspectRatio ex_source) c)
       /\ crop_ (group_ s') = mkvec3 1 1 1
       /\ need_update_ s' = true.
Proof.
  split.
  - split; [exact ex_mixer_current | reflexivity].
  - apply reset_puts_the_source_back; [exact ex_mixer_current | reflexivity].
Defined.

Lemma resize_bounds_the_zoom_and_the_translation_witness :
  0 <= 1 / 5 <= 10
  /\ let root' := resize (1 / 5) 10 unit_node 50 in
     x3 (scale_ root') = y3 (scale_ root')
     /\ 1 / 5 <= x3 (scale_ root') <= 10
     /\ ((50 <= 0)%Z -> x3 (scale_ root') = 1 / 5)
     /\ ((100 <= 50)%Z -> x3 (scale_ root') = 10)
     /\ - (15 / 10) * x3 (scale_ root') <= x3 (translation_ root')
          <= 15 / 10 * x3 (scale_ root')
     /\ - (15 / 10) * y3 (scale_ root') <= y3 (translation_ root')
          <= 15 / 10 * y3 (scale_ root')
     /\ z3 (translation_ root') = 0.
Proof.
  split; [lra|].
  apply resize_bounds_the_zoom_and_the_translation. lra.
Defined.

Lemma move_follows_the_pointer_witness :
  (1 <> 0 /\ 12 <> -1 /\ width ex_window <> 0%Z /\ height ex_window <> 0%Z
   /\ nondegenerate unit_node /\ z3 (rotation_ unit_node) = 0
   /\ scene_root_transform_ ex_view_unit = transform_ (Node_update unit_node)
   /\ picked_handle ex_source 20 = None
   /\ shiftModifier no_modifier = false /\ altModifier no_modifier = false)
  /\ let s' :=
       snd (update_call (Rendering_unProject 1 12 ex_window)
              (mkvec2 100 100) (Some 20%nat, mkvec2 0 0)
              (ex_view_unit, ex_source) (mkvec2 164 68, no_modifier)) in
     let pixel := 2 * 1 / IZR (width ex_window) in
     translation_ (group_ s')
     = add3 (translation_ (stored_status_ ex_source))
            (mkvec3 (pixel * (x2 (mkvec2 164 68) - x2 (mkvec2 100 100))
                     / x3 (scale_ unit_node))
                    (- pixel * (y2 (mkvec2 164 68) - y2 (mkvec2 100 100))
                     / y3 (scale_ unit_node)) 0).
Proof.
  split.
  - split; [lra|]. split; [lra|]. split; [discriminate|].
    split; [discriminate|]. split; [exact nondegenerate_unit|].
    repeat split; reflexivity.
  - apply move_follows_the_pointer;
      try lra; try discriminate; try reflexivity.
    exact nondegenerate_unit.
Defined.

Lemma leaving_fullscreen_restores_the_window_witness :
  (window_ ex_window_state = true /\ glfw_monitor ex_window_state = None)
  /\ exists st1 st3,
       toggleFullscreen_ ex_monitor [ex_monitor] (fun _ => (0, 0)%Z)
         (toggleFullscreen ex_window_state) = Some st1
       /\ glfw_monitor st1
          = Some (monitorAt ex_monitor [ex_monitor]
                    (glfw_x ex_window_state) (glfw_y ex_window_state))
       /\ isFullscreen st1 = true
       /\ toggleFullscreen_ ex_monitor [ex_monitor] (fun _ => (0, 0)%Z)
            (toggleFullscreen
               (fold_left window_callback
                  [WindowMove 0 0; WindowResize 1920 1080] st1)) = Some st3
       /\ glfw_monitor st3 = None
       /\ isFullscreen st3 = false
       /\ request_toggle_fullscreen_ st3 = false
       /\ glfw_geometry st3 = settings_geometry ex_window_state
       /\ settings_geometry st3 = settings_geometry ex_window_state.
Proof.
  split; [repeat split; reflexivity|].
  apply leaving_fullscreen_restores_the_window; reflexivity.
Defined.

Lemma exitFullscreen_follows_the_monitor_of_the_window_witness :
  (window_ ex_window_state = true
   /\ request_toggle_fullscreen_ ex_window_state = false)
  /\ exists st',
       toggleFullscreen_ ex_monitor [ex_monitor] (fun _ => (0, 0)%Z)
         (exitFullscreen ex_window_state) = Some st'
       /\ request_toggle_fullscreen_ st' = false
       /\ (fullscreen_agrees ex_window_state ->
           fullscreen_agrees st' /\ isFullscreen st' = false
           /\ glfw_monitor st' = None)
       /\ (isFullscreen ex_window_state = true ->
           glfw_monitor ex_window_state = None ->
           isFullscreen st' = true
           /\ glfw_monitor st'
              = Some (monitorAt ex_monitor [ex_monitor]
                        (glfw_x ex_window_state) (glfw_y ex_window_state))).
Proof.
  split; [split; reflexivity|].
  apply exitFullscreen_follows_the_monitor_of_the_window; reflexivity.
Defined.

Lemma settings_and_glfw_agree_on_fullscreen_witness :
  window_ ex_window_state = true
  /\ (glfw_monitor ex_window_state = None ->
      fullscreen_agrees
        (RenderingWindow_show ex_monitor [ex_monitor] (fun _ => (0, 0)%Z)
           ex_window_state))
  /\ (fullscreen_agrees ex_window_state ->
      (forall e, fullscreen_agrees (window_callback ex_window_state e))
      /\ fullscreen_agrees (toggleFullscreen ex_window_state)
      /\ fullscreen_agrees (exitFullscreen ex_window_state)
      /\ (forall mo,
            fullscreen_agrees
              (setFullscreen_ (fun _ => (0, 0)%Z) mo ex_window_state))
      /\ exists st',
           toggleFullscreen_ ex_monitor [ex_monitor] (fun _ => (0, 0)%Z)
             ex_window_state = Some st'
           /\ fullscreen_agrees st').
Proof.
  split; [reflexivity|].
  apply settings_and_glfw_agree_on_fullscreen. reflexivity.
Defined.

Lemma initial_list_is_aligned_and_ends_with_the_screen_witness :
  let confscreen (cs : list string) :=
    match rev cs with c :: _ => Some [c] | [] => None end in
  confscreen ((fun _ : string => ["YUY2"; "RGB"]%string)
                "ximagesrc name=devsrc"%string)
  = Some ["RGB"%string]
  /\ exists dv,
       Device_Device (fun _ => ["YUY2"; "RGB"]%string) confscreen
         [("Webcam", "v4l2", "/dev/video0")]%string = Some dv
       /\ aligned dv
       /\ src_name_ dv
          = map (fun d => fst (fst d))
                [("Webcam", "v4l2", "/dev/video0")]%string
            ++ ["Screen"%string]
       /\ Device_name dv (numDevices dv - 1) = "Screen"%string
       /\ Device_description dv (numDevices dv - 1) = "ximagesrc "%string
       /\ Device_config [] dv (numDevices dv - 1) = ["RGB"%string]
       /\ Device_exists dv "Screen" = true
       /\ forall device, unplugged dv device = false.
Proof.
  split; [reflexivity|].
  apply (initial_list_is_aligned_and_ends_with_the_screen []).
  reflexivity.
Defined.
